(** * PUBLISH.py: version bookkeeping of the release script

    A shallow embedding of [src/PUBLISH.py].  A Python [str] is a list of
    Unicode code points; a file of UTF-8 text is held as that text, and the
    text layer of [open(..., "r")] (universal newlines) is applied when it
    is read; a file that is not UTF-8 fails to decode, and a text with a
    surrogate fails to encode when it is written.  The regular expressions
    of the script are kept as data and run by a small backtracking matcher
    that follows the priorities of Python's [re] (greedy and lazy
    repetition, leftmost alternative first). *)

From Stdlib Require Import String Ascii.
From Stdlib Require Import List NArith ZArith Bool Lia.
From Stdlib Require Import DecimalPos.
Import ListNotations.

Set Warnings "-register-all".

(** ** Text *)

Definition char := N.
Definition text := list char.

(** An ASCII literal of the source as a list of code points. *)
Definition u (s : string) : text :=
  map N_of_ascii (list_ascii_of_string s).

Definition LF : char := 10%N.
Definition BACKSLASH : char := 92%N.
Definition CR : char := 13%N.
Definition DQUOTE : char := 34%N.
Definition SQUOTE : char := 39%N.
Definition DOT : char := 46%N.
Definition CHECK_MARK : char := 9989%N.   (* U+2705 *)

Definition text_eqb (a b : text) : bool :=
  if list_eq_dec N.eq_dec a b then true else false.

Module Str.

(** [str.isspace] on one code point, which is also what [\s] matches in a
    [str] pattern: the ASCII white space 0x09-0x0D, 0x1C-0x1F, 0x20 and the
    Unicode white space beyond ASCII. *)
Definition isspace (c : char) : bool :=
  ((9 <=? c) && (c <=? 13) || (28 <=? c) && (c <=? 32)
   || (c =? 133) || (c =? 160) || (c =? 5760)
   || (8192 <=? c) && (c <=? 8202)
   || (c =? 8232) || (c =? 8233) || (c =? 8239) || (c =? 8287)
   || (c =? 12288))%N.

Fixpoint lstrip_by (p : char -> bool) (s : text) : text :=
  match s with
  | c :: s' => if p c then lstrip_by p s' else s
  | [] => []
  end.

Definition rstrip_by (p : char -> bool) (s : text) : text :=
  rev (lstrip_by p (rev s)).

Definition strip_by (p : char -> bool) (s : text) : text :=
  rstrip_by p (lstrip_by p s).

(** [s.strip()] *)
Definition strip (s : text) : text := strip_by isspace s.

(** [s.strip(chars)] and [s.lstrip(chars)] *)
Definition mem (chars : text) (c : char) : bool :=
  existsb (N.eqb c) chars.
Definition strip_chars (chars s : text) : text := strip_by (mem chars) s.
Definition lstrip_chars (chars s : text) : text := lstrip_by (mem chars) s.

(** [s.startswith(p)], and the rest of [s] after [p] *)
Fixpoint drop_prefix (p s : text) : option text :=
  match p, s with
  | [], _ => Some s
  | a :: p', b :: s' => if (a =? b)%N then drop_prefix p' s' else None
  | _ :: _, [] => None
  end.

Definition startswith (s p : text) : bool :=
  match drop_prefix p s with Some _ => true | None => false end.

(** [s.split(sep)] for a separator of one character: never empty. *)
Fixpoint split (sep : char) (s : text) : list text :=
  match s with
  | [] => [[]]
  | c :: s' =>
      if (c =? sep)%N then [] :: split sep s'
      else match split sep s' with
           | p :: ps => (c :: p) :: ps
           | [] => [[c]]
           end
  end.

(** [sep.join(parts)] *)
Fixpoint join (sep : text) (parts : list text) : text :=
  match parts with
  | [] => []
  | [p] => p
  | p :: ps => p ++ sep ++ join sep ps
  end.

(** [str(n)] of an [int], and of a [bool] *)
Fixpoint of_uint (d : Decimal.uint) : text :=
  match d with
  | Decimal.Nil => []
  | Decimal.D0 d => 48%N :: of_uint d
  | Decimal.D1 d => 49%N :: of_uint d
  | Decimal.D2 d => 50%N :: of_uint d
  | Decimal.D3 d => 51%N :: of_uint d
  | Decimal.D4 d => 52%N :: of_uint d
  | Decimal.D5 d => 53%N :: of_uint d
  | Decimal.D6 d => 54%N :: of_uint d
  | Decimal.D7 d => 55%N :: of_uint d
  | Decimal.D8 d => 56%N :: of_uint d
  | Decimal.D9 d => 57%N :: of_uint d
  end.

Definition of_N (n : N) : text := of_uint (N.to_uint n).

Definition of_Z (z : Z) : text :=
  match z with
  | Z.neg p => u "-" ++ of_N (N.pos p)
  | _ => of_N (Z.to_N z)
  end.

Definition of_bool (b : bool) : text :=
  if b then u "True" else u "False".

(** [s.splitlines()]: the line boundaries of [str.splitlines], which are
    more than those of a text file. *)
Definition is_linebreak (c : char) : bool :=
  ((10 <=? c) && (c <=? 13) || (28 <=? c) && (c <=? 30)
   || (c =? 133) || (c =? 8232) || (c =? 8233))%N.

Fixpoint splitlines (s : text) : list text :=
  match s with
  | [] => []
  | c :: s' =>
      if is_linebreak c then
        match s' with
        | c' :: s'' =>
            if ((c =? CR) && (c' =? LF))%N then [] :: splitlines s''
            else [] :: splitlines s'
        | [] => [[]]
        end
      else match splitlines s' with
           | l :: ls => (c :: l) :: ls
           | [] => [[c]]
           end
  end.

End Str.

(** ** Regular expressions

    The fragment of Python's [re] syntax that the script uses.  [exec] is a
    backtracking matcher in continuation-passing style: a repetition tries
    its alternatives in the order of [re] (a greedy one the longest first,
    a lazy one the shortest first) and the first that lets the rest of the
    pattern succeed wins. *)

Module Re.

Inductive cls := Space | AnyButNewline.

Definition in_cls (k : cls) (c : char) : bool :=
  match k with
  | Space => Str.isspace c
  | AnyButNewline => negb (c =? LF)%N
  end.

Inductive regex :=
| Bol                               (* ^ *)
| Eol                               (* $ *)
| Lit (s : text)                    (* literal characters *)
| StarGreedy (k : cls)              (* k* *)
| PlusLazy (k : cls)                (* k+? *)
| Group (n : nat) (r : regex)       (* ( r ), the n-th group *)
| Seq (r1 r2 : regex).

Definition captures := list (nat * text).

Definition cont := nat -> text -> captures -> option captures.

Fixpoint star_greedy (p : char -> bool) (k : cont)
    (pos : nat) (inp : text) (caps : captures) : option captures :=
  match inp with
  | c :: rest =>
      if p c then
        match star_greedy p k (S pos) rest caps with
        | Some r => Some r
        | None => k pos inp caps
        end
      else k pos inp caps
  | [] => k pos inp caps
  end.

Fixpoint plus_lazy (p : char -> bool) (k : cont)
    (pos : nat) (inp : text) (caps : captures) : option captures :=
  match inp with
  | c :: rest =>
      if p c then
        match k (S pos) rest caps with
        | Some r => Some r
        | None => plus_lazy p k (S pos) rest caps
        end
      else None
  | [] => None
  end.

Fixpoint exec (r : regex) (k : cont)
    (pos : nat) (inp : text) (caps : captures) : option captures :=
  match r with
  | Bol => if Nat.eqb pos 0 then k pos inp caps else None
  | Eol =>
      match inp with
      | [] => k pos inp caps
      | [c] => if (c =? LF)%N then k pos inp caps else None
      | _ => None
      end
  | Lit s =>
      match Str.drop_prefix s inp with
      | Some rest => k (pos + length s) rest caps
      | None => None
      end
  | StarGreedy c => star_greedy (in_cls c) k pos inp caps
  | PlusLazy c => plus_lazy (in_cls c) k pos inp caps
  | Group n r' =>
      exec r'
        (fun pos' rest caps' => k pos' rest ((n, firstn (pos' - pos) inp) :: caps'))
        pos inp caps
  | Seq r1 r2 => exec r1 (exec r2 k) pos inp caps
  end.

(** [re.match(r, s)]: the match is anchored at the start of [s] and need
    not reach its end. *)
Definition accept : cont := fun _ _ caps => Some caps.

Definition rmatch (r : regex) (s : text) : option captures :=
  exec r accept 0 s [].

(** [m.group(n)] of a match object; the patterns here have no optional
    group, so a group of a match is always set. *)
Definition group (n : nat) (m : captures) : text :=
  match find (fun e => Nat.eqb (fst e) n) m with
  | Some e => snd e
  | None => []
  end.

Fixpoint seq (rs : list regex) : regex :=
  match rs with
  | [] => Lit []
  | [r] => r
  | r :: rs' => Seq r (seq rs')
  end.

End Re.

(** The three patterns of the script. *)

(** The pattern of [detect_config_version]:
    caret, \s*, the key, \s*, group 1 around .+?, \s*, dollar. *)
Definition RE_VERSION_VALUE : Re.regex :=
  Re.seq [Re.Bol; Re.StarGreedy Re.Space; Re.Lit (u "version:");
          Re.StarGreedy Re.Space; Re.Group 1 (Re.PlusLazy Re.AnyButNewline);
          Re.StarGreedy Re.Space; Re.Eol].

(** The first pattern of [write_config_version]:
    caret, \s*, the key, \s*. *)
Definition RE_VERSION_KEY : Re.regex :=
  Re.seq [Re.Bol; Re.StarGreedy Re.Space; Re.Lit (u "version:");
          Re.StarGreedy Re.Space].

(** The second pattern of [write_config_version]:
    caret, group 1 around \s*. *)
Definition RE_INDENT : Re.regex :=
  Re.seq [Re.Bol; Re.Group 1 (Re.StarGreedy Re.Space)].

(** ** Values, exceptions and the world of the script *)

(** The classes of the exceptions that the script raises or that reach it
    from the library calls it makes; each is a subclass of [Exception]. *)
Inductive exn_class :=
| FileNotFoundError | IsADirectoryError | OSError
| HTTPError | URLError | JSONDecodeError | UnicodeDecodeError
| UnicodeEncodeError
| ValueError | AttributeError | TypeError | CalledProcessError.

(** An exception: its class and its [str(e)]. *)
Record exn := Exn { exn_cls : exn_class; exn_str : text }.

Inductive result (A : Type) :=
| Ok (a : A)
| Raise (e : exn).
Arguments Ok {A} a.
Arguments Raise {A} e.

(** What [json.loads] returns.  Of a float only its truth value is kept,
    and a dict is the list of its items, looked up by key. *)
Inductive pyval :=
| PNone
| PBool (b : bool)
| PInt (z : Z)
| PFloat (nonzero : bool)
| PStr (s : text)
| PList (l : list pyval)
| PDict (d : list (text * pyval)).

Definition is_empty {A} (l : list A) : bool :=
  match l with [] => true | _ => false end.

(** The truth value of [bool(v)]. *)
Definition truthy (v : pyval) : bool :=
  match v with
  | PNone => false
  | PBool b => b
  | PInt z => negb (z =? 0)%Z
  | PFloat nz => nz
  | PStr s => negb (is_empty s)
  | PList l => negb (is_empty l)
  | PDict d => negb (is_empty d)
  end.

(** [a or b] *)
Definition py_or (a b : pyval) : pyval := if truthy a then a else b.

Definition type_name (v : pyval) : text :=
  match v with
  | PNone => u "NoneType"
  | PBool _ => u "bool"
  | PInt _ => u "int"
  | PFloat _ => u "float"
  | PStr _ => u "str"
  | PList _ => u "list"
  | PDict _ => u "dict"
  end.

(** The value at a key of a dict, [None] when the key is not in it. *)
Definition lookup (d : list (text * pyval)) (key : text) : pyval :=
  match find (fun kv => text_eqb (fst kv) key) d with
  | Some kv => snd kv
  | None => PNone
  end.

Definition no_attribute (v : pyval) (attr : text) : exn :=
  Exn AttributeError
    (u "'" ++ type_name v ++ u "' object has no attribute '" ++ attr ++ u "'").

(** The two files of the script. *)
Inductive path := CONFIG_PATH | CHANGELOG_PATH.

Definition path_name (p : path) : text :=
  match p with
  | CONFIG_PATH => u "config.yaml"
  | CHANGELOG_PATH => u "CHANGELOG.md"
  end.

Definition OWNER : text := u "Nanako718".
Definition REPO : text := u "ha-fusion".

(** What is at a path: nothing, a directory, or a file.  [Regular raw] is a
    file whose bytes are the UTF-8 encoding of the text [raw].
    [Undecodable seen msg] is a file whose bytes are not UTF-8: reading it
    ends in UnicodeDecodeError with the text [msg]; a loop over its lines,
    which decodes the file chunk by chunk, gets the lines [seen] of the
    chunks before the bad one first. *)
Inductive node :=
| Absent
| Directory
| Regular (content : text)
| Undecodable (seen : list text) (msg : text).

Inductive event :=
| EvPrint (line : text)             (* print(line) *)
| EvHttpGet (url : text)            (* urllib.request.urlopen *)
| EvRun (cmd : list text).          (* subprocess.run(cmd) *)

Record world := World {
  config : node;
  changelog : node;
  events : list event               (* oldest first *)
}.

Definition file_at (p : path) (w : world) : node :=
  match p with
  | CONFIG_PATH => config w
  | CHANGELOG_PATH => changelog w
  end.

Definition set_file (p : path) (n : node) (w : world) : world :=
  match p with
  | CONFIG_PATH => World n (changelog w) (events w)
  | CHANGELOG_PATH => World (config w) n (events w)
  end.

Definition log (e : event) (w : world) : world :=
  World (config w) (changelog w) (events w ++ [e]).

(** What the script asks of its surroundings: the date of [datetime.now()],
    the answer of the release registry to a request, how a command ends,
    and [str(e)] of the CalledProcessError that [subprocess.run] raises for
    a command and its status (Python writes the command there as it shows
    a list, and names the signal of a status below zero). *)
Record date := Date { year : N; month : N; day : N }.

Inductive http_result :=
| HttpRaise (e : exn)
| HttpData (data : pyval).

Inductive run_result :=
| RunExit (code : Z)
| RunRaise (e : exn).

Record env := Env {
  now : date;
  urlopen : text -> http_result;
  run : list text -> run_result;
  error_text : list text -> Z -> text
}.

(** ** A state and exception monad *)

Definition M (A : Type) : Type := world -> world * result A.

Definition ret {A} (a : A) : M A := fun w => (w, Ok a).

Definition raise {A} (e : exn) : M A := fun w => (w, Raise e).

Definition bind {A B} (m : M A) (f : A -> M B) : M B :=
  fun w =>
    match m w with
    | (w', Ok a) => f a w'
    | (w', Raise e) => (w', Raise e)
    end.

(** [try: body except Exception as e: handler(e)] *)
Definition try_except {A} (body : M A) (handler : exn -> M A) : M A :=
  fun w =>
    match body w with
    | (w', Raise e) => handler e w'
    | r => r
    end.

Definition lift {A} (r : result A) : M A := fun w => (w, r).

Declare Scope monad_scope.
Delimit Scope monad_scope with monad.
Notation "x <- c1 ;; c2" := (bind c1 (fun x => c2))
  (at level 61, c1 at next level, right associativity) : monad_scope.
Notation "c1 ;; c2" := (bind c1 (fun _ => c2))
  (at level 61, right associativity) : monad_scope.
Open Scope monad_scope.

(** [print(line)], on a standard output that shows every text: the
    encoding of the output and what it does with a character it cannot
    encode are set outside the script. *)
Definition print (line : text) : M unit :=
  fun w => (log (EvPrint line) w, Ok tt).

(** ** Text files

    Reading in text mode turns each carriage return, with the line feed
    after it if there is one, into a line feed; the lines of a file end
    after each line feed.  Writing is that of a POSIX system, where a line
    feed is written as it is. *)

Fixpoint universal_newlines (s : text) : text :=
  match s with
  | [] => []
  | c :: s' =>
      if (c =? CR)%N then
        LF :: match s' with
              | c' :: s'' =>
                  if (c' =? LF)%N then universal_newlines s''
                  else universal_newlines s'
              | [] => []
              end
      else c :: universal_newlines s'
  end.

Fixpoint split_lines (s : text) : list text :=
  match s with
  | [] => []
  | c :: s' =>
      if (c =? LF)%N then [c] :: split_lines s'
      else match split_lines s' with
           | l :: ls => (c :: l) :: ls
           | [] => [[c]]
           end
  end.

(** The lines of a document: what [f.readlines()], or a loop over [f],
    yields for a file with this text. *)
Definition lines_of (raw : text) : list text :=
  split_lines (universal_newlines raw).

(** A surrogate: a code point that a str can hold (from a byte of the
    command line that is not UTF-8, from an escape in JSON) and that UTF-8
    does not encode. *)
Definition is_surrogate (c : char) : bool :=
  ((55296 <=? c) && (c <=? 57343))%N.

(** A text that UTF-8 encodes. *)
Definition utf8 (s : text) : bool :=
  forallb (fun c => negb (is_surrogate c)) s.

Fixpoint surrogates (s : text) : N :=
  match s with
  | c :: s' => if is_surrogate c then (1 + surrogates s')%N else 0%N
  | [] => 0%N
  end.

(** The first surrogate of a text: where it is, which it is, and where the
    run of surrogates that starts with it ends. *)
Fixpoint find_surrogate (pos : N) (s : text) : option (N * char * N) :=
  match s with
  | [] => None
  | c :: s' =>
      if is_surrogate c then Some (pos, c, (pos + surrogates s')%N)
      else find_surrogate (pos + 1)%N s'
  end.

Definition hex_digit (d : N) : char :=
  if (d <? 10)%N then (48 + d)%N else (87 + d)%N.

Definition hex4 (c : char) : text :=
  [hex_digit (c / 4096 mod 16); hex_digit (c / 256 mod 16);
   hex_digit (c / 16 mod 16); hex_digit (c mod 16)]%N.

(** The UnicodeEncodeError of the encoder of a file opened with
    [encoding="utf-8"], for the run of surrogates from [first] to [last]
    that starts with [c]. *)
Definition surrogates_not_allowed (first : N) (c : char) (last : N) : exn :=
  Exn UnicodeEncodeError
    (if (first =? last)%N then
       u "'utf-8' codec can't encode character '" ++ [BACKSLASH] ++ u "u"
       ++ hex4 c ++ u "' in position " ++ Str.of_N first
       ++ u ": surrogates not allowed"
     else
       u "'utf-8' codec can't encode characters in position "
       ++ Str.of_N first ++ u "-" ++ Str.of_N last
       ++ u ": surrogates not allowed").

(** [os.path.exists(p)] *)
Definition os_path_exists (p : path) : M bool :=
  fun w =>
    match file_at p w with
    | Absent => (w, Ok false)
    | _ => (w, Ok true)
    end.

Definition is_a_directory (p : path) : exn :=
  Exn IsADirectoryError
    (u "[Errno 21] Is a directory: '" ++ path_name p ++ u "'").

Definition no_such_file (p : path) : exn :=
  Exn FileNotFoundError
    (u "[Errno 2] No such file or directory: '" ++ path_name p ++ u "'").

(** [with open(p, "r", encoding="utf-8") as f: f.readlines()] *)
Definition readlines (p : path) : M (list text) :=
  fun w =>
    match file_at p w with
    | Absent => (w, Raise (no_such_file p))
    | Directory => (w, Raise (is_a_directory p))
    | Regular raw => (w, Ok (lines_of raw))
    | Undecodable _ msg => (w, Raise (Exn UnicodeDecodeError msg))
    end.

(** [with open(p, "r", encoding="utf-8") as f: for line in f]: the lines
    that the loop gets one after the other, and the exception that ends it
    after the last of them, if the loop was not left before. *)
Definition for_lines (p : path) : M (list text * option exn) :=
  fun w =>
    match file_at p w with
    | Absent => (w, Raise (no_such_file p))
    | Directory => (w, Raise (is_a_directory p))
    | Regular raw => (w, Ok (lines_of raw, None))
    | Undecodable seen msg =>
        (w, Ok (seen, Some (Exn UnicodeDecodeError msg)))
    end.

(** [open(p, "w", encoding="utf-8")]: the file is created or emptied. *)
Definition open_w (p : path) : M unit :=
  fun w =>
    match file_at p w with
    | Directory => (w, Raise (is_a_directory p))
    | _ => (set_file p (Regular []) w, Ok tt)
    end.

(** [f.write(s)] on the file just opened, closed at the end of [with]:
    the text is encoded as a whole, so nothing of it is written when it
    holds a surrogate; what was written before stays in the file. *)
Definition write (p : path) (s : text) : M unit :=
  fun w =>
    match file_at p w with
    | Regular old =>
        match find_surrogate 0 s with
        | None => (set_file p (Regular (old ++ s)) w, Ok tt)
        | Some (first, c, last) =>
            (w, Raise (surrogates_not_allowed first c last))
        end
    | _ => (w, Raise (no_such_file p))
    end.

(** [f.writelines(lines)]: one [write] for each line. *)
Fixpoint writelines (p : path) (lines : list text) : M unit :=
  match lines with
  | [] => ret tt
  | line :: rest => write p line ;; writelines p rest
  end.

(** ** The script *)

Definition str_truthy (s : text) : bool := negb (is_empty s).

(** [strip_v]: [tag.lstrip("v").strip()] *)
Definition strip_v (tag : text) : text :=
  Str.strip (Str.lstrip_chars (u "v") tag).

(** What [detect_config_version] makes of the group of a match: the
    white space and the quotes around it are stripped. *)
Definition unquoted (g : text) : text :=
  Str.strip_chars [SQUOTE] (Str.strip_chars [DQUOTE] (Str.strip g)).

(** The loop of [detect_config_version] over the lines of the file. *)
Fixpoint scan_version (lines : list text) : text :=
  match lines with
  | [] => []
  | line :: rest =>
      match Re.rmatch RE_VERSION_VALUE line with
      | Some m => unquoted (Re.group 1 m)
      | None => scan_version rest
      end
  end.

(** The same loop over the lines that are read before an exception ends
    the reading. *)
Fixpoint scan_lines (lines : list text) (stop : option exn) : result text :=
  match lines with
  | [] =>
      match stop with
      | Some e => Raise e
      | None => Ok []
      end
  | line :: rest =>
      match Re.rmatch RE_VERSION_VALUE line with
      | Some m => Ok (unquoted (Re.group 1 m))
      | None => scan_lines rest stop
      end
  end.

Definition detect_config_version : M text :=
  ex <- os_path_exists CONFIG_PATH ;;
  if negb ex then ret []
  else
    r <- for_lines CONFIG_PATH ;;
    lift (scan_lines (fst r) (snd r)).

Definition is_match (m : option Re.captures) : bool :=
  match m with Some _ => true | None => false end.

Definition version_line (indent version_no_v : text) : text :=
  indent ++ u "version: " ++ version_no_v ++ [LF].

(** The loop of [write_config_version], with its two variables. *)
Fixpoint rewrite_lines (version_no_v : text) (lines new_lines : list text)
    (replaced : bool) : result (list text * bool) :=
  match lines with
  | [] => Ok (new_lines, replaced)
  | line :: rest =>
      if is_match (Re.rmatch RE_VERSION_KEY line) && negb replaced then
        match Re.rmatch RE_INDENT line with
        | Some m =>
            let indent := Re.group 1 m in
            rewrite_lines version_no_v rest
              (new_lines ++ [version_line indent version_no_v]) true
        | None => Raise (no_attribute PNone (u "group"))
        end
      else rewrite_lines version_no_v rest (new_lines ++ [line]) replaced
  end.

Definition write_config_version (version_no_v : text) (dry : bool) : M unit :=
  ex <- os_path_exists CONFIG_PATH ;;
  if negb ex then
    raise (Exn FileNotFoundError (path_name CONFIG_PATH ++ u " not found"))
  else
    lines <- readlines CONFIG_PATH ;;
    r <- lift (rewrite_lines version_no_v lines [] false) ;;
    let new_lines :=
      if snd r then fst r else fst r ++ [version_line [] version_no_v] in
    if dry then
      print (u "[dry-run] would write version=" ++ version_no_v
             ++ u " to " ++ path_name CONFIG_PATH)
    else
      open_w CONFIG_PATH ;;
      writelines CONFIG_PATH new_lines ;;
      print (u "INFO: " ++ path_name CONFIG_PATH ++ u " updated to "
             ++ version_no_v).

Definition DEFAULT_CHANGELOG : text :=
  u "# Changelog" ++ [LF; LF] ++ u "Manual release.".

Definition write_changelog (text0 : pyval) (dry : bool) : M unit :=
  let text1 := py_or text0 (PStr DEFAULT_CHANGELOG) in
  if dry then
    print (u "[dry-run] would write CHANGELOG (preview):") ;;
    match text1 with
    | PStr s => print (Str.join [LF] (firstn 20 (Str.splitlines s)))
    | _ => raise (no_attribute text1 (u "splitlines"))
    end
  else
    open_w CHANGELOG_PATH ;;
    match text1 with
    | PStr s => write CHANGELOG_PATH s
    | _ =>
        raise (Exn TypeError
                 (u "write() argument must be str, not " ++ type_name text1))
    end ;;
    print (u "INFO: CHANGELOG.md updated").

(** The number of decimal digits above which CPython (3.11 and later, in
    its default setting) refuses to turn an int into a str. *)
Definition MAX_STR_DIGITS : Z := 4300.

(** [str(n)] and [f"{n}"] of an int *)
Definition str_of_int (n : Z) : result text :=
  if (Z.abs n <? 10 ^ MAX_STR_DIGITS)%Z then Ok (Str.of_Z n)
  else
    Raise (Exn ValueError
             (u "Exceeds the limit (4300 digits) for integer string "
              ++ u "conversion; use sys.set_int_max_str_digits() to "
              ++ u "increase the limit")).

Section Script.

(** [int(s)]: the integer that [s] denotes, or nothing where [int] raises
    [ValueError]. *)
Variable py_int : text -> option Z.

(** The surroundings of one run. *)
Variable E : env.

(** [sh]: the command is printed and run; with [check] a status other than
    zero raises. *)
Definition sh (cmd : list text) (check : bool) : M unit :=
  print (u "$ " ++ Str.join (u " ") cmd) ;;
  fun w =>
    let w' := log (EvRun cmd) w in
    match run E cmd with
    | RunRaise e => (w', Raise e)
    | RunExit code =>
        if check && negb (code =? 0)%Z then
          (w', Raise (Exn CalledProcessError (error_text E cmd code)))
        else (w', Ok tt)
    end.

Definition http_json (url : text) : M pyval :=
  fun w =>
    let w' := log (EvHttpGet url) w in
    match urlopen E url with
    | HttpRaise e => (w', Raise e)
    | HttpData data => (w', Ok data)
    end.

(** [data.get(key)] *)
Definition get (data : pyval) (key : text) : M pyval :=
  match data with
  | PDict d => ret (lookup d key)
  | _ => raise (no_attribute data (u "get"))
  end.

Definition release_url (owner repo : text) : text :=
  u "https://api.github.com/repos/" ++ owner ++ u "/" ++ repo
  ++ u "/releases/latest".

(** The body of the [try] of [fetch_latest_release]. *)
Definition fetch_latest_release_try (url : text)
  : M (option text * option pyval) :=
  data <- http_json url ;;
  t <- get data (u "tag_name") ;;
  let tag := py_or t (PStr []) in
  b <- get data (u "body") ;;
  let body := py_or b (PStr []) in
  if negb (truthy tag) then raise (Exn ValueError (u "missing tag_name"))
  else
    match tag with
    | PStr s =>
        let s' := if negb (Str.startswith s (u "v")) then u "v" ++ s else s in
        ret (Some s', Some body)
    | _ => raise (no_attribute tag (u "startswith"))
    end.

Definition fetch_latest_release (owner repo : text)
  : M (option text * option pyval) :=
  try_except (fetch_latest_release_try (release_url owner repo))
    (fun e =>
       match exn_cls e with
       | HTTPError =>
           print (u "WARN: fetch latest release failed: " ++ exn_str e) ;;
           ret (None, None)
       | _ =>
           print (u "WARN: fetch latest release error: " ++ exn_str e) ;;
           ret (None, None)
       end).

Definition git_add_commit (files : list text) (message : text) (dry : bool)
  : M unit :=
  if dry then
    print (u "[dry-run] git add " ++ Str.join (u " ") files
           ++ u " && git commit -m " ++ [DQUOTE] ++ message ++ [DQUOTE])
  else
    sh ([u "git"; u "add"] ++ files) true ;;
    sh [u "git"; u "commit"; u "-m"; message] false.

Definition git_force_tag_and_push (tag_with_v : text) (push dry : bool)
  : M unit :=
  if dry then print (u "[dry-run] re-tag " ++ tag_with_v ++ u " and push")
  else
    sh [u "git"; u "tag"; u "-d"; tag_with_v] false ;;
    sh [u "git"; u "push"; u "origin"; u ":refs/tags/" ++ tag_with_v] false ;;
    sh [u "git"; u "tag"; tag_with_v] true ;;
    if push then
      sh [u "git"; u "push"] true ;;
      sh [u "git"; u "push"; u "origin"; tag_with_v] true
    else ret tt.

Definition git_push (dry : bool) : M unit :=
  if dry then print (u "[dry-run] git push")
  else sh [u "git"; u "push"] true.

(** [strftime("%Y.%m.%d")]: the year, and the month and the day on two
    digits. *)
Definition two_digits (n : N) : text :=
  if (n <? 10)%N then u "0" ++ Str.of_N n else Str.of_N n.

Definition strftime_Ymd (d : date) : text :=
  Str.of_N (year d) ++ u "." ++ two_digits (month d) ++ u "."
  ++ two_digits (day d).

Definition auto_version : M text :=
  let today := strftime_Ymd (now E) in
  cur <- detect_config_version ;;
  let n :=
    if Str.startswith cur today then
      let parts := Str.split DOT cur in
      match py_int (last parts []) with
      | Some k => (k + 1)%Z
      | None => 2%Z
      end
    else 1%Z in
  s <- lift (str_of_int n) ;;
  ret (today ++ u "." ++ s).

Record args := Args {
  version : option text;            (* --version, None when not given *)
  notes : text;                     (* --notes, default the empty string *)
  latest_only : bool;
  no_push : bool;
  dry_run : bool
}.

(** [bool(args.version)] *)
Definition version_given (a : args) : bool :=
  match version a with
  | Some v => str_truthy v
  | None => false
  end.

(** The branch of [main] taken when no release is found. *)
Definition resolve_fallback (a : args) : M (text * text * pyval) :=
  version_no_v <- auto_version ;;
  let tag_with_v := u "v" ++ version_no_v in
  let notes1 :=
    if str_truthy (notes a) then notes a
    else u "# " ++ tag_with_v ++ [LF; LF]
         ++ u "Auto fallback (no releases in repo)." in
  ret (version_no_v, tag_with_v, PStr notes1).

(** The first step of [main], which sets [version_no_v], [tag_with_v] and
    [notes]: the branch of a given version, and the branch without. *)
Definition resolve_given (a : args) (v : text) : M (text * text * pyval) :=
  version_no_v <-
    (if negb (text_eqb v (u "auto")) then ret v else auto_version) ;;
  let tag_with_v := u "v" ++ version_no_v in
  let notes1 :=
    if str_truthy (notes a) then notes a
    else u "# " ++ tag_with_v ++ [LF; LF] ++ u "Manual release." in
  ret (version_no_v, tag_with_v, PStr notes1).

Definition resolve_remote (a : args) : M (text * text * pyval) :=
  r <- fetch_latest_release OWNER REPO ;;
  match r with
  | (Some tag_with_v, body) =>
      if str_truthy tag_with_v then
        let version_no_v := strip_v tag_with_v in
        let notes0 := match body with Some b => b | None => PNone end in
        let notes1 :=
          py_or (PStr (notes a))
            (py_or notes0 (PStr (u "# " ++ tag_with_v ++ [LF]))) in
        ret (version_no_v, tag_with_v, notes1)
      else resolve_fallback a
  | (None, _) => resolve_fallback a
  end.

Definition resolve (a : args) : M (text * text * pyval) :=
  match version a with
  | Some v => if str_truthy v then resolve_given a v else resolve_remote a
  | None => resolve_remote a
  end.

(** The steps of [main] after the first: the files, the commit, the push. *)
Definition release (a : args) (version_no_v tag_with_v : text)
    (notes1 : pyval) : M unit :=
  print (u "PLAN: config.version=" ++ version_no_v ++ u "  tag=" ++ tag_with_v
         ++ u "  latest_only=" ++ Str.of_bool (latest_only a)) ;;
  write_config_version version_no_v (dry_run a) ;;
  write_changelog notes1 (dry_run a) ;;
  git_add_commit [path_name CONFIG_PATH; path_name CHANGELOG_PATH]
    (u "release: " ++ version_no_v) (dry_run a) ;;
  if no_push a then print (u "INFO: --no-push set, skip pushing")
  else
    (if latest_only a then
       git_push (dry_run a) ;;
       print ([LF; CHECK_MARK] ++ u " pushed (latest only).")
     else
       git_force_tag_and_push tag_with_v true (dry_run a) ;;
       print ([LF; CHECK_MARK] ++ u " pushed with tag and latest.")) ;;
    print (u "Done.").

Definition main (a : args) : M unit :=
  r <- resolve a ;;
  let '(version_no_v, tag_with_v, notes1) := r in
  release a version_no_v tag_with_v notes1.

End Script.

(** ** Notions used to state the properties *)

(** The longest prefix of [s] whose characters satisfy [p]. *)
Fixpoint prefix_by (p : char -> bool) (s : text) : text :=
  match s with
  | c :: s' => if p c then c :: prefix_by p s' else []
  | [] => []
  end.

(** The indentation of a line: its leading white space. *)
Definition indent_of (line : text) : text := prefix_by Str.isspace line.

(** A version line is a line that [write_config_version] takes for one. *)
Definition is_version_line (line : text) : bool :=
  is_match (Re.rmatch RE_VERSION_KEY line).

Definition is_newline (c : char) : bool := ((c =? LF) || (c =? CR))%N.

(** A character that neither [strip()] nor the two [strip] of quotes
    removes. *)
Definition keeps (c : char) : bool :=
  negb (Str.isspace c || (c =? DQUOTE) || (c =? SQUOTE))%N.

(** A version that reads back as it was written: no line break in it, and
    neither white space nor a quote at either end. *)
Definition plain_version (v : text) : bool :=
  forallb (fun c => negb (is_newline c)) v &&
  match v with
  | [] => true
  | c :: _ => keeps c && keeps (last v c)
  end.

(** A line that ends with its line feed, and the last line of a file that
    does not end with one. *)
Definition terminated (l : text) : Prop :=
  exists b, l = b ++ [LF] /\ ~ In LF b.

Definition unterminated (l : text) : Prop :=
  l <> [] /\ ~ In LF l.

Fixpoint well_formed (ls : list text) : Prop :=
  match ls with
  | [] => True
  | [l] => terminated l \/ unterminated l
  | l :: ls' => terminated l /\ well_formed ls'
  end.

(** [int] on the ASCII decimal literals without sign, for the examples. *)
Definition digit (c : char) : option Z :=
  if ((48 <=? c) && (c <=? 57))%N then Some (Z.of_N c - 48)%Z else None.

Fixpoint digits (acc : Z) (s : text) : option Z :=
  match s with
  | [] => Some acc
  | c :: s' =>
      match digit c with
      | Some d => digits (10 * acc + d)%Z s'
      | None => None
      end
  end.

Definition int_of_digits (s : text) : option Z :=
  match s with
  | [] => None
  | _ => digits 0%Z s
  end.

Definition updated_message (v : text) : event :=
  EvPrint (u "INFO: " ++ path_name CONFIG_PATH ++ u " updated to " ++ v).

Definition dry_message (v : text) : event :=
  EvPrint (u "[dry-run] would write version=" ++ v ++ u " to "
           ++ path_name CONFIG_PATH).

Definition exn_cls_of {A} (r : result A) : option exn_class :=
  match r with
  | Raise e => Some (exn_cls e)
  | Ok _ => None
  end.

Definition count_version_lines (lines : list text) : nat :=
  length (filter is_version_line lines).

(** The lines of the config file of a world; none when there is no file. *)
Definition config_lines (w : world) : list text :=
  match config w with
  | Regular raw => lines_of raw
  | _ => []
  end.

(** A computation keeps a property of the world. *)
Definition keeps_inv {A} (I : world -> Prop) (m : M A) : Prop :=
  forall w, I w -> I (fst (m w)).

(** A computation brings a property of the world about. *)
Definition establishes {A} (I : world -> Prop) (m : M A) : Prop :=
  forall w, I (fst (m w)).

(** An answer of the registry from which a release is taken: a JSON object
    whose [tag_name] is a string that is not empty. *)
Definition usable_release (o : http_result) : bool :=
  match o with
  | HttpData (PDict d) =>
      match lookup d (u "tag_name") with
      | PStr s => negb (is_empty s)
      | _ => false
      end
  | _ => false
  end.

(** No request was sent to the release registry. *)
Definition is_request (e : event) : Prop :=
  match e with
  | EvHttpGet _ => True
  | _ => False
  end.

Definition no_request (w : world) : Prop :=
  Forall (fun e => ~ is_request e) (events w).



(** Surroundings for the examples: the first of January 2024, a registry
    that has no release and answers 404, commands that succeed. *)
Definition NOT_FOUND : exn := Exn HTTPError (u "HTTP Error 404: Not Found").

(** [str(e)] of CalledProcessError as Python shows it for a command of
    plain words (printable ASCII without quote or backslash) and a status
    above zero; for the examples. *)
Definition plain_error_text (cmd : list text) (code : Z) : text :=
  u "Command '["
  ++ Str.join (u ", ") (map (fun word => u "'" ++ word ++ u "'") cmd)
  ++ u "]' returned non-zero exit status " ++ Str.of_Z code ++ u ".".

Definition no_release : env :=
  Env (Date 2024 1 1) (fun _ => HttpRaise NOT_FOUND) (fun _ => RunExit 0)
    plain_error_text.

(** A world with a config file of the given text and nothing else. *)
Definition config_only (raw : text) : world := World (Regular raw) Absent [].

(** A config document with two version lines, the first one indented, and
    one of a single line. *)
Definition TWO_VERSIONS : text :=
  u "name: x" ++ [LF] ++ u "  version: 0.1" ++ [LF] ++ u "version: 0.2"
  ++ [LF].

Definition ONE_VERSION : text := u "version: 1.0" ++ [LF].

(** A document of two version lines that end as lines do on Windows. *)
Definition CRLF_VERSIONS : text :=
  u "version: 0.1" ++ [CR; LF] ++ u "version: 0.2" ++ [CR; LF].

(** ** Notions used for the rest of the script *)

Definition is_digit (c : char) : Prop := (48 <= c <= 57)%N.

(** The characters of a version of [auto_version]. *)
Definition is_version_char (c : char) : Prop :=
  is_digit c \/ c = DOT \/ c = 45%N.

(** The tag that [fetch_latest_release] makes of a tag name. *)
Definition with_v (t : text) : text :=
  if Str.startswith t (u "v") then t else u "v" ++ t.

(** The commands that were run, oldest first. *)
Definition commands (w : world) : list (list text) :=
  flat_map (fun e => match e with EvRun cmd => [cmd] | _ => [] end) (events w).

Definition is_run (e : event) : Prop :=
  match e with
  | EvRun _ => True
  | _ => False
  end.

(** The files and the commands of a world are those of [w0]. *)
Definition untouched (w0 w : world) : Prop :=
  config w = config w0 /\ changelog w = changelog w0
  /\ commands w = commands w0.

Definition GIT_ADD : list text :=
  [u "git"; u "add"; path_name CONFIG_PATH; path_name CHANGELOG_PATH].

Definition git_commit (version_no_v : text) : list text :=
  [u "git"; u "commit"; u "-m"; u "release: " ++ version_no_v].

(** The commands of [main] that stay in the working copy. *)
Definition local_command (cmd : list text) : Prop :=
  cmd = GIT_ADD \/ exists v, cmd = git_commit v.

(** Those, and the push of the branch. *)
Definition branch_command (cmd : list text) : Prop :=
  local_command cmd \/ cmd = [u "git"; u "push"].

Definition shown (cmd : list text) : event :=
  EvPrint (u "$ " ++ Str.join (u " ") cmd).

(** The world after [cmd] was printed and run. *)
Definition ran (cmd : list text) (w : world) : world :=
  log (EvRun cmd) (log (shown cmd) w).

(** The exception of a command that was checked and failed. *)
Definition non_zero_exit (E : env) (cmd : list text) (code : Z) : exn :=
  Exn CalledProcessError (error_text E cmd code).

(** The commands run since [w0] are all among [ok]. *)
Definition runs_only (ok : list text -> Prop) (w0 w : world) : Prop :=
  exists new, commands w = commands w0 ++ new /\ Forall ok new.

Definition permits (ok : list text -> Prop) (e : event) : Prop :=
  match e with
  | EvRun cmd => ok cmd
  | _ => True
  end.

Definition manual_notes (a : args) (v : text) : text :=
  match notes a with
  | [] => u "# v" ++ v ++ [LF; LF] ++ u "Manual release."
  | n => n
  end.

(** The commands of a release of [v] with its tag, in their order. *)
Definition tagged_release_commands (v : text) : list (list text) :=
  [ GIT_ADD;
    git_commit v;
    [u "git"; u "tag"; u "-d"; u "v" ++ v];
    [u "git"; u "push"; u "origin"; u ":refs/tags/" ++ u "v" ++ v];
    [u "git"; u "tag"; u "v" ++ v];
    [u "git"; u "push"];
    [u "git"; u "push"; u "origin"; u "v" ++ v] ].

(** A registry with a release 1.2.3, and a repository where nothing is to
    be committed and the tag does not exist yet: these three commands end
    with status 1. *)
Definition RELEASE : pyval :=
  PDict [(u "tag_name", PStr (u "1.2.3")); (u "body", PStr (u "notes"))].

Definition first_release : env :=
  Env (Date 2024 1 1) (fun _ => HttpData RELEASE)
    (fun cmd =>
       if text_eqb (nth 1 cmd []) (u "commit")
          || text_eqb (nth 2 cmd []) (u "-d")
          || Str.startswith (nth 3 cmd []) (u ":refs/tags/")
       then RunExit 1 else RunExit 0)
    plain_error_text.

(** A repository where no tag can be created. *)
Definition no_tag : env :=
  Env (Date 2024 1 1) (fun _ => HttpData RELEASE)
    (fun cmd =>
       if text_eqb (nth 1 cmd []) (u "tag") then RunExit 128 else RunExit 0)
    plain_error_text.

(** A repository where nothing can be staged. *)
Definition no_staging : env :=
  Env (Date 2024 1 1) (fun _ => HttpData RELEASE)
    (fun cmd =>
       if text_eqb (nth 1 cmd []) (u "add") then RunExit 128 else RunExit 0)
    plain_error_text.

Definition NO_FILES : world := World Absent Absent [].

(** What Python makes of the byte 0xFF on the command line: the surrogate
    U+DCFF. *)
Definition LONE_SURROGATE : text := [56575%N].

(** Files that are not UTF-8: one that is short, so that nothing of it is
    read before the error, and one of which a first chunk with a version
    line decodes. *)
Definition BAD_BYTE : text :=
  u "'utf-8' codec can't decode byte 0xe9 in position 9: "
  ++ u "invalid continuation byte".

Definition NOT_UTF8 : node := Undecodable [] BAD_BYTE.

Definition HALF_UTF8 : node := Undecodable [u "version: 1.0" ++ [LF]] BAD_BYTE.

(** The last number that Python turns into a str. *)
Definition LAST_NUMBER : Z := (10 ^ MAX_STR_DIGITS - 1)%Z.

(** A config document whose key has no value on its first line. *)
Definition BARE_KEY : text :=
  u "version:" ++ [LF] ++ u "version: 0.2" ++ [LF].

Definition QUOTED : text :=
  u "name: x" ++ [LF] ++ u "  version:  " ++ [DQUOTE] ++ u "1.2" ++ [DQUOTE]
  ++ u "  " ++ [LF].


(** The exception of [write] on a text with a surrogate. *)
Definition encode_error (s : text) : exn :=
  match find_surrogate 0 s with
  | Some (first, c, last) => surrogates_not_allowed first c last
  | None => Exn UnicodeEncodeError []
  end.

(** The first line that UTF-8 does not encode, and the lines before it. *)
Fixpoint first_unencodable (lines : list text) : option text :=
  match lines with
  | [] => None
  | l :: ls => if utf8 l then first_unencodable ls else Some l
  end.

Fixpoint encodable_prefix (lines : list text) : list text :=
  match lines with
  | [] => []
  | l :: ls => if utf8 l then l :: encodable_prefix ls else []
  end.

(** What writing the lines [new_lines] of the version [v] to the config
    file makes of a world: the file holds them all, or those before the
    first that UTF-8 does not encode. *)
Definition written (v : text) (new_lines : list text) (w : world)
  : world * result unit :=
  match first_unencodable new_lines with
  | None =>
      (World (Regular (concat new_lines)) (changelog w)
         (events w ++ [updated_message v]), Ok tt)
  | Some bad =>
      (World (Regular (concat (encodable_prefix new_lines))) (changelog w)
         (events w), Raise (encode_error bad))
  end.

(** ** The model on small inputs *)

Example value_in_quotes :
  Re.rmatch RE_VERSION_VALUE (u "  version:  'a b'  " ++ [LF])
  = Some [(1, u "'a b'")].
Proof. reflexivity. Qed.

Example value_of_one_space :
  Re.rmatch RE_VERSION_VALUE (u "version: " ++ [LF]) = Some [(1, u " ")].
Proof. reflexivity. Qed.

Example key_without_value :
  Re.rmatch RE_VERSION_VALUE (u "version:" ++ [LF]) = None
  /\ is_version_line (u "version:" ++ [LF]) = true.
Proof. split; reflexivity. Qed.

Example indent_of_tab_and_space :
  Re.rmatch RE_INDENT ([9%N] ++ u " version: 1") = Some [(1, [9%N; 32%N])].
Proof. reflexivity. Qed.

Example lines_of_crlf :
  lines_of (u "a" ++ [CR; LF] ++ u "b" ++ [CR] ++ u "c")
  = [u "a" ++ [LF]; u "b" ++ [LF]; u "c"].
Proof. reflexivity. Qed.

Example strip_v_of_tag : strip_v (u "vv1.0 ") = u "1.0".
Proof. reflexivity. Qed.

Example date_of_day : strftime_Ymd (Date 2024 1 1) = u "2024.01.01".
Proof. reflexivity. Qed.

(** ** The matcher on the patterns of the script *)

Section Matcher.

Variable p : char -> bool.

Lemma prefix_lstrip (s : text) : prefix_by p s ++ Str.lstrip_by p s = s.
Proof.
  induction s as [|c s IH]; simpl; [reflexivity|].
  destruct (p c); simpl; [now rewrite IH | reflexivity].
Qed.

Lemma prefix_by_all (s : text) : Forall (fun c => p c = true) (prefix_by p s).
Proof.
  induction s as [|c s IH]; simpl; [constructor|].
  destruct (p c) eqn:Hc; [constructor; assumption | constructor].
Qed.

Lemma prefix_by_app (a b : text) :
  Forall (fun c => p c = true) a ->
  match b with [] => True | c :: _ => p c = false end ->
  prefix_by p (a ++ b) = a /\ Str.lstrip_by p (a ++ b) = b.
Proof.
  intros Ha Hb. induction Ha as [|c a Hc Ha IH]; simpl.
  - destruct b as [|c b]; [split; reflexivity|].
    simpl. rewrite Hb. split; reflexivity.
  - rewrite Hc. destruct IH as [IH1 IH2]. rewrite IH1, IH2. split; reflexivity.
Qed.

(** A greedy repetition whose continuation fails on every input that
    starts with a character of the class commits to the longest run. *)
Lemma star_greedy_commit (k : Re.cont) (s : text) :
  (forall n c s' cs, p c = true -> k n (c :: s') cs = None) ->
  forall pos caps,
    Re.star_greedy p k pos s caps =
    k (pos + length (prefix_by p s)) (Str.lstrip_by p s) caps.
Proof.
  intros Hk. induction s as [|c s IH]; intros pos caps; simpl.
  - now rewrite Nat.add_0_r.
  - destruct (p c) eqn:Hc; simpl.
    + rewrite IH. rewrite (Hk pos c s caps Hc).
      replace (S pos + length (prefix_by p s))
        with (pos + S (length (prefix_by p s))) by lia.
      now destruct (k _ _ _).
    + now rewrite Nat.add_0_r.
Qed.

(** When the continuation succeeds after the longest run, that is the
    match. *)
Lemma star_greedy_longest (k : Re.cont) (s : text) :
  forall pos caps r,
    k (pos + length (prefix_by p s)) (Str.lstrip_by p s) caps = Some r ->
    Re.star_greedy p k pos s caps = Some r.
Proof.
  induction s as [|c s IH]; intros pos caps r; simpl.
  - now rewrite Nat.add_0_r.
  - destruct (p c) eqn:Hc; simpl.
    + replace (pos + S (length (prefix_by p s)))
        with (S pos + length (prefix_by p s)) by lia.
      intros H. now rewrite (IH _ _ _ H).
    + now rewrite Nat.add_0_r.
Qed.

Lemma star_greedy_total (k : Re.cont) (s : text) :
  (forall n s' cs, k n s' cs <> None) ->
  forall pos caps, Re.star_greedy p k pos s caps <> None.
Proof.
  intros Hk. induction s as [|c s IH]; intros pos caps; simpl.
  - apply Hk.
  - destruct (p c); [|apply Hk].
    specialize (IH (S pos) caps).
    destruct (Re.star_greedy p k (S pos) s caps); [discriminate | contradiction].
Qed.

(** A lazy repetition stops at the first length at which the continuation
    succeeds. *)
Lemma plus_lazy_first (k : Re.cont) (body tail : text) :
  body <> [] ->
  Forall (fun c => p c = true) body ->
  forall pos caps,
    (forall b1 b2, body = b1 ++ b2 -> b1 <> [] -> b2 <> [] ->
       k (pos + length b1) (b2 ++ tail) caps = None) ->
    Re.plus_lazy p k pos (body ++ tail) caps =
    match k (pos + length body) tail caps with
    | Some r => Some r
    | None => Re.plus_lazy p k (pos + length body) tail caps
    end.
Proof.
  intros Hne Hall. induction Hall as [|c body Hc Hall IH]; [contradiction|].
  intros pos caps Hk. simpl. rewrite Hc.
  destruct body as [|c' body].
  - simpl. now replace (pos + 1) with (S pos) by lia.
  - assert (H1 : k (S pos) ((c' :: body) ++ tail) caps = None).
    { replace (S pos) with (pos + length [c]) by (simpl; lia).
      apply Hk; [reflexivity | discriminate | discriminate]. }
    rewrite H1. rewrite IH; try discriminate.
    + now replace (S pos + length (c' :: body))
        with (pos + S (length (c' :: body))) by lia.
    + intros b1 b2 E Hb1 Hb2.
      specialize (Hk (c :: b1) b2). simpl in Hk. rewrite <- E in Hk.
      replace (S pos + length b1) with (pos + S (length b1)) by lia.
      apply Hk; [reflexivity | discriminate | assumption].
Qed.

End Matcher.

(** Where a repetition has matched. *)

Section Inversion.

Variable p : char -> bool.

Lemma star_greedy_inv (k : Re.cont) (s : text) :
  forall pos caps r,
    Re.star_greedy p k pos s caps = Some r ->
    exists i, i <= length (prefix_by p s)
              /\ k (pos + i) (skipn i s) caps = Some r.
Proof.
  induction s as [|c s IH]; intros pos caps r; cbn [Re.star_greedy prefix_by].
  - intros H. exists 0. rewrite Nat.add_0_r. split; [reflexivity | exact H].
  - destruct (p c).
    + destruct (Re.star_greedy p k (S pos) s caps) as [r'|] eqn:E.
      * intros H. inversion H. subst r'.
        destruct (IH _ _ _ E) as [i [Hi Hk]]. exists (S i).
        split; [simpl; lia|].
        now replace (pos + S i) with (S pos + i) by lia.
      * intros H. exists 0. rewrite Nat.add_0_r. split; [lia | exact H].
    + intros H. exists 0. rewrite Nat.add_0_r. split; [reflexivity | exact H].
Qed.

Lemma plus_lazy_inv (k : Re.cont) (s : text) :
  forall pos caps r,
    Re.plus_lazy p k pos s caps = Some r ->
    exists body tail,
      s = body ++ tail /\ body <> []
      /\ Forall (fun c => p c = true) body
      /\ k (pos + length body) tail caps = Some r.
Proof.
  induction s as [|c s IH]; intros pos caps r; cbn [Re.plus_lazy];
    [discriminate|].
  destruct (p c) eqn:Hc; [|discriminate].
  destruct (k (S pos) s caps) as [r'|] eqn:E.
  - intros H. inversion H. subst r'. exists [c], s.
    repeat split; [discriminate | now constructor |].
    now replace (pos + length [c]) with (S pos) by (simpl; lia).
  - intros H. destruct (IH _ _ _ H) as [body [tail [Es [Hne [Hall Hk]]]]].
    exists (c :: body), tail. subst s.
    repeat split; [discriminate | now constructor |].
    now replace (pos + length (c :: body)) with (S pos + length body)
      by (simpl; lia).
Qed.

Lemma prefix_by_firstn (s : text) (i : nat) :
  i <= length (prefix_by p s) ->
  Forall (fun c => p c = true) (firstn i s).
Proof.
  revert i. induction s as [|c s IH]; intros i Hi.
  - rewrite firstn_nil. constructor.
  - destruct i as [|i]; [constructor|]. cbn [prefix_by] in Hi.
    destruct (p c) eqn:Hc; [|simpl in Hi; lia].
    cbn [firstn]. constructor; [assumption|]. apply IH. simpl in Hi. lia.
Qed.

End Inversion.

Lemma star_greedy_fallback (p : char -> bool) (k : Re.cont) (s : text)
    (pos : nat) (caps : Re.captures) :
  k pos s caps <> None -> Re.star_greedy p k pos s caps <> None.
Proof.
  intros H. destruct s as [|c s]; cbn [Re.star_greedy]; [exact H|].
  destruct (p c); [|exact H].
  now destruct (Re.star_greedy p k (S pos) s caps).
Qed.

Lemma plus_lazy_some (p : char -> bool) (k : Re.cont) (body tail : text) :
  body <> [] ->
  Forall (fun c => p c = true) body ->
  forall pos caps,
    k (pos + length body) tail caps <> None ->
    Re.plus_lazy p k pos (body ++ tail) caps <> None.
Proof.
  intros Hne Hall. induction Hall as [|c body Hc Hall IH]; [contradiction|].
  intros pos caps Hk. cbn [app Re.plus_lazy]. rewrite Hc.
  destruct (k (S pos) (body ++ tail) caps) eqn:E; [discriminate|].
  destruct body as [|c' body].
  - cbn [app] in E. replace (pos + length [c]) with (S pos) in Hk
      by (simpl; lia). contradiction.
  - apply IH; [discriminate|].
    now replace (S pos + length (c' :: body)) with (pos + length (c :: c' :: body))
      by (simpl; lia).
Qed.


Lemma exec_seq r1 r2 k pos inp caps :
  Re.exec (Re.Seq r1 r2) k pos inp caps = Re.exec r1 (Re.exec r2 k) pos inp caps.
Proof. reflexivity. Qed.

Lemma exec_bol k inp caps : Re.exec Re.Bol k 0 inp caps = k 0 inp caps.
Proof. reflexivity. Qed.

Lemma exec_space k pos inp caps :
  Re.exec (Re.StarGreedy Re.Space) k pos inp caps =
  Re.star_greedy Str.isspace k pos inp caps.
Proof. reflexivity. Qed.

Lemma exec_lit s k pos inp caps :
  Re.exec (Re.Lit s) k pos inp caps =
  match Str.drop_prefix s inp with
  | Some rest => k (pos + length s) rest caps
  | None => None
  end.
Proof. reflexivity. Qed.

Lemma isspace_LF : Str.isspace LF = true.
Proof. reflexivity. Qed.

(** The key starts with a character that is not white space, so the white
    space before it is never given back. *)
Lemma key_guard (r : Re.regex) (k : Re.cont) n c s' cs :
  Str.isspace c = true ->
  Re.exec (Re.Seq (Re.Lit (u "version:")) r) k n (c :: s') cs = None.
Proof.
  intros Hc. rewrite exec_seq, exec_lit.
  change (u "version:") with (118%N :: u "ersion:").
  cbn [Str.drop_prefix].
  destruct (118 =? c)%N eqn:E; [|reflexivity].
  apply N.eqb_eq in E. subst c. discriminate.
Qed.

Lemma firstn_length_app {A} (a b : list A) : firstn (length a) (a ++ b) = a.
Proof.
  induction a as [|x a IH]; simpl; [now destruct b | now rewrite IH].
Qed.

Lemma is_version_line_spec (l : text) :
  is_version_line l =
  Str.startswith (Str.lstrip_by Str.isspace l) (u "version:").
Proof.
  unfold is_version_line, Re.rmatch, RE_VERSION_KEY. cbn [Re.seq].
  rewrite exec_seq, exec_bol, exec_seq, exec_space.
  rewrite star_greedy_commit by (intros; now apply key_guard).
  rewrite exec_seq, exec_lit. unfold Str.startswith.
  destruct (Str.drop_prefix (u "version:") (Str.lstrip_by Str.isspace l));
    [|reflexivity].
  rewrite exec_space.
  match goal with
  | |- is_match ?m = true =>
      assert (H : m <> None) by (apply star_greedy_total; discriminate);
      destruct m; [reflexivity | contradiction]
  end.
Qed.

(** The second pattern always matches, and its group is the indentation. *)
Lemma indent_match (l : text) :
  Re.rmatch RE_INDENT l = Some [(1, indent_of l)].
Proof.
  unfold Re.rmatch, RE_INDENT. cbn [Re.seq].
  rewrite exec_seq, exec_bol. cbn [Re.exec Re.in_cls].
  apply star_greedy_longest. unfold Re.accept. cbn [Nat.add].
  rewrite Nat.sub_0_r.
  rewrite <- (prefix_lstrip Str.isspace l) at 2.
  now rewrite firstn_length_app.
Qed.

(** A line that is not a version line for [write_config_version] is not
    one for [detect_config_version]. *)
Lemma value_no_match (l : text) :
  is_version_line l = false -> Re.rmatch RE_VERSION_VALUE l = None.
Proof.
  rewrite is_version_line_spec. unfold Str.startswith. intros H.
  unfold Re.rmatch, RE_VERSION_VALUE. cbn [Re.seq].
  rewrite exec_seq, exec_bol, exec_seq, exec_space.
  rewrite star_greedy_commit by (intros; now apply key_guard).
  rewrite exec_seq, exec_lit.
  now destruct (Str.drop_prefix (u "version:") (Str.lstrip_by Str.isspace l)).
Qed.

Lemma star_eol_fail (k : Re.cont) (s : text) :
  (exists c, In c s /\ Str.isspace c = false) ->
  forall pos caps,
    Re.star_greedy Str.isspace (Re.exec Re.Eol k) pos s caps = None.
Proof.
  induction s as [|a s IH]; intros [c [Hin Hc]] pos caps.
  - destruct Hin.
  - cbn [Re.star_greedy]. destruct (Str.isspace a) eqn:Ha.
    + assert (Hs : In c s) by (destruct Hin; [subst; congruence | assumption]).
      rewrite IH by (exists c; split; assumption).
      cbn [Re.exec]. destruct s; [destruct Hs | reflexivity].
    + cbn [Re.exec]. destruct s; [|reflexivity].
      destruct (a =? LF)%N eqn:E; [|reflexivity].
      apply N.eqb_eq in E. subst a. discriminate.
Qed.

Lemma exec_group n r k pos inp caps :
  Re.exec (Re.Group n r) k pos inp caps =
  Re.exec r
    (fun pos' rest caps' => k pos' rest ((n, firstn (pos' - pos) inp) :: caps'))
    pos inp caps.
Proof. reflexivity. Qed.

Lemma exec_dots k pos inp caps :
  Re.exec (Re.PlusLazy Re.AnyButNewline) k pos inp caps =
  Re.plus_lazy (fun c => negb (c =? LF)%N) k pos inp caps.
Proof. reflexivity. Qed.

Lemma last_app_nonempty {A} (a b : list A) (d : A) :
  b <> [] -> last (a ++ b) d = last b d.
Proof.
  intros Hb. induction a as [|x a IH]; [reflexivity|].
  simpl. rewrite IH. destruct (a ++ b) eqn:E; [|reflexivity].
  apply app_eq_nil in E. destruct E. contradiction.
Qed.

Lemma last_in {A} (l : list A) (d : A) : l <> [] -> In (last l d) l.
Proof.
  induction l as [|x l IH]; [contradiction|]. intros _.
  destruct l as [|y l]; [now left|].
  right. apply IH. discriminate.
Qed.

(** The value that the first pattern finds in a line that
    [write_config_version] has written. *)
Lemma value_match_written (indent v : text) :
  Forall (fun c => Str.isspace c = true) indent ->
  plain_version v = true ->
  Re.rmatch RE_VERSION_VALUE (version_line indent v) =
  Some [(1, match v with [] => [32%N] | _ => v end)].
Proof.
  intros Hind Hv. unfold Re.rmatch, RE_VERSION_VALUE. cbn [Re.seq].
  rewrite exec_seq, exec_bol, exec_seq, exec_space.
  rewrite star_greedy_commit by (intros; now apply key_guard).
  unfold version_line.
  destruct (prefix_by_app Str.isspace indent (u "version: " ++ v ++ [LF]) Hind)
    as [_ ->]; [reflexivity|].
  rewrite exec_seq, exec_lit.
  change (Str.drop_prefix (u "version:") (u "version: " ++ v ++ [LF]))
    with (Some (32%N :: v ++ [LF])).
  cbv beta iota.
  set (pos := 0 + length (prefix_by Str.isspace
                            (indent ++ u "version: " ++ v ++ [LF]))
              + length (u "version:")).
  clearbody pos. rewrite exec_seq, exec_space.
  apply andb_prop in Hv. destruct Hv as [Hnl Hedge].
  destruct v as [|c v].
  - cbn -[Nat.sub]. replace (S pos - pos) with 1 by lia. reflexivity.
  - apply andb_prop in Hedge. destruct Hedge as [Hc Hlast].
    assert (Hsp : forall x, keeps x = true -> Str.isspace x = false).
    { intros x Hx. unfold keeps in Hx. apply negb_true_iff in Hx.
      apply orb_false_iff in Hx. destruct Hx as [Hx _].
      apply orb_false_iff in Hx. now destruct Hx. }
    apply star_greedy_longest.
    cbn [app prefix_by Str.lstrip_by]. change (Str.isspace 32%N) with true.
    cbn iota. rewrite (Hsp c Hc). cbn [length].
    rewrite exec_seq, exec_group, exec_dots.
    change (c :: v ++ [LF]) with ((c :: v) ++ [LF]).
    rewrite plus_lazy_first.
    + rewrite exec_seq, exec_space. cbn [Re.star_greedy].
      rewrite isspace_LF. cbn [Re.star_greedy Re.exec]. unfold Re.accept.
      replace (pos + 1 + length (c :: v) - (pos + 1)) with (length (c :: v))
        by lia.
      now rewrite firstn_length_app.
    + discriminate.
    + apply Forall_forall. intros x Hx.
      rewrite forallb_forall in Hnl. specialize (Hnl x Hx).
      unfold is_newline in Hnl. apply negb_true_iff in Hnl.
      apply orb_false_iff in Hnl. destruct Hnl as [Hnl _].
      now rewrite Hnl.
    + intros b1 b2 E Hb1 Hb2. cbv beta. rewrite exec_seq, exec_space.
      apply star_eol_fail. exists (last (c :: v) c). split.
      * rewrite E. rewrite last_app_nonempty by assumption.
        apply in_or_app. left. now apply last_in.
      * now apply Hsp.
Qed.

Lemma star_eol_inv (s : text) :
  forall pos caps r,
    Re.star_greedy Str.isspace (Re.exec Re.Eol Re.accept) pos s caps = Some r ->
    r = caps /\ Forall (fun c => Str.isspace c = true) s.
Proof.
  induction s as [|c s IH]; intros pos caps r; cbn [Re.star_greedy].
  - cbn. intros H. inversion H. split; [reflexivity | constructor].
  - destruct (Str.isspace c) eqn:Hc.
    + destruct (Re.star_greedy Str.isspace (Re.exec Re.Eol Re.accept)
                  (S pos) s caps) as [r'|] eqn:E.
      * intros H. inversion H. subst r'. destruct (IH _ _ _ E) as [-> Hs].
        split; [reflexivity | now constructor].
      * cbn [Re.exec]. destruct s; [|discriminate].
        destruct (c =? LF)%N; [|discriminate].
        intros H. inversion H. split; [reflexivity | now constructor].
    + cbn [Re.exec]. destruct s; [|discriminate].
      destruct (c =? LF)%N eqn:E; [|discriminate].
      apply N.eqb_eq in E. subst c. discriminate.
Qed.

Lemma drop_prefix_app (a s rest : text) :
  Str.drop_prefix a s = Some rest -> s = a ++ rest.
Proof.
  revert s. induction a as [|x a IH]; intros s; cbn [Str.drop_prefix].
  - intros H. now inversion H.
  - destruct s as [|y s]; [discriminate|].
    destruct (x =? y)%N eqn:E; [|discriminate].
    apply N.eqb_eq in E. subst y. intros H. cbn [app]. now rewrite (IH _ H).
Qed.

(** What a match of the first pattern is made of. *)
Lemma value_match_inv (l : text) (m : Re.captures) :
  Re.rmatch RE_VERSION_VALUE l = Some m ->
  exists ws body tail,
    Str.lstrip_by Str.isspace l = u "version:" ++ ws ++ body ++ tail
    /\ Forall (fun c => Str.isspace c = true) ws
    /\ Forall (fun c => Str.isspace c = true) tail
    /\ body <> []
    /\ ~ In LF body
    /\ m = [(1, body)].
Proof.
  unfold Re.rmatch, RE_VERSION_VALUE. cbn [Re.seq].
  rewrite exec_seq, exec_bol, exec_seq, exec_space.
  rewrite star_greedy_commit by (intros; now apply key_guard).
  rewrite exec_seq, exec_lit.
  destruct (Str.drop_prefix (u "version:") (Str.lstrip_by Str.isspace l))
    as [rest|] eqn:Ed; [|discriminate].
  rewrite exec_seq, exec_space. intros H.
  apply star_greedy_inv in H. destruct H as [i [Hi H]].
  rewrite exec_seq, exec_group, exec_dots in H.
  apply plus_lazy_inv in H.
  destruct H as [body [tail [Es [Hne [Hall H]]]]].
  rewrite exec_seq, exec_space in H. apply star_eol_inv in H.
  destruct H as [-> Htail].
  exists (firstn i rest), body, tail.
  apply drop_prefix_app in Ed. rewrite Ed.
  repeat split; try assumption.
  - rewrite <- Es, firstn_skipn. reflexivity.
  - now apply prefix_by_firstn.
  - intros Hin. rewrite Forall_forall in Hall. specialize (Hall _ Hin).
    discriminate.
  - match goal with
    | |- context [firstn (?a + length body - ?a)] =>
        replace (a + length body - a) with (length body) by lia
    end.
    rewrite Es. now rewrite firstn_length_app.
Qed.

(** The first pattern matches every line that [write_config_version]
    writes for a version without a line feed. *)
Lemma value_match_written_some (indent v : text) :
  Forall (fun c => Str.isspace c = true) indent ->
  ~ In LF v ->
  Re.rmatch RE_VERSION_VALUE (version_line indent v) <> None.
Proof.
  intros Hind Hv. unfold Re.rmatch, RE_VERSION_VALUE. cbn [Re.seq].
  rewrite exec_seq, exec_bol, exec_seq, exec_space.
  rewrite star_greedy_commit by (intros; now apply key_guard).
  unfold version_line.
  destruct (prefix_by_app Str.isspace indent (u "version: " ++ v ++ [LF]) Hind)
    as [_ ->]; [reflexivity|].
  rewrite exec_seq, exec_lit.
  change (Str.drop_prefix (u "version:") (u "version: " ++ v ++ [LF]))
    with (Some (32%N :: v ++ [LF])).
  cbv beta iota. rewrite exec_seq, exec_space.
  apply star_greedy_fallback.
  rewrite exec_seq, exec_group, exec_dots.
  change (32%N :: v ++ [LF]) with ((32%N :: v) ++ [LF]).
  apply plus_lazy_some; [discriminate | |].
  - constructor; [reflexivity|]. apply Forall_forall. intros c Hc.
    destruct (c =? LF)%N eqn:E; [|reflexivity].
    apply N.eqb_eq in E. subst c. contradiction.
  - rewrite exec_seq, exec_space. cbn [Re.star_greedy].
    rewrite isspace_LF. cbn. discriminate.
Qed.

(** ** Stripping *)

Lemma strip_by_id (p : char -> bool) (v : text) :
  match v with
  | [] => True
  | c :: _ => p c = false /\ p (last v c) = false
  end ->
  Str.strip_by p v = v.
Proof.
  destruct v as [|c v]; [reflexivity|]. intros [Hc Hl].
  unfold Str.strip_by, Str.rstrip_by. cbn [Str.lstrip_by]. rewrite Hc.
  assert (Hne : c :: v <> []) by discriminate.
  destruct (exists_last Hne) as [b [x E]]. rewrite E in *.
  rewrite last_last in Hl. rewrite rev_app_distr. cbn [rev app Str.lstrip_by].
  rewrite Hl. cbn [rev]. now rewrite rev_involutive.
Qed.

Lemma keeps_spec (c : char) :
  keeps c = true ->
  Str.isspace c = false /\ Str.mem [DQUOTE] c = false
  /\ Str.mem [SQUOTE] c = false.
Proof.
  unfold keeps, Str.mem. cbn [existsb]. intros H.
  apply negb_true_iff in H. apply orb_false_iff in H. destruct H as [H H3].
  apply orb_false_iff in H. destruct H as [H1 H2].
  rewrite H1, H2, H3. repeat split; reflexivity.
Qed.

(** What [detect_config_version] makes of the group of a written line. *)
Lemma unquoted_written (v : text) :
  plain_version v = true ->
  unquoted (match v with [] => [32%N] | _ => v end) = v.
Proof.
  intros Hv. destruct v as [|c v]; [reflexivity|]. unfold unquoted.
  apply andb_prop in Hv. destruct Hv as [_ Hv].
  apply andb_prop in Hv. destruct Hv as [Hc Hl].
  apply keeps_spec in Hc. apply keeps_spec in Hl.
  destruct Hc as [Hc1 [Hc2 Hc3]]. destruct Hl as [Hl1 [Hl2 Hl3]].
  unfold Str.strip, Str.strip_chars.
  rewrite (strip_by_id Str.isspace) by (cbv iota; split; assumption).
  rewrite (strip_by_id (Str.mem [DQUOTE])) by (cbv iota; split; assumption).
  now rewrite (strip_by_id (Str.mem [SQUOTE])) by (cbv iota; split; assumption).
Qed.

Section Strip.

Variable p : char -> bool.

Lemma lstrip_by_head (s : text) :
  match Str.lstrip_by p s with
  | c :: _ => p c = false
  | [] => True
  end.
Proof.
  induction s as [|c s IH]; [exact I|]. cbn [Str.lstrip_by].
  destruct (p c) eqn:Hc; [exact IH | exact Hc].
Qed.


Lemma rstrip_by_tail (s : text) :
  s = Str.rstrip_by p s ++ rev (prefix_by p (rev s)).
Proof.
  unfold Str.rstrip_by. rewrite <- rev_app_distr, prefix_lstrip.
  now rewrite rev_involutive.
Qed.

(** A stripped text lies inside the text. *)
Lemma strip_by_inside (s : text) :
  exists a b, s = a ++ Str.strip_by p s ++ b.
Proof.
  unfold Str.strip_by. exists (prefix_by p s).
  exists (rev (prefix_by p (rev (Str.lstrip_by p s)))).
  rewrite <- rstrip_by_tail. now rewrite prefix_lstrip.
Qed.

Lemma strip_by_same_length (s : text) :
  length (Str.strip_by p s) = length s -> Str.strip_by p s = s.
Proof.
  destruct (strip_by_inside s) as [a [b E]]. intros H.
  rewrite E in H at 2. rewrite !length_app in H.
  assert (a = []) by (destruct a; [reflexivity | simpl in H; lia]).
  assert (b = []) by (destruct b; [reflexivity | simpl in H; lia]).
  subst a b. cbn [app] in E. now rewrite app_nil_r in E.
Qed.

Lemma strip_by_fixed_ends (s : text) :
  Str.strip_by p s = s ->
  match s with
  | [] => True
  | c :: _ => p c = false /\ p (last s c) = false
  end.
Proof.
  intros H. destruct s as [|c s]; [exact I|].
  assert (Hl : Str.lstrip_by p (c :: s) = c :: s).
  { pose proof (prefix_lstrip p (c :: s)) as E.
    pose proof (rstrip_by_tail (Str.lstrip_by p (c :: s))) as E2.
    unfold Str.strip_by in H. rewrite H in E2.
    assert (Hlen : length (Str.lstrip_by p (c :: s)) >= length (c :: s)).
    { rewrite E2 at 1. rewrite length_app. lia. }
    rewrite <- E in Hlen at 2. rewrite length_app in Hlen.
    destruct (prefix_by p (c :: s)); [exact E | simpl in Hlen; lia]. }
  split.
  - pose proof (lstrip_by_head (c :: s)) as Hh. now rewrite Hl in Hh.
  - unfold Str.strip_by in H. rewrite Hl in H. unfold Str.rstrip_by in H.
    assert (Hr : Str.lstrip_by p (rev (c :: s)) = rev (c :: s)).
    { rewrite <- H at 2. now rewrite rev_involutive. }
    pose proof (lstrip_by_head (rev (c :: s))) as Hh. rewrite Hr in Hh.
    assert (Hne : c :: s <> []) by discriminate.
    destruct (exists_last Hne) as [b [x E]]. rewrite E in *.
    rewrite last_last. rewrite rev_app_distr in Hh. exact Hh.
Qed.

End Strip.

Lemma unquoted_inside (g : text) : exists a b, g = a ++ unquoted g ++ b.
Proof.
  unfold unquoted, Str.strip, Str.strip_chars.
  destruct (strip_by_inside Str.isspace g) as [a1 [b1 E1]].
  destruct (strip_by_inside (Str.mem [DQUOTE]) (Str.strip_by Str.isspace g))
    as [a2 [b2 E2]].
  destruct (strip_by_inside (Str.mem [SQUOTE])
              (Str.strip_by (Str.mem [DQUOTE]) (Str.strip_by Str.isspace g)))
    as [a3 [b3 E3]].
  exists (a1 ++ a2 ++ a3), (b3 ++ b2 ++ b1).
  rewrite E1 at 1. rewrite E2 at 1. rewrite E3 at 1.
  now rewrite <- !app_assoc.
Qed.

Lemma unquoted_length (g : text) : length (unquoted g) <= length g.
Proof.
  destruct (unquoted_inside g) as [a [b E]]. rewrite E at 2.
  rewrite !length_app. lia.
Qed.

Lemma unquoted_space (v : text) : unquoted (32%N :: v) = unquoted v.
Proof. reflexivity. Qed.

Lemma strip_by_length (p : char -> bool) (s : text) :
  length (Str.strip_by p s) <= length s.
Proof.
  destruct (strip_by_inside p s) as [a [b E]]. rewrite E at 2.
  rewrite !length_app. lia.
Qed.

Lemma unquoted_fixed (v : text) :
  unquoted v = v ->
  match v with
  | [] => True
  | c :: _ => keeps c = true /\ keeps (last v c) = true
  end.
Proof.
  intros H.
  pose proof (strip_by_length Str.isspace v) as L1.
  pose proof (strip_by_length (Str.mem [DQUOTE]) (Str.strip v)) as L2.
  pose proof (strip_by_length (Str.mem [SQUOTE])
                (Str.strip_chars [DQUOTE] (Str.strip v))) as L3.
  assert (L : length (unquoted v) = length v) by now rewrite H.
  unfold unquoted, Str.strip, Str.strip_chars in *.
  assert (H1 : Str.strip_by Str.isspace v = v)
    by (apply strip_by_same_length; lia).
  rewrite H1 in H, L2, L3, L.
  assert (H2 : Str.strip_by (Str.mem [DQUOTE]) v = v)
    by (apply strip_by_same_length; lia).
  rewrite H2 in H.
  apply strip_by_fixed_ends in H1, H2, H.
  destruct v as [|c v]; [exact I|].
  destruct H1 as [A1 B1], H2 as [A2 B2], H as [A3 B3].
  unfold keeps. unfold Str.mem in *. cbn [existsb] in *.
  rewrite orb_false_r in A2, B2, A3, B3.
  now rewrite A1, A2, A3, B1, B2, B3.
Qed.


(** A version that is read back from the line written for it is plain. *)
Lemma written_value_exact (indent v : text) (m : Re.captures) :
  Forall (fun c => Str.isspace c = true) indent ->
  ~ In LF v ->
  Re.rmatch RE_VERSION_VALUE (version_line indent v) = Some m ->
  unquoted (Re.group 1 m) = v ->
  unquoted v = v.
Proof.
  intros Hind Hv Hm Hn. apply value_match_inv in Hm.
  destruct Hm as [ws [body [tail [E [Hws [Htail [Hne [Hbody ->]]]]]]]].
  cbn [Re.group find fst snd Nat.eqb] in Hn.
  unfold version_line in E.
  destruct (prefix_by_app Str.isspace indent (u "version: " ++ v ++ [LF]) Hind)
    as [_ E']; [reflexivity|].
  rewrite E' in E. clear E'.
  change (u "version: " ++ v ++ [LF])
    with (u "version:" ++ (32%N :: v) ++ [LF]) in E.
  apply app_inv_head in E.
  destruct tail as [|t0 tail] using rev_ind.
  - rewrite app_nil_r in E.
    destruct body as [|b0 body] using rev_ind; [contradiction|].
    rewrite app_assoc in E. apply app_inj_tail in E. destruct E as [_ E].
    subst b0. exfalso. apply Hbody. apply in_or_app. right. now left.
  - clear IHtail. rewrite !app_assoc in E. apply app_inj_tail in E.
    destruct E as [E _]. rewrite <- app_assoc in E.
    pose proof (unquoted_length body) as Hlen. rewrite Hn in Hlen.
    assert (Hl : S (length v) = length ws + length body + length tail).
    { change (S (length v)) with (length (32%N :: v)). rewrite E.
      rewrite !length_app. lia. }
    destruct ws as [|w0 ws].
    + cbn [app] in E. destruct body as [|b0 body]; [contradiction|].
      cbn [app] in E. inversion E. subst b0.
      rewrite unquoted_space in Hn.
      pose proof (unquoted_length body) as Hlen'. rewrite Hn in Hlen'.
      simpl in Hl. destruct tail; [|simpl in Hl; lia].
      rewrite app_nil_r in *. congruence.
    + cbn [app] in E. inversion E. simpl in Hl.
      destruct ws; [|simpl in Hl; lia]. destruct tail; [|simpl in Hl; lia].
      cbn [app] in *. rewrite app_nil_r in *. congruence.
Qed.

(** What is read as a version holds no line feed, and is made of
    characters of one of the lines. *)
Lemma scan_version_chars (lines : list text) (c : char) :
  In c (scan_version lines) ->
  c <> LF /\ exists l, In l lines /\ In c l.
Proof.
  induction lines as [|l lines IH]; cbn [scan_version]; [intros []|].
  destruct (Re.rmatch RE_VERSION_VALUE l) as [m|] eqn:Hm.
  - apply value_match_inv in Hm.
    destruct Hm as [ws [body [tail [E [_ [_ [_ [Hbody ->]]]]]]]].
    cbn [Re.group find fst snd Nat.eqb]. fold (unquoted body). intros Hc.
    assert (Hin : In c body).
    { destruct (unquoted_inside body) as [a [b Eb]]. rewrite Eb.
      apply in_or_app. right. apply in_or_app. now left. }
    split; [intros ->; contradiction|].
    exists l. split; [now left|].
    rewrite <- (prefix_lstrip Str.isspace l), E.
    apply in_or_app. right. apply in_or_app. right.
    apply in_or_app. right. apply in_or_app. now left.
  - intros Hc. destruct (IH Hc) as [Hlf [l' [Hl' Hin]]].
    split; [assumption|]. exists l'. split; [now right | assumption].
Qed.

Lemma scan_version_skip (pre rest : list text) :
  Forall (fun l => is_version_line l = false) pre ->
  scan_version (pre ++ rest) = scan_version rest.
Proof.
  induction 1 as [|l pre Hl _ IH]; [reflexivity|].
  cbn [app scan_version]. now rewrite (value_no_match _ Hl).
Qed.

Lemma scan_version_written (pre post : list text) (indent v : text) :
  Forall (fun l => is_version_line l = false) pre ->
  Forall (fun c => Str.isspace c = true) indent ->
  plain_version v = true ->
  scan_version (pre ++ version_line indent v :: post) = v.
Proof.
  intros Hpre Hind Hv. rewrite scan_version_skip by assumption.
  cbn [scan_version]. rewrite value_match_written by assumption.
  cbn [Re.group find fst snd Nat.eqb]. now apply unquoted_written.
Qed.

(** ** The loop of [write_config_version] *)

Lemma rewrite_lines_replaced (v : text) (lines acc : list text) :
  rewrite_lines v lines acc true = Ok (acc ++ lines, true).
Proof.
  revert acc. induction lines as [|l lines IH]; intros acc; cbn [rewrite_lines].
  - now rewrite app_nil_r.
  - rewrite andb_false_r, IH, <- app_assoc. reflexivity.
Qed.

Lemma rewrite_lines_none (v : text) (lines acc : list text) :
  Forall (fun l => is_version_line l = false) lines ->
  rewrite_lines v lines acc false = Ok (acc ++ lines, false).
Proof.
  intros H. revert acc.
  induction H as [|l lines Hl _ IH]; intros acc; cbn [rewrite_lines].
  - now rewrite app_nil_r.
  - unfold is_version_line in Hl. rewrite Hl. cbn [andb].
    rewrite IH, <- app_assoc. reflexivity.
Qed.

Lemma rewrite_lines_first (v : text) (pre post : list text) (l : text)
    (acc : list text) :
  Forall (fun l => is_version_line l = false) pre ->
  is_version_line l = true ->
  rewrite_lines v (pre ++ l :: post) acc false =
  Ok (acc ++ pre ++ version_line (indent_of l) v :: post, true).
Proof.
  intros H Hl. revert acc.
  induction H as [|l0 pre Hl0 _ IH]; intros acc; cbn [app rewrite_lines].
  - unfold is_version_line in Hl. rewrite Hl. cbn [andb negb].
    rewrite indent_match. cbn [Re.group find fst snd Nat.eqb].
    rewrite rewrite_lines_replaced, <- app_assoc. reflexivity.
  - unfold is_version_line in Hl0. rewrite Hl0. cbn [andb].
    rewrite IH, <- app_assoc. reflexivity.
Qed.

(** The first version line of a document that has one. *)
Lemma first_version_line (lines : list text) :
  existsb is_version_line lines = true ->
  exists pre l post,
    lines = pre ++ l :: post
    /\ Forall (fun l => is_version_line l = false) pre
    /\ is_version_line l = true.
Proof.
  induction lines as [|l lines IH]; [discriminate|].
  cbn [existsb]. destruct (is_version_line l) eqn:Hl.
  - intros _. exists [], l, lines. repeat split; [constructor | assumption].
  - cbn [orb]. intros H. destruct (IH H) as [pre [l' [post [E [Hpre Hl']]]]].
    exists (l :: pre), l', post. subst lines.
    repeat split; [constructor; assumption | assumption].
Qed.

Lemma no_version_line (lines : list text) :
  existsb is_version_line lines = false ->
  Forall (fun l => is_version_line l = false) lines.
Proof.
  induction lines as [|l lines IH]; [constructor|].
  cbn [existsb]. intros H. apply orb_false_iff in H. destruct H as [H1 H2].
  constructor; [assumption | now apply IH].
Qed.

(** ** Lines of a text file *)

Lemma universal_newlines_id (s : text) :
  ~ In CR s -> universal_newlines s = s.
Proof.
  induction s as [|c s IH]; [reflexivity|]. intros H.
  cbn [universal_newlines]. destruct (c =? CR)%N eqn:E.
  - apply N.eqb_eq in E. subst c. exfalso. apply H. now left.
  - rewrite IH; [reflexivity|]. intros Hin. apply H. now right.
Qed.

Lemma universal_newlines_no_cr (s : text) :
  ~ In CR (universal_newlines s).
Proof.
  assert (H : forall n s, length s <= n -> ~ In CR (universal_newlines s)).
  { clear s. induction n as [|n IH]; intros s Hn.
    - destruct s; [intros [] | simpl in Hn; lia].
    - destruct s as [|c s]; [intros []|]. cbn [universal_newlines].
      simpl in Hn. destruct (c =? CR)%N eqn:E.
      + intros [H|H]; [discriminate|]. revert H.
        destruct s as [|c' s]; [intros []|].
        destruct (c' =? LF)%N; apply IH; simpl in *; lia.
      + intros [H|H].
        * subst c. discriminate.
        * revert H. apply IH. lia. }
  now apply (H (length s)).
Qed.

Lemma concat_split_lines (s : text) : concat (split_lines s) = s.
Proof.
  induction s as [|c s IH]; [reflexivity|]. cbn [split_lines].
  destruct (c =? LF)%N.
  - cbn [concat app]. now rewrite IH.
  - destruct (split_lines s) as [|l ls]; cbn [concat app] in *.
    + now rewrite <- IH.
    + now rewrite <- IH.
Qed.

Lemma split_lines_nonempty (c : char) (s : text) : split_lines (c :: s) <> [].
Proof.
  cbn [split_lines]. destruct (c =? LF)%N; [discriminate|].
  destruct (split_lines s); discriminate.
Qed.

Lemma split_lines_terminated (b s : text) :
  ~ In LF b -> split_lines (b ++ LF :: s) = (b ++ [LF]) :: split_lines s.
Proof.
  induction b as [|c b IH]; intros H; [reflexivity|].
  cbn [app split_lines]. destruct (c =? LF)%N eqn:E.
  - apply N.eqb_eq in E. subst c. exfalso. apply H. now left.
  - rewrite IH; [reflexivity|]. intros Hin. apply H. now right.
Qed.

Lemma split_lines_unterminated (b : text) :
  b <> [] -> ~ In LF b -> split_lines b = [b].
Proof.
  induction b as [|c b IH]; [contradiction|]. intros _ H.
  cbn [split_lines]. destruct (c =? LF)%N eqn:E.
  - apply N.eqb_eq in E. subst c. exfalso. apply H. now left.
  - destruct b as [|c' b]; [reflexivity|].
    rewrite IH; [reflexivity | discriminate |].
    intros Hin. apply H. now right.
Qed.

Lemma split_lines_concat (ls : list text) :
  well_formed ls -> split_lines (concat ls) = ls.
Proof.
  induction ls as [|l ls IH]; [reflexivity|]. intros H.
  destruct ls as [|l' ls].
  - cbn [concat]. rewrite app_nil_r. destruct H as [[b [E Hb]]|[Hne Hl]].
    + subst l. now rewrite split_lines_terminated.
    + now apply split_lines_unterminated.
  - destruct H as [[b [E Hb]] H]. subst l.
    change (concat ((b ++ [LF]) :: l' :: ls))
      with ((b ++ [LF]) ++ concat (l' :: ls)).
    rewrite <- app_assoc. cbn [app].
    rewrite split_lines_terminated by assumption. now rewrite IH.
Qed.

Lemma well_formed_cons (l : text) (ls : list text) :
  terminated l -> well_formed ls -> well_formed (l :: ls).
Proof.
  intros Hl Hls. destruct ls; [now left | now split].
Qed.

Lemma forall_terminated_well_formed (ls : list text) :
  Forall terminated ls -> well_formed ls.
Proof.
  induction 1 as [|l ls Hl _ IH]; [exact I|]. now apply well_formed_cons.
Qed.

Lemma well_formed_split_lines (s : text) : well_formed (split_lines s).
Proof.
  induction s as [|c s IH]; [exact I|]. cbn [split_lines].
  destruct (c =? LF)%N eqn:E.
  - apply N.eqb_eq in E. subst c. apply well_formed_cons; [|assumption].
    exists []. split; [reflexivity | intros []].
  - assert (Hc : c <> LF) by (now apply N.eqb_neq).
    destruct (split_lines s) as [|l ls].
    + right. split; [discriminate|]. intros [H|[]]. now subst c.
    + destruct ls as [|l' ls].
      * destruct IH as [[b [E' Hb]]|[Hne Hl]].
        -- left. exists (c :: b). subst l. split; [reflexivity|].
           intros [H|H]; [now subst c | contradiction].
        -- right. split; [discriminate|].
           intros [H|H]; [now subst c | contradiction].
      * destruct IH as [[b [E' Hb]] IH]. split; [|assumption].
        exists (c :: b). subst l. split; [reflexivity|].
        intros [H|H]; [now subst c | contradiction].
Qed.

Lemma well_formed_app_inv (pre : list text) (l : text) (post : list text) :
  well_formed (pre ++ l :: post) ->
  Forall terminated pre /\ (terminated l \/ unterminated l) /\ well_formed post.
Proof.
  induction pre as [|x pre IH]; cbn [app]; intros H.
  - destruct post as [|y post].
    + repeat split; [constructor | assumption].
    + destruct H as [H1 H2]. repeat split; [constructor | now left | assumption].
  - destruct (pre ++ l :: post) eqn:E.
    + destruct pre; discriminate.
    + destruct H as [H1 H2]. destruct (IH H2) as [Hp [Hl Hpost]].
      repeat split; [constructor; assumption | assumption | assumption].
Qed.

Lemma well_formed_replace (pre : list text) (l : text) (post : list text) :
  Forall terminated pre -> terminated l -> well_formed post ->
  well_formed (pre ++ l :: post).
Proof.
  intros Hpre Hl Hpost. induction Hpre as [|x pre Hx _ IH]; cbn [app].
  - now apply well_formed_cons.
  - now apply well_formed_cons.
Qed.

(** The lines of a file and the file are the same thing. *)
Lemma lines_of_concat (ls : list text) :
  well_formed ls -> ~ In CR (concat ls) -> lines_of (concat ls) = ls.
Proof.
  intros Hwf Hcr. unfold lines_of.
  rewrite universal_newlines_id by assumption.
  now apply split_lines_concat.
Qed.

(** A file without a carriage return is the text of its lines. *)
Lemma concat_lines_of (raw : text) :
  ~ In CR raw -> concat (lines_of raw) = raw.
Proof.
  intros H. unfold lines_of. rewrite concat_split_lines.
  now apply universal_newlines_id.
Qed.

Lemma lines_of_well_formed (raw : text) : well_formed (lines_of raw).
Proof. apply well_formed_split_lines. Qed.

Lemma lines_of_no_cr (raw : text) : ~ In CR (concat (lines_of raw)).
Proof.
  unfold lines_of. rewrite concat_split_lines.
  apply universal_newlines_no_cr.
Qed.

(** ** [write_config_version] and [detect_config_version] on a file *)

Lemma rewrite_lines_ok (v : text) (lines acc : list text) (replaced : bool) :
  exists r, rewrite_lines v lines acc replaced = Ok r.
Proof.
  revert acc replaced.
  induction lines as [|l lines IH]; intros acc replaced; cbn [rewrite_lines].
  - now eexists.
  - destruct (is_match (Re.rmatch RE_VERSION_KEY l) && negb replaced).
    + rewrite indent_match. apply IH.
    + apply IH.
Qed.

(** *** Texts that UTF-8 encodes *)

Lemma find_surrogate_utf8 (s : text) (pos : N) :
  utf8 s = true -> find_surrogate pos s = None.
Proof.
  revert pos. induction s as [|c s IH]; intros pos; [reflexivity|].
  cbn [utf8 forallb find_surrogate]. intros H. apply andb_prop in H.
  destruct H as [Hc Hs]. destruct (is_surrogate c); [discriminate|].
  now apply IH.
Qed.

Lemma find_surrogate_some (s : text) (pos : N) :
  utf8 s = false -> exists r, find_surrogate pos s = Some r.
Proof.
  revert pos. induction s as [|c s IH]; intros pos; [discriminate|].
  cbn [utf8 forallb find_surrogate]. destruct (is_surrogate c).
  - intros _. now eexists.
  - cbn [negb andb]. apply IH.
Qed.

Lemma encode_error_class (s : text) :
  exn_cls (encode_error s) = UnicodeEncodeError.
Proof.
  unfold encode_error. now destruct (find_surrogate 0 s) as [[[i c] j]|].
Qed.

Lemma utf8_app (a b : text) : utf8 (a ++ b) = utf8 a && utf8 b.
Proof. apply forallb_app. Qed.

Lemma utf8_in (s : text) :
  utf8 s = true <-> forall c, In c s -> is_surrogate c = false.
Proof.
  unfold utf8. rewrite forallb_forall. split; intros H c Hc.
  - apply negb_true_iff. now apply H.
  - apply negb_true_iff. now apply H.
Qed.

Lemma utf8_concat (ls : list text) :
  utf8 (concat ls) = forallb utf8 ls.
Proof.
  induction ls as [|l ls IH]; [reflexivity|].
  cbn [concat forallb]. now rewrite utf8_app, IH.
Qed.

Lemma utf8_literal (s : string) : utf8 (u s) = true.
Proof.
  apply utf8_in. intros c Hc. unfold u in Hc. apply in_map_iff in Hc.
  destruct Hc as [a [<- _]]. pose proof (N_ascii_bounded a) as Hb.
  unfold is_surrogate. apply andb_false_iff. left. apply N.leb_gt. lia.
Qed.

Lemma in_universal_newlines (s : text) (c : char) :
  In c (universal_newlines s) -> c = LF \/ In c s.
Proof.
  assert (H : forall n s, length s <= n ->
                In c (universal_newlines s) -> c = LF \/ In c s).
  { clear s. induction n as [|n IH]; intros s Hn.
    - destruct s; [intros [] | simpl in Hn; lia].
    - destruct s as [|x s]; [intros []|]. cbn [universal_newlines].
      simpl in Hn. destruct (x =? CR)%N.
      + intros [H|H]; [now left|]. destruct s as [|y s]; [destruct H|].
        destruct (y =? LF)%N.
        * destruct (IH s) as [E|E]; [simpl in *; lia | exact H | now left |].
          right. right. now right.
        * destruct (IH (y :: s)) as [E|E];
            [simpl in *; lia | exact H | now left |].
          right. now right.
      + intros [H|H]; [right; now left|].
        destruct (IH s) as [E|E]; [lia | exact H | now left |].
        right. now right. }
  now apply (H (length s)).
Qed.

(** The lines of a text that UTF-8 encodes are encoded as well. *)
Lemma utf8_lines_of (raw : text) :
  utf8 raw = true -> forallb utf8 (lines_of raw) = true.
Proof.
  intros H. rewrite <- utf8_concat. unfold lines_of.
  rewrite concat_split_lines. apply utf8_in. intros c Hc.
  apply in_universal_newlines in Hc. destruct Hc as [->|Hc]; [reflexivity|].
  revert c Hc. now apply utf8_in.
Qed.

Lemma first_unencodable_none (lines : list text) :
  forallb utf8 lines = true -> first_unencodable lines = None.
Proof.
  induction lines as [|l lines IH]; [reflexivity|].
  cbn [forallb first_unencodable]. intros H. apply andb_prop in H.
  destruct H as [-> H]. now apply IH.
Qed.

Lemma first_unencodable_some (lines : list text) (bad : text) :
  first_unencodable lines = Some bad -> utf8 bad = false.
Proof.
  induction lines as [|l lines IH]; [discriminate|].
  cbn [first_unencodable]. destruct (utf8 l) eqn:E; [exact IH|].
  intros H. inversion H. now subst bad.
Qed.

(** The lines before the first that UTF-8 does not encode. *)
Lemma encodable_prefix_spec (lines : list text) :
  match first_unencodable lines with
  | None => encodable_prefix lines = lines
  | Some bad =>
      exists rest, lines = encodable_prefix lines ++ bad :: rest
  end.
Proof.
  induction lines as [|l lines IH]; [reflexivity|].
  cbn [first_unencodable encodable_prefix]. destruct (utf8 l).
  - destruct (first_unencodable lines) as [bad|].
    + destruct IH as [rest E]. exists rest. cbn [app]. now rewrite <- E.
    + now rewrite IH.
  - now exists lines.
Qed.

(** *** Reading and writing a file *)

Lemma set_file_same (p : path) (w : world) : set_file p (file_at p w) w = w.
Proof. now destruct w, p. Qed.

Lemma write_utf8 (p : path) (s old : text) (w : world) :
  file_at p w = Regular old -> utf8 s = true ->
  write p s w = (set_file p (Regular (old ++ s)) w, Ok tt).
Proof.
  intros Hw Hs. unfold write. now rewrite Hw, (find_surrogate_utf8 s 0 Hs).
Qed.

Lemma write_surrogate (p : path) (s old : text) (w : world) :
  file_at p w = Regular old -> utf8 s = false ->
  write p s w = (w, Raise (encode_error s)).
Proof.
  intros Hw Hs. unfold write, encode_error. rewrite Hw.
  destruct (find_surrogate_some s 0 Hs) as [[[i c] j] ->]. reflexivity.
Qed.

Lemma file_at_set_file (p : path) (n : node) (w : world) :
  file_at p (set_file p n w) = n.
Proof. now destruct p. Qed.

Lemma set_file_twice (p : path) (n n' : node) (w : world) :
  set_file p n' (set_file p n w) = set_file p n' w.
Proof. now destruct p. Qed.

(** [writelines] in one step. *)
Lemma writelines_eval (p : path) (lines : list text) (old : text)
    (w : world) :
  file_at p w = Regular old ->
  writelines p lines w =
  match first_unencodable lines with
  | None => (set_file p (Regular (old ++ concat lines)) w, Ok tt)
  | Some bad =>
      (set_file p (Regular (old ++ concat (encodable_prefix lines))) w,
       Raise (encode_error bad))
  end.
Proof.
  revert old w. induction lines as [|l lines IH]; intros old w Hw.
  - cbn [writelines first_unencodable concat ret]. rewrite app_nil_r.
    now rewrite <- Hw, set_file_same.
  - cbn [writelines first_unencodable encodable_prefix]. unfold bind.
    destruct (utf8 l) eqn:Hl.
    + rewrite (write_utf8 p l old w Hw Hl).
      rewrite (IH (old ++ l)) by apply file_at_set_file.
      cbn [concat]. rewrite !set_file_twice, <- !app_assoc. reflexivity.
    + rewrite (write_surrogate p l old w Hw Hl). cbn [concat].
      rewrite app_nil_r. now rewrite <- Hw, set_file_same.
Qed.

(** [write_config_version] in one step. *)
Lemma write_config_version_eval (v : text) (dry : bool) (w : world) :
  write_config_version v dry w =
  match config w with
  | Absent => (w, Raise (Exn FileNotFoundError (u "config.yaml not found")))
  | Directory => (w, Raise (is_a_directory CONFIG_PATH))
  | Undecodable _ msg => (w, Raise (Exn UnicodeDecodeError msg))
  | Regular raw =>
      match rewrite_lines v (lines_of raw) [] false with
      | Ok r =>
          if dry then (log (dry_message v) w, Ok tt)
          else
            written v (if snd r then fst r else fst r ++ [version_line [] v])
              w
      | Raise e => (w, Raise e)
      end
  end.
Proof.
  destruct w as [cf cl ev].
  unfold write_config_version, bind, os_path_exists, readlines, lift.
  cbn [file_at]. destruct cf as [| |raw|seen msg]; cbn [negb config];
    try reflexivity.
  destruct (rewrite_lines v (lines_of raw) [] false) as [r|e];
    [|reflexivity].
  destruct dry; [reflexivity|]. unfold open_w. cbn [file_at config set_file].
  rewrite (writelines_eval CONFIG_PATH _ [] (World (Regular []) cl ev)
             eq_refl).
  unfold written, print.
  cbn [app set_file changelog events config log].
  now destruct (first_unencodable _).
Qed.

(** The file that is written does not depend on the rest of the world. *)
Lemma written_config_same (v : text) (new_lines : list text) (w w' : world) :
  config (fst (written v new_lines w)) = config (fst (written v new_lines w')).
Proof. unfold written. now destruct (first_unencodable new_lines). Qed.

(** What was printed before does not change what is written. *)
Lemma write_config_version_log (v : text) (dry : bool) (e : event)
    (w : world) :
  config (fst (write_config_version v dry (log e w)))
  = config (fst (write_config_version v dry w)).
Proof.
  rewrite !write_config_version_eval. cbn [log config].
  destruct (config w) as [| |raw|seen msg]; try reflexivity.
  destruct (rewrite_lines v (lines_of raw) [] false); [|reflexivity].
  destruct dry; [reflexivity|]. apply written_config_same.
Qed.

(** [write_config_version] on a file with a version line, and on one
    without. *)
Lemma write_config_version_lines (v raw : text) (w : world)
    (pre post : list text) (l : text) :
  config w = Regular raw ->
  lines_of raw = pre ++ l :: post ->
  Forall (fun l => is_version_line l = false) pre ->
  is_version_line l = true ->
  write_config_version v false w
  = written v (pre ++ version_line (indent_of l) v :: post) w.
Proof.
  intros Hw Hlines Hpre Hl. rewrite write_config_version_eval, Hw, Hlines.
  now rewrite (rewrite_lines_first v pre post l [] Hpre Hl).
Qed.

Lemma write_config_version_end (v raw : text) (w : world) :
  config w = Regular raw ->
  existsb is_version_line (lines_of raw) = false ->
  write_config_version v false w
  = written v (lines_of raw ++ [version_line [] v]) w.
Proof.
  intros Hw Hnone. rewrite write_config_version_eval, Hw.
  now rewrite (rewrite_lines_none v _ [] (no_version_line _ Hnone)).
Qed.

Lemma written_utf8 (v : text) (new_lines : list text) (w : world) :
  forallb utf8 new_lines = true ->
  written v new_lines w
  = (World (Regular (concat new_lines)) (changelog w)
       (events w ++ [updated_message v]), Ok tt).
Proof.
  intros H. unfold written. now rewrite (first_unencodable_none _ H).
Qed.

Lemma utf8_version_line (indent v : text) :
  utf8 indent = true -> utf8 v = true -> utf8 (version_line indent v) = true.
Proof.
  intros Hi Hv. unfold version_line. rewrite !utf8_app, Hi, Hv.
  now rewrite utf8_literal.
Qed.

Lemma utf8_indent_of (l : text) : utf8 l = true -> utf8 (indent_of l) = true.
Proof.
  intros H. apply utf8_in. intros c Hc. unfold indent_of in Hc.
  rewrite <- (prefix_lstrip Str.isspace l) in H. rewrite utf8_app in H.
  apply andb_prop in H. destruct H as [H _]. revert c Hc. now apply utf8_in.
Qed.

Lemma write_config_version_replaces (v raw : text) (w : world)
    (pre post : list text) (l : text) :
  config w = Regular raw ->
  utf8 raw = true -> utf8 v = true ->
  lines_of raw = pre ++ l :: post ->
  Forall (fun l => is_version_line l = false) pre ->
  is_version_line l = true ->
  write_config_version v false w =
  (World (Regular (concat (pre ++ version_line (indent_of l) v :: post)))
         (changelog w) (events w ++ [updated_message v]), Ok tt).
Proof.
  intros Hw Hraw Hv Hlines Hpre Hl.
  rewrite (write_config_version_lines v raw w pre post l Hw Hlines Hpre Hl).
  apply written_utf8. pose proof (utf8_lines_of raw Hraw) as Hu.
  rewrite Hlines, forallb_app in Hu. cbn [forallb] in Hu.
  apply andb_prop in Hu. destruct Hu as [Hp Hu]. apply andb_prop in Hu.
  destruct Hu as [Hul Hpost].
  rewrite forallb_app. cbn [forallb]. rewrite Hp, Hpost.
  rewrite utf8_version_line; [reflexivity | now apply utf8_indent_of | easy].
Qed.

Lemma write_config_version_appends (v raw : text) (w : world) :
  config w = Regular raw ->
  utf8 raw = true -> utf8 v = true ->
  existsb is_version_line (lines_of raw) = false ->
  write_config_version v false w =
  (World (Regular (concat (lines_of raw ++ [version_line [] v])))
         (changelog w) (events w ++ [updated_message v]), Ok tt).
Proof.
  intros Hw Hraw Hv Hnone. rewrite (write_config_version_end v raw w Hw Hnone).
  apply written_utf8. rewrite forallb_app, (utf8_lines_of raw Hraw).
  cbn [forallb]. now rewrite utf8_version_line.
Qed.

Lemma scan_lines_ok (lines : list text) :
  scan_lines lines None = Ok (scan_version lines).
Proof.
  induction lines as [|l lines IH]; [reflexivity|].
  cbn [scan_lines scan_version].
  now destruct (Re.rmatch RE_VERSION_VALUE l).
Qed.

Lemma detect_config_version_regular (raw : text) (w : world) :
  config w = Regular raw ->
  detect_config_version w = (w, Ok (scan_version (lines_of raw))).
Proof.
  intros Hw. unfold detect_config_version, bind, os_path_exists, for_lines.
  cbn [file_at]. rewrite Hw. cbn [negb]. rewrite Hw. unfold lift.
  cbn [fst snd]. now rewrite scan_lines_ok.
Qed.

(** [detect_config_version] in one step. *)
Lemma detect_config_version_eval (w : world) :
  detect_config_version w
  = (w, match config w with
        | Absent => Ok []
        | Directory => Raise (is_a_directory CONFIG_PATH)
        | Regular raw => Ok (scan_version (lines_of raw))
        | Undecodable seen msg =>
            scan_lines seen (Some (Exn UnicodeDecodeError msg))
        end).
Proof.
  unfold detect_config_version, bind, os_path_exists, for_lines, lift.
  cbn [file_at]. destruct (config w) eqn:Hc; cbn [negb]; try rewrite Hc;
    cbn [fst snd]; try reflexivity.
  now rewrite scan_lines_ok.
Qed.

Lemma no_newline_spec (v : text) :
  forallb (fun c => negb (is_newline c)) v = true ->
  ~ In LF v /\ ~ In CR v.
Proof.
  intros H. rewrite forallb_forall in H.
  split; intros Hin; specialize (H _ Hin); discriminate.
Qed.

Lemma in_prefix_by (p : char -> bool) (s : text) (c : char) :
  In c (prefix_by p s) -> In c s.
Proof.
  intros H. rewrite <- (prefix_lstrip p s). apply in_or_app. now left.
Qed.

(** The indentation of a version line holds no line feed. *)
Lemma indent_no_lf (l : text) :
  terminated l \/ unterminated l ->
  is_version_line l = true ->
  ~ In LF (indent_of l).
Proof.
  intros Hl Hv Hin. rewrite is_version_line_spec in Hv.
  unfold Str.startswith in Hv. unfold indent_of in Hin.
  pose proof (prefix_lstrip Str.isspace l) as E.
  remember (prefix_by Str.isspace l) as ind eqn:Eind. clear Eind.
  destruct (Str.lstrip_by Str.isspace l) as [|c r] eqn:Er; [discriminate|].
  destruct Hl as [[b [El Hb]]|[_ Hl]].
  - assert (Hne : c :: r <> []) by discriminate.
    destruct (exists_last Hne) as [r' [x Ex]]. rewrite Ex in E.
    rewrite El in E. rewrite app_assoc in E.
    apply app_inj_tail in E. destruct E as [E _].
    apply Hb. rewrite <- E. apply in_or_app. now left.
  - apply Hl. rewrite <- E. apply in_or_app. now left.
Qed.

Lemma version_line_terminated (indent v : text) :
  ~ In LF indent -> ~ In LF v -> terminated (version_line indent v).
Proof.
  intros Hi Hv. exists (indent ++ u "version: " ++ v). split.
  - unfold version_line. now rewrite <- !app_assoc.
  - intros H. apply in_app_or in H. destruct H as [H|H]; [contradiction|].
    apply in_app_or in H. destruct H as [H|H]; [|contradiction].
    cbn in H. repeat (destruct H as [H|H]; [discriminate|]). destruct H.
Qed.

Lemma version_line_no_cr (indent v : text) :
  ~ In CR indent -> ~ In CR v -> ~ In CR (version_line indent v).
Proof.
  intros Hi Hv H. unfold version_line in H.
  apply in_app_or in H. destruct H as [H|H]; [contradiction|].
  apply in_app_or in H. destruct H as [H|H].
  - cbn in H. repeat (destruct H as [H|H]; [discriminate|]). destruct H.
  - apply in_app_or in H. destruct H as [H|[H|[]]]; [contradiction|discriminate].
Qed.

(** The lines of the file after a version line was replaced. *)
Lemma lines_of_replaced (v raw : text) (pre post : list text) (l : text) :
  lines_of raw = pre ++ l :: post ->
  is_version_line l = true ->
  forallb (fun c => negb (is_newline c)) v = true ->
  lines_of (concat (pre ++ version_line (indent_of l) v :: post)) =
  pre ++ version_line (indent_of l) v :: post.
Proof.
  intros Hlines Hl Hv. apply no_newline_spec in Hv. destruct Hv as [Hlf Hcr].
  pose proof (lines_of_well_formed raw) as Hwf. rewrite Hlines in Hwf.
  apply well_formed_app_inv in Hwf. destruct Hwf as [Hpre [Hwl Hpost]].
  pose proof (lines_of_no_cr raw) as Hraw. rewrite Hlines in Hraw.
  rewrite concat_app in Hraw. cbn [concat] in Hraw.
  apply lines_of_concat.
  - apply well_formed_replace; [assumption | | assumption].
    apply version_line_terminated; [|assumption]. now apply indent_no_lf.
  - rewrite concat_app. cbn [concat]. intros H.
    apply in_app_or in H. destruct H as [H|H].
    + apply Hraw. apply in_or_app. now left.
    + apply in_app_or in H. destruct H as [H|H].
      * revert H. apply version_line_no_cr; [|assumption].
        intros H. apply Hraw. apply in_or_app. right. apply in_or_app. left.
        now apply in_prefix_by in H.
      * apply Hraw. apply in_or_app. right. apply in_or_app. now right.
Qed.

(** The lines of a file that holds the first lines of a document only. *)
Lemma well_formed_prefix (ls rest : list text) :
  well_formed (ls ++ rest) -> well_formed ls.
Proof.
  destruct rest as [|r rest]; [now rewrite app_nil_r|]. intros H.
  apply well_formed_app_inv in H. destruct H as [H _].
  now apply forall_terminated_well_formed.
Qed.

Lemma lines_of_prefix (raw : text) (ls rest : list text) :
  lines_of raw = ls ++ rest -> lines_of (concat ls) = ls.
Proof.
  intros E. apply lines_of_concat.
  - apply (well_formed_prefix ls rest). rewrite <- E.
    apply lines_of_well_formed.
  - intros H. apply (lines_of_no_cr raw). rewrite E, concat_app.
    apply in_or_app. now left.
Qed.

Lemma lines_of_replaced_prefix (v raw : text) (pre post rest : list text)
    (l : text) :
  lines_of raw = pre ++ l :: post ++ rest ->
  is_version_line l = true ->
  forallb (fun c => negb (is_newline c)) v = true ->
  lines_of (concat (pre ++ version_line (indent_of l) v :: post)) =
  pre ++ version_line (indent_of l) v :: post.
Proof.
  intros Hlines Hl Hv. apply no_newline_spec in Hv. destruct Hv as [Hlf Hcr].
  pose proof (lines_of_well_formed raw) as Hwf. rewrite Hlines in Hwf.
  apply well_formed_app_inv in Hwf. destruct Hwf as [Hpre [Hwl Hpost]].
  apply well_formed_prefix in Hpost.
  pose proof (lines_of_no_cr raw) as Hraw. rewrite Hlines in Hraw.
  rewrite concat_app in Hraw. cbn [concat] in Hraw.
  rewrite concat_app in Hraw.
  apply lines_of_concat.
  - apply well_formed_replace; [assumption | | assumption].
    apply version_line_terminated; [|assumption]. now apply indent_no_lf.
  - rewrite concat_app. cbn [concat]. intros H.
    apply in_app_or in H. destruct H as [H|H].
    + apply Hraw. apply in_or_app. now left.
    + apply in_app_or in H. destruct H as [H|H].
      * revert H. apply version_line_no_cr; [|assumption].
        intros H. apply Hraw. apply in_or_app. right. apply in_or_app. left.
        now apply in_prefix_by in H.
      * apply Hraw. apply in_or_app. right. apply in_or_app. right.
        apply in_or_app. now left.
Qed.

(** The lines that are written before the first one that UTF-8 does not
    encode: lines before the version line only, or the lines up to the
    version line and some of those after it. *)
Lemma encodable_prefix_cases (pre post : list text) (vl : text) :
  (exists rest, pre = encodable_prefix (pre ++ vl :: post) ++ rest)
  \/ (exists post' rest,
        encodable_prefix (pre ++ vl :: post) = pre ++ vl :: post'
        /\ post = post' ++ rest).
Proof.
  induction pre as [|x pre IH]; cbn [app encodable_prefix].
  - destruct (utf8 vl).
    + right. pose proof (encodable_prefix_spec post) as H.
      destruct (first_unencodable post) as [bad|].
      * destruct H as [rest E].
        now exists (encodable_prefix post), (bad :: rest).
      * exists post, []. now rewrite H, app_nil_r.
    + left. now exists [].
  - destruct (utf8 x).
    + destruct IH as [[rest E] | [post' [rest [E1 E2]]]].
      * left. exists rest. cbn [app]. now rewrite <- E.
      * right. exists post', rest. now rewrite E1.
    + left. now eexists.
Qed.

(** The config file after the lines were written, or some of them. *)
Lemma written_config (v : text) (pre post : list text) (vl : text)
    (w : world) :
  exists q,
    config (fst (written v (pre ++ vl :: post) w)) = Regular (concat q)
    /\ ((exists rest, pre = q ++ rest)
        \/ (exists post' rest, q = pre ++ vl :: post' /\ post = post' ++ rest)).
Proof.
  unfold written. pose proof (encodable_prefix_spec (pre ++ vl :: post)) as H.
  destruct (first_unencodable (pre ++ vl :: post)) as [bad|]; cbn [fst config].
  - exists (encodable_prefix (pre ++ vl :: post)). split; [reflexivity|].
    apply encodable_prefix_cases.
  - exists (pre ++ vl :: post). split; [reflexivity|]. right.
    exists post, []. now rewrite app_nil_r.
Qed.

(** A version that is read back from the line it was written to is
    plain. *)
Lemma read_back_plain (v raw : text) (pre post rest : list text) (l : text) :
  lines_of raw = pre ++ l :: post ++ rest ->
  Forall (fun l => is_version_line l = false) pre ->
  is_version_line l = true ->
  scan_version
    (lines_of (concat (pre ++ version_line (indent_of l) v :: post))) = v ->
  plain_version v = true.
Proof.
  intros E Hpre Hl Hscan.
  assert (Hnl : forallb (fun c => negb (is_newline c)) v = true).
  { apply forallb_forall. intros c Hc. rewrite <- Hscan in Hc.
    apply scan_version_chars in Hc. destruct Hc as [Hlf [l' [Hl' Hin]]].
    unfold is_newline. apply negb_true_iff. apply orb_false_iff. split.
    - now apply N.eqb_neq.
    - apply N.eqb_neq. intros ->.
      apply (lines_of_no_cr
               (concat (pre ++ version_line (indent_of l) v :: post))).
      apply in_concat. now exists l'. }
  unfold plain_version. rewrite Hnl. cbn [andb].
  rewrite (lines_of_replaced_prefix v raw pre post rest l E Hl Hnl) in Hscan.
  rewrite scan_version_skip in Hscan by assumption.
  cbn [scan_version] in Hscan.
  destruct (no_newline_spec v Hnl) as [Hlf _].
  assert (Hind : Forall (fun c => Str.isspace c = true) (indent_of l))
    by apply prefix_by_all.
  destruct (Re.rmatch RE_VERSION_VALUE (version_line (indent_of l) v))
    as [m|] eqn:Hm.
  - fold (unquoted (Re.group 1 m)) in Hscan.
    pose proof (written_value_exact (indent_of l) v m Hind Hlf Hm Hscan) as Hfix.
    apply unquoted_fixed in Hfix. destruct v as [|c v]; [reflexivity|].
    destruct Hfix as [-> ->]. reflexivity.
  - exfalso. now apply (value_match_written_some (indent_of l) v Hind Hlf).
Qed.

(** ** Properties of the version store *)

(** C1, as amended: on a config document with a version line, writing a
    version that UTF-8 encodes, that holds no line break and that has
    neither white space nor a quote at either end, and reading the document
    again, gives back that version; the lines of the document are those of
    the input, in their order, but for the first version line, which is the
    new one behind the old indentation.  The lines are those read in text
    mode; without a carriage return in the input they are the text of the
    file itself. *)
Theorem write_then_detect (v : text) (w : world) (raw : text) :
  config w = Regular raw ->
  utf8 raw = true ->
  existsb is_version_line (lines_of raw) = true ->
  plain_version v = true ->
  utf8 v = true ->
  exists w' pre l post,
    write_config_version v false w = (w', Ok tt)
    /\ detect_config_version w' = (w', Ok v)
    /\ lines_of raw = pre ++ l :: post
    /\ Forall (fun l => is_version_line l = false) pre
    /\ is_version_line l = true
    /\ config_lines w' = pre ++ version_line (indent_of l) v :: post
    /\ config w' =
       Regular (concat pre ++ version_line (indent_of l) v ++ concat post)
    /\ (~ In CR raw -> raw = concat pre ++ l ++ concat post).
Proof.
  intros Hw Hraw Hex Hv Hu.
  destruct (first_version_line _ Hex) as [pre [l [post [E [Hpre Hl]]]]].
  assert (Hnl : forallb (fun c => negb (is_newline c)) v = true)
    by (apply andb_prop in Hv; now destruct Hv).
  eexists. exists pre, l, post.
  split;
    [exact (write_config_version_replaces v raw w pre post l Hw Hraw Hu E
              Hpre Hl)|].
  pose proof (lines_of_replaced v raw pre post l E Hl Hnl) as Hlines.
  split.
  - rewrite (detect_config_version_regular
               (concat (pre ++ version_line (indent_of l) v :: post)))
      by reflexivity.
    rewrite Hlines.
    rewrite scan_version_written; try assumption; [reflexivity|].
    apply prefix_by_all.
  - repeat split; try assumption.
    + cbn [config]. rewrite concat_app. reflexivity.
    + intros Hcr. rewrite <- (concat_lines_of raw Hcr), E, concat_app.
      reflexivity.
Qed.

(** X23: the plain versions are the only ones that are read back as they
    were written. *)
Lemma only_plain_versions_read_back (v : text) (w : world) (raw : text) :
  config w = Regular raw ->
  existsb is_version_line (lines_of raw) = true ->
  snd (detect_config_version (fst (write_config_version v false w))) = Ok v ->
  plain_version v = true.
Proof.
  intros Hw Hex.
  destruct (first_version_line _ Hex) as [pre [l [post [E [Hpre Hl]]]]].
  rewrite (write_config_version_lines v raw w pre post l Hw E Hpre Hl).
  destruct (written_config v pre post (version_line (indent_of l) v) w)
    as [q [Hq Hcases]].
  rewrite (detect_config_version_regular (concat q)) by exact Hq.
  cbn [snd]. intros H.
  assert (Hscan : scan_version (lines_of (concat q)) = v) by congruence.
  clear H. destruct Hcases as [[rest Eq] | [post' [rest [Eq Ep]]]].
  - rewrite (lines_of_prefix raw q (rest ++ l :: post)) in Hscan
      by (now rewrite E, Eq, <- app_assoc).
    rewrite Eq in Hpre. apply Forall_app in Hpre. destruct Hpre as [Hpre _].
    pose proof (scan_version_skip q [] Hpre) as Hq0.
    rewrite app_nil_r in Hq0. rewrite Hq0 in Hscan. now subst v.
  - subst q post.
    exact (read_back_plain v raw pre post' rest l E Hpre Hl Hscan).
Qed.

(** C8, as amended: on a config document with two version lines or more,
    and for a version that UTF-8 encodes, the file that
    [write_config_version] writes is the text of the lines before the first
    version line, then the indentation of that line, the key with the
    version and a line feed, then the text of all the lines after it, each
    as it was read and in its place; the later version lines are among
    them.  The lines are those read in text mode, where each carriage
    return, with the line feed behind it, is read as a line feed; without a
    carriage return in the input they are the text of the file itself. *)
Theorem write_keeps_later_version_lines (v : text) (w : world) (raw : text) :
  config w = Regular raw ->
  utf8 raw = true ->
  utf8 v = true ->
  2 <= count_version_lines (lines_of raw) ->
  exists w' pre l post,
    write_config_version v false w = (w', Ok tt)
    /\ lines_of raw = pre ++ l :: post
    /\ Forall (fun l => is_version_line l = false) pre
    /\ is_version_line l = true
    /\ config w' =
       Regular (concat pre ++ (indent_of l ++ u "version: " ++ v ++ [LF])
                ++ concat post)
    /\ changelog w' = changelog w
    /\ S (count_version_lines post) = count_version_lines (lines_of raw)
    /\ concat pre ++ l ++ concat post = universal_newlines raw
    /\ (~ In CR raw -> raw = concat pre ++ l ++ concat post).
Proof.
  intros Hw Hraw Hu Hcount.
  assert (Hex : existsb is_version_line (lines_of raw) = true).
  { unfold count_version_lines in Hcount.
    destruct (existsb is_version_line (lines_of raw)) eqn:E; [reflexivity|].
    pose proof (no_version_line _ E) as Hnone. exfalso.
    assert (H0 : filter is_version_line (lines_of raw) = []).
    { clear -Hnone. induction Hnone as [|x xs Hx _ IH]; [reflexivity|].
      cbn [filter]. now rewrite Hx. }
    rewrite H0 in Hcount. simpl in Hcount. lia. }
  destruct (first_version_line _ Hex) as [pre [l [post [E [Hpre Hl]]]]].
  eexists. exists pre, l, post.
  split;
    [exact (write_config_version_replaces v raw w pre post l Hw Hraw Hu E
              Hpre Hl)|].
  repeat split; try assumption.
  - cbn [config]. rewrite concat_app. reflexivity.
  - unfold count_version_lines. rewrite E, filter_app. cbn [filter].
    rewrite Hl.
    assert (H0 : filter is_version_line pre = []).
    { clear -Hpre. induction Hpre as [|x xs Hx _ IH]; [reflexivity|].
      cbn [filter]. now rewrite Hx. }
    rewrite H0. reflexivity.
  - pose proof (concat_split_lines (universal_newlines raw)) as Hc.
    fold (lines_of raw) in Hc. rewrite E, concat_app in Hc. exact Hc.
  - intros Hcr. rewrite <- (concat_lines_of raw Hcr), E, concat_app.
    reflexivity.
Qed.

(** X22: where a document without a version line is empty or ends with a
    line feed, and the version holds no line break and no surrogate, the
    lines of the file after the write are those of the input followed by
    one line: the key, the version and a line feed. *)
Lemma write_appends_after_final_newline (v : text) (w : world) (raw : text) :
  config w = Regular raw ->
  utf8 raw = true ->
  existsb is_version_line (lines_of raw) = false ->
  Forall terminated (lines_of raw) ->
  forallb (fun c => negb (is_newline c)) v = true ->
  utf8 v = true ->
  exists w',
    write_config_version v false w = (w', Ok tt)
    /\ config_lines w' = lines_of raw ++ [u "version: " ++ v ++ [LF]].
Proof.
  intros Hw Hraw Hnone Hterm Hv Hu. eexists.
  split; [exact (write_config_version_appends v raw w Hw Hraw Hu Hnone)|].
  unfold config_lines. cbn [config].
  apply no_newline_spec in Hv. destruct Hv as [Hlf Hcr].
  change (u "version: " ++ v ++ [LF]) with (version_line [] v).
  apply lines_of_concat.
  - apply well_formed_replace; [assumption | | exact I].
    apply version_line_terminated; [intros [] | assumption].
  - rewrite concat_app. cbn [concat]. rewrite app_nil_r. intros H.
    apply in_app_or in H. destruct H as [H|H].
    + now apply (lines_of_no_cr raw).
    + revert H. apply version_line_no_cr; [intros [] | assumption].
Qed.

(** X24: and only there: when the lines after the write are those of the
    input and one more, every line of the input ends with a line feed. *)
Lemma appended_line_needs_final_newline (v : text) (w : world) (raw : text) :
  config w = Regular raw ->
  existsb is_version_line (lines_of raw) = false ->
  config_lines (fst (write_config_version v false w))
  = lines_of raw ++ [version_line [] v] ->
  Forall terminated (lines_of raw).
Proof.
  intros Hw Hnone. unfold config_lines.
  destruct (config (fst (write_config_version v false w)))
    as [| |out|seen msg];
    try (intros H; symmetry in H; now apply app_eq_nil in H).
  intros H. pose proof (lines_of_well_formed out) as Hwf.
  rewrite H in Hwf. apply well_formed_app_inv in Hwf. now destruct Hwf.
Qed.

(** C6, on a document whose last line has no line feed: the version is
    written onto the end of that line; the file has the one line it had,
    changed, and no version line, and no version is read from it. *)
Theorem write_joins_last_line :
  let w := World (Regular (u "name: x")) Absent [] in
  let w' := fst (write_config_version (u "1.0") false w) in
  existsb is_version_line (config_lines w) = false
  /\ snd (write_config_version (u "1.0") false w) = Ok tt
  /\ config w' = Regular (u "name: xversion: 1.0" ++ [LF])
  /\ config_lines w = [u "name: x"]
  /\ config_lines w' = [u "name: xversion: 1.0" ++ [LF]]
  /\ snd (detect_config_version w') = Ok [].
Proof. vm_compute. repeat split. Qed.

(** C7: [write_config_version] raises [FileNotFoundError] exactly when
    there is no config file, and on a world without a config file
    [detect_config_version] returns the empty string and changes nothing. *)
Theorem write_raises_iff_absent (v : text) (dry : bool) (w : world) :
  (exn_cls_of (snd (write_config_version v dry w)) = Some FileNotFoundError
   <-> config w = Absent)
  /\ (config w = Absent -> detect_config_version w = (w, Ok [])).
Proof.
  destruct w as [cf cl ev]. split; [split|].
  - rewrite write_config_version_eval. cbn [config].
    destruct cf as [| |raw|seen msg].
    + reflexivity.
    + discriminate.
    + destruct (rewrite_lines_ok v (lines_of raw) [] false) as [r ->].
      destruct dry; [discriminate|]. unfold written.
      destruct (first_unencodable _) as [bad|]; cbn [snd exn_cls_of];
        [|discriminate].
      rewrite encode_error_class. discriminate.
    + discriminate.
  - rewrite write_config_version_eval. cbn [config]. intros ->. reflexivity.
  - cbn. intros ->. reflexivity.
Qed.

(** C10: in a dry run [write_config_version] raises [FileNotFoundError]
    when there is no config file, as it does otherwise; the file is read
    before [dry] is looked at, so a dry run on a directory fails in the
    reading. *)
Theorem dry_write_still_raises (v : text) (w : world) :
  (config w = Absent ->
   write_config_version v true w =
   (w, Raise (Exn FileNotFoundError (u "config.yaml not found")))
   /\ write_config_version v true w = write_config_version v false w)
  /\ (config w = Directory ->
      write_config_version v true w =
      (w, Raise (is_a_directory CONFIG_PATH))).
Proof.
  rewrite !write_config_version_eval.
  split; intros ->; [split|]; reflexivity.
Qed.

(** ** Invariants of a run *)

Section Stable.

Variable I : world -> Prop.
Variable allowed : event -> Prop.
Hypothesis I_log : forall e w, allowed e -> I w -> I (log e w).
Hypothesis I_set_file : forall p n w, I w -> I (set_file p n w).
Hypothesis allowed_print : forall l, allowed (EvPrint l).

Lemma keeps_ret {A} (a : A) : keeps_inv I (ret a).
Proof. intros w H. exact H. Qed.

Lemma keeps_raise {A} (e : exn) : keeps_inv I (@raise A e).
Proof. intros w H. exact H. Qed.

Lemma keeps_lift {A} (r : result A) : keeps_inv I (lift r).
Proof. intros w H. exact H. Qed.

(** The rule of sequence, with what is known of the value passed on. *)
Lemma keeps_bind_with {A B} (Q : A -> Prop) (m : M A) (f : A -> M B) :
  keeps_inv I m ->
  (forall w a, I w -> snd (m w) = Ok a -> Q a) ->
  (forall a, Q a -> keeps_inv I (f a)) ->
  keeps_inv I (bind m f).
Proof.
  intros Hm HQ Hf w Hw. unfold bind.
  specialize (Hm w Hw). specialize (HQ w).
  destruct (m w) as [w' [a|e]]; cbn [fst snd] in *.
  - apply (Hf a); [apply HQ; [assumption | reflexivity] | assumption].
  - assumption.
Qed.

Lemma keeps_bind {A B} (m : M A) (f : A -> M B) :
  keeps_inv I m -> (forall a, keeps_inv I (f a)) -> keeps_inv I (bind m f).
Proof.
  intros Hm Hf. apply (keeps_bind_with (fun _ => True)); auto.
Qed.

Lemma keeps_try_except {A} (m : M A) (h : exn -> M A) :
  keeps_inv I m -> (forall e, keeps_inv I (h e)) ->
  keeps_inv I (try_except m h).
Proof.
  intros Hm Hh w Hw. unfold try_except. specialize (Hm w Hw).
  destruct (m w) as [w' [a|e]]; cbn [fst] in *; [assumption|].
  now apply Hh.
Qed.

Lemma keeps_print (l : text) : keeps_inv I (print l).
Proof. intros w H. cbn. apply I_log; [apply allowed_print | assumption]. Qed.

Lemma keeps_os_path_exists (p : path) : keeps_inv I (os_path_exists p).
Proof. intros w H. unfold os_path_exists. now destruct (file_at p w). Qed.

Lemma keeps_readlines (p : path) : keeps_inv I (readlines p).
Proof. intros w H. unfold readlines. now destruct (file_at p w). Qed.

Lemma keeps_open_w (p : path) : keeps_inv I (open_w p).
Proof.
  intros w H. unfold open_w.
  destruct (file_at p w); cbn [fst]; try assumption; now apply I_set_file.
Qed.

Lemma keeps_for_lines (p : path) : keeps_inv I (for_lines p).
Proof. intros w H. unfold for_lines. now destruct (file_at p w). Qed.

Lemma keeps_write (p : path) (s : text) : keeps_inv I (write p s).
Proof.
  intros w H. unfold write.
  destruct (file_at p w); cbn [fst]; try assumption.
  destruct (find_surrogate 0 s) as [[[first c] last]|]; cbn [fst];
    [assumption | now apply I_set_file].
Qed.

Lemma keeps_writelines (p : path) (lines : list text) :
  keeps_inv I (writelines p lines).
Proof.
  induction lines as [|l lines IH]; [apply keeps_ret|].
  cbn [writelines]. apply keeps_bind; [apply keeps_write | now intros _].
Qed.

Lemma keeps_detect_config_version : keeps_inv I detect_config_version.
Proof.
  apply keeps_bind; [apply keeps_os_path_exists|]. intros ex.
  destruct ex; cbn [negb]; [|apply keeps_ret].
  apply keeps_bind; [apply keeps_for_lines|]. intros. apply keeps_lift.
Qed.

Lemma keeps_write_config_version (v : text) (dry : bool) :
  keeps_inv I (write_config_version v dry).
Proof.
  apply keeps_bind; [apply keeps_os_path_exists|]. intros ex.
  destruct ex; cbn [negb]; [|apply keeps_raise].
  apply keeps_bind; [apply keeps_readlines|]. intros lines.
  apply keeps_bind; [apply keeps_lift|]. intros r.
  destruct dry; [apply keeps_print|].
  apply keeps_bind; [apply keeps_open_w|]. intros _.
  apply keeps_bind; [apply keeps_writelines|]. intros _. apply keeps_print.
Qed.

Lemma keeps_write_changelog (t : pyval) (dry : bool) :
  keeps_inv I (write_changelog t dry).
Proof.
  unfold write_changelog. destruct dry.
  - apply keeps_bind; [apply keeps_print|]. intros _.
    destruct (py_or t (PStr DEFAULT_CHANGELOG));
      try apply keeps_raise; apply keeps_print.
  - apply keeps_bind; [apply keeps_open_w|]. intros _.
    apply keeps_bind; [|intros _; apply keeps_print].
    destruct (py_or t (PStr DEFAULT_CHANGELOG));
      try apply keeps_raise; apply keeps_write.
Qed.

Variable py_int : text -> option Z.
Variable E : env.

Lemma keeps_auto_version : keeps_inv I (auto_version py_int E).
Proof.
  apply keeps_bind; [apply keeps_detect_config_version|].
  intros cur. apply keeps_bind; [apply keeps_lift|].
  intros s. apply keeps_ret.
Qed.

Lemma keeps_sh (cmd : list text) (check : bool) :
  allowed (EvRun cmd) -> keeps_inv I (sh E cmd check).
Proof.
  intros Hcmd. apply keeps_bind; [apply keeps_print|]. intros _ w Hw.
  assert (Hl : I (log (EvRun cmd) w)) by now apply I_log.
  destruct (run E cmd) as [code|e]; [|exact Hl].
  destruct (check && negb (code =? 0)%Z); exact Hl.
Qed.

Lemma keeps_http_json (url : text) :
  allowed (EvHttpGet url) -> keeps_inv I (http_json E url).
Proof.
  intros Hurl w Hw. unfold http_json.
  assert (Hl : I (log (EvHttpGet url) w)) by now apply I_log.
  destruct (urlopen E url); exact Hl.
Qed.

Lemma keeps_get (data : pyval) (key : text) : keeps_inv I (get data key).
Proof.
  unfold get. destruct data; try apply keeps_raise. apply keeps_ret.
Qed.

Lemma keeps_fetch_latest_release (owner repo : text) :
  allowed (EvHttpGet (release_url owner repo)) ->
  keeps_inv I (fetch_latest_release E owner repo).
Proof.
  intros Hurl. apply keeps_try_except.
  - apply keeps_bind; [now apply keeps_http_json|]. intros data.
    apply keeps_bind; [apply keeps_get|]. intros t.
    apply keeps_bind; [apply keeps_get|]. intros b.
    destruct (negb (truthy (py_or t (PStr [])))); [apply keeps_raise|].
    destruct (py_or t (PStr [])); try apply keeps_raise. apply keeps_ret.
  - intros e. destruct (exn_cls e);
      (apply keeps_bind; [apply keeps_print | intros _; apply keeps_ret]).
Qed.

(** The commands of [main] other than the creation of the tag have two
    words or four. *)
Hypothesis allowed_run :
  forall cmd, length cmd <> 3 -> allowed (EvRun cmd).

Lemma keeps_git_add_commit (message : text) (dry : bool) :
  keeps_inv I
    (git_add_commit E [path_name CONFIG_PATH; path_name CHANGELOG_PATH]
       message dry).
Proof.
  unfold git_add_commit. destruct dry; [apply keeps_print|].
  apply keeps_bind; [|intros _]; apply keeps_sh; apply allowed_run;
    discriminate.
Qed.

Lemma keeps_git_push (dry : bool) : keeps_inv I (git_push E dry).
Proof.
  unfold git_push. destruct dry; [apply keeps_print|].
  apply keeps_sh. apply allowed_run. discriminate.
Qed.

Lemma keeps_git_force_tag_and_push (tag : text) (push dry : bool) :
  allowed (EvRun [u "git"; u "tag"; tag]) ->
  keeps_inv I (git_force_tag_and_push E tag push dry).
Proof.
  intros Htag. unfold git_force_tag_and_push. destruct dry; [apply keeps_print|].
  apply keeps_bind; [apply keeps_sh, allowed_run; discriminate|]. intros _.
  apply keeps_bind; [apply keeps_sh, allowed_run; discriminate|]. intros _.
  apply keeps_bind; [now apply keeps_sh|]. intros _.
  destruct push; [|apply keeps_ret].
  apply keeps_bind; [|intros _]; apply keeps_sh, allowed_run; discriminate.
Qed.

Lemma keeps_resolve_fallback (a : args) :
  keeps_inv I (resolve_fallback py_int E a).
Proof.
  apply keeps_bind; [apply keeps_auto_version | intros ver; apply keeps_ret].
Qed.

Lemma keeps_resolve_given (a : args) (v : text) :
  keeps_inv I (resolve_given py_int E a v).
Proof.
  apply keeps_bind; [|intros ver; apply keeps_ret].
  destruct (negb (text_eqb v (u "auto")));
    [apply keeps_ret | apply keeps_auto_version].
Qed.

(** What [main] does with the answer of [fetch_latest_release]. *)
Lemma keeps_after_fetch (a : args) (f : M (option text * option pyval)) :
  keeps_inv I f ->
  keeps_inv I
    (bind f (fun r =>
       match r with
       | (Some tag_with_v, body) =>
           if str_truthy tag_with_v then
             ret (strip_v tag_with_v, tag_with_v,
                  py_or (PStr (notes a))
                    (py_or (match body with Some b => b | None => PNone end)
                       (PStr (u "# " ++ tag_with_v ++ [LF]))))
           else resolve_fallback py_int E a
       | (None, _) => resolve_fallback py_int E a
       end)).
Proof.
  intros Hf. apply keeps_bind; [assumption|]. intros [[t|] body].
  - destruct (str_truthy t); [apply keeps_ret | apply keeps_resolve_fallback].
  - apply keeps_resolve_fallback.
Qed.

Lemma keeps_resolve (a : args) :
  allowed (EvHttpGet (release_url OWNER REPO)) ->
  keeps_inv I (resolve py_int E a).
Proof.
  intros Hurl.
  assert (Hr : keeps_inv I (resolve_remote py_int E a)).
  { apply keeps_after_fetch. now apply keeps_fetch_latest_release. }
  unfold resolve. destruct (version a) as [v|]; [|assumption].
  destruct (str_truthy v); [apply keeps_resolve_given | assumption].
Qed.

Lemma keeps_release (a : args) (ver tag : text) (notes1 : pyval) :
  allowed (EvRun [u "git"; u "tag"; tag]) ->
  keeps_inv I (release E a ver tag notes1).
Proof.
  intros Htag. unfold release.
  apply keeps_bind; [apply keeps_print|]. intros _.
  apply keeps_bind; [apply keeps_write_config_version|]. intros _.
  apply keeps_bind; [apply keeps_write_changelog|]. intros _.
  apply keeps_bind; [apply keeps_git_add_commit|]. intros _.
  destruct (no_push a); [apply keeps_print|].
  apply keeps_bind; [|intros _; apply keeps_print].
  destruct (latest_only a).
  - apply keeps_bind; [apply keeps_git_push | intros _; apply keeps_print].
  - apply keeps_bind;
      [now apply keeps_git_force_tag_and_push | intros _; apply keeps_print].
Qed.

(** [main], given what its first step keeps and yields. *)
Lemma keeps_main (a : args) :
  keeps_inv I (resolve py_int E a) ->
  (forall w ver tag notes1,
     I w -> snd (resolve py_int E a w) = Ok (ver, tag, notes1) ->
     allowed (EvRun [u "git"; u "tag"; tag])) ->
  keeps_inv I (main py_int E a).
Proof.
  intros Hres Htag. unfold main.
  apply (keeps_bind_with
           (fun r => allowed (EvRun [u "git"; u "tag"; snd (fst r)])));
    [assumption | |].
  - intros w [[ver tag] notes1] Hw Hr. cbn [fst snd].
    now apply (Htag w ver tag notes1).
  - intros [[ver tag] notes1] Hallowed. cbn [fst snd] in Hallowed.
    now apply keeps_release.
Qed.

Lemma establishes_bind {A B} (m : M A) (f : A -> M B) :
  establishes I m -> (forall a, keeps_inv I (f a)) ->
  establishes I (bind m f).
Proof.
  intros Hm Hf w. unfold bind. specialize (Hm w).
  destruct (m w) as [w' [a|e]]; cbn [fst] in *; [now apply Hf | assumption].
Qed.

Lemma establishes_try_except {A} (m : M A) (h : exn -> M A) :
  establishes I m -> (forall e, keeps_inv I (h e)) ->
  establishes I (try_except m h).
Proof.
  intros Hm Hh w. unfold try_except. specialize (Hm w).
  destruct (m w) as [w' [a|e]]; cbn [fst] in *; [assumption | now apply Hh].
Qed.

End Stable.

(** ** The first step of [main] *)

Lemma of_uint_head (d : Decimal.uint) :
  d <> Decimal.Nil ->
  exists c r, Str.of_uint d = c :: r /\ (48 <= c <= 57)%N.
Proof.
  destruct d; [contradiction| | | | | | | | | |]; intros _; cbn [Str.of_uint];
    eexists; eexists; (split; [reflexivity | lia]).
Qed.

Lemma of_N_head (n : N) :
  exists c r, Str.of_N n = c :: r /\ (48 <= c <= 57)%N.
Proof.
  unfold Str.of_N. apply of_uint_head. destruct n as [|p]; [discriminate|].
  apply DecimalPos.Unsigned.to_uint_nonnil.
Qed.


Lemma startswith_v_cons (s : text) : Str.startswith (u "v" ++ s) (u "v") = true.
Proof. reflexivity. Qed.





(** The body of the [try]: a release when the answer is usable, and an
    exception otherwise. *)
Lemma fetch_latest_release_try_spec (E : env) (url : text) (w : world) :
  match snd (fetch_latest_release_try E url w) with
  | Ok (tag, body) =>
      usable_release (urlopen E url) = true
      /\ exists t b, tag = Some t /\ body = Some b
                     /\ Str.startswith t (u "v") = true
  | Raise _ => usable_release (urlopen E url) = false
  end.
Proof.
  unfold fetch_latest_release_try, bind, http_json, usable_release.
  destruct (urlopen E url) as [e|data]; [reflexivity|].
  destruct data as [| | | | |l|d]; try reflexivity.
  unfold get, ret. unfold py_or at 1 2 3.
  destruct (lookup d (u "tag_name")) as [|b|z|nz|s|l|d'];
    cbn [truthy negb]; try exact eq_refl.
  - destruct b; exact eq_refl.
  - destruct (z =? 0)%Z eqn:Ez; cbn [negb truthy]; rewrite ?Ez; exact eq_refl.
  - destruct nz; exact eq_refl.
  - destruct s as [|c s]; cbn [is_empty negb snd]; [exact eq_refl|].
    split; [reflexivity|]. do 2 eexists. split; [reflexivity|].
    split; [reflexivity|].
    destruct (Str.startswith (c :: s) (u "v")) eqn:Hs; cbn [negb];
      [assumption | reflexivity].
  - destruct l; exact eq_refl.
  - destruct d'; exact eq_refl.
Qed.

(** [fetch_latest_release] returns, whatever the registry answers: the
    pair of [None] when no release can be taken from the answer, and
    otherwise a tag that starts with v. *)
Lemma fetch_latest_release_returns (E : env) (owner repo : text) (w : world) :
  exists w' tag body,
    fetch_latest_release E owner repo w = (w', Ok (tag, body))
    /\ (usable_release (urlopen E (release_url owner repo)) = false ->
        tag = None /\ body = None)
    /\ (forall t, tag = Some t -> Str.startswith t (u "v") = true).
Proof.
  unfold fetch_latest_release, try_except.
  pose proof (fetch_latest_release_try_spec E (release_url owner repo) w) as H.
  destruct (fetch_latest_release_try E (release_url owner repo) w)
    as [w1 [[tag body]|e]]; cbn [snd] in H.
  - destruct H as [Hu [t [b [Et [Eb Hv]]]]]. subst tag body.
    do 3 eexists. split; [reflexivity|]. split.
    + rewrite Hu. discriminate.
    + intros t' Ht. inversion Ht. now subst t'.
  - destruct (exn_cls e); cbn; do 3 eexists;
      (split; [reflexivity | split; [auto | discriminate]]).
Qed.

Lemma text_eqb_eq (a b : text) : text_eqb a b = true <-> a = b.
Proof.
  unfold text_eqb. destruct (list_eq_dec N.eq_dec a b); split; congruence.
Qed.

Lemma text_eqb_neq (a b : text) : text_eqb a b = false <-> a <> b.
Proof.
  unfold text_eqb. destruct (list_eq_dec N.eq_dec a b); split; congruence.
Qed.

Lemma str_truthy_spec (s : text) : str_truthy s = true <-> s <> [].
Proof. destruct s; cbn; split; congruence. Qed.

(** The first step on a given version other than the word auto. *)
Lemma resolve_given_token (py_int : text -> option Z) (E : env) (a : args)
    (v : text) (w : world) :
  v <> u "auto" ->
  exists n, resolve_given py_int E a v w = (w, Ok (v, u "v" ++ v, n)).
Proof.
  intros Hv. apply text_eqb_neq in Hv. unfold resolve_given, bind.
  rewrite Hv. cbn [negb ret]. now eexists.
Qed.

(** The first step on the word auto. *)
Lemma resolve_given_auto (py_int : text -> option Z) (E : env) (a : args)
    (w w' : world) (ver : text) :
  auto_version py_int E w = (w', Ok ver) ->
  exists n,
    resolve_given py_int E a (u "auto") w = (w', Ok (ver, u "v" ++ ver, n)).
Proof.
  intros Hauto. unfold resolve_given, bind.
  change (text_eqb (u "auto") (u "auto")) with true. cbn [negb].
  rewrite Hauto. cbn [ret]. now eexists.
Qed.





Lemma no_request_log (e : event) (w : world) :
  ~ is_request e -> no_request w -> no_request (log e w).
Proof.
  intros He Hw. unfold no_request, log. cbn [events].
  apply Forall_app. split; [assumption | now constructor].
Qed.

Lemma no_request_set_file (p : path) (n : node) (w : world) :
  no_request w -> no_request (set_file p n w).
Proof. intros Hw. now destruct p. Qed.

(** ** Properties of a run *)





(** C3, as amended: when a version is given and is not the empty string,
    [main] sends no request to the release registry; the version is the
    given one, but for the word auto, for which it is the one of
    [auto_version]. *)
Theorem given_version_skips_registry (py_int : text -> option Z) (E : env)
    (a : args) (v : text) (w : world) :
  version a = Some v ->
  v <> [] ->
  (no_request w -> no_request (fst (main py_int E a w)))
  /\ (v <> u "auto" ->
      exists n, resolve py_int E a w = (w, Ok (v, u "v" ++ v, n)))
  /\ (v = u "auto" ->
      forall w' ver,
        auto_version py_int E w = (w', Ok ver) ->
        exists n, resolve py_int E a w = (w', Ok (ver, u "v" ++ ver, n))).
Proof.
  intros Ha Hv. apply str_truthy_spec in Hv.
  assert (Hres : resolve py_int E a = resolve_given py_int E a v).
  { unfold resolve. now rewrite Ha, Hv. }
  split; [|split].
  - apply (keeps_main no_request (fun e => ~ is_request e)).
    + exact no_request_log.
    + exact no_request_set_file.
    + intros l H. exact H.
    + intros cmd _ H. exact H.
    + rewrite Hres. apply keeps_resolve_given.
    + intros w0 ver tag notes1 _ _ H. exact H.
  - intros Hauto. rewrite Hres. now apply resolve_given_token.
  - intros -> w' ver Hauto. rewrite Hres. now apply resolve_given_auto.
Qed.

(** C5: [fetch_latest_release] never raises; when the registry answers
    with an error, or with anything from which no tag can be read, it
    returns the pair of [None], and [main] goes on with the automatic
    version. *)
Theorem fetch_failure_falls_back (py_int : text -> option Z) (E : env)
    (a : args) (w : world) :
  (exists w' r, fetch_latest_release E OWNER REPO w = (w', Ok r))
  /\ (usable_release (urlopen E (release_url OWNER REPO)) = false ->
      snd (fetch_latest_release E OWNER REPO w) = Ok (None, None)
      /\ resolve_remote py_int E a w =
         resolve_fallback py_int E a
           (fst (fetch_latest_release E OWNER REPO w))).
Proof.
  destruct (fetch_latest_release_returns E OWNER REPO w)
    as [w1 [t [body [Hf [Hnone _]]]]].
  split; [now exists w1, (t, body)|].
  intros Hu. destruct (Hnone Hu) as [-> ->].
  unfold resolve_remote, bind. rewrite Hf. split; reflexivity.
Qed.

(** C9: with the empty string for a version [main] does what it does
    without a version, and sends its request to the release registry. *)
Theorem empty_version_is_no_version (py_int : text -> option Z) (E : env)
    (n : text) (lo np dr : bool) (w : world) :
  main py_int E (Args (Some []) n lo np dr) w
  = main py_int E (Args None n lo np dr) w
  /\ In (EvHttpGet (release_url OWNER REPO))
        (events (fst (main py_int E (Args (Some []) n lo np dr) w))).
Proof.
  split; [reflexivity|].
  set (I := fun w0 : world =>
              In (EvHttpGet (release_url OWNER REPO)) (events w0)).
  assert (I_log : forall e w0, True -> I w0 -> I (log e w0)).
  { intros e w0 _ H. unfold I, log. cbn [events]. apply in_or_app. now left. }
  assert (I_set : forall p nd w0, I w0 -> I (set_file p nd w0)).
  { intros p nd w0 H. now destruct p. }
  change (I (fst (main py_int E (Args (Some []) n lo np dr) w))).
  revert w. change (establishes I (main py_int E (Args (Some []) n lo np dr))).
  unfold main.
  apply (establishes_bind I).
  - unfold resolve. cbn [version str_truthy is_empty negb].
    unfold resolve_remote. apply (establishes_bind I).
    + unfold fetch_latest_release. apply (establishes_try_except I).
      * unfold fetch_latest_release_try. apply (establishes_bind I).
        -- intros w. unfold http_json, I.
           destruct (urlopen E (release_url OWNER REPO)); cbn [fst log events];
             apply in_or_app; right; now left.
        -- intros data.
           apply keeps_bind; [apply keeps_get|]. intros t.
           apply keeps_bind; [apply keeps_get|]. intros b.
           destruct (negb (truthy (py_or t (PStr []))));
             [apply keeps_raise|].
           destruct (py_or t (PStr [])); try apply keeps_raise.
           apply keeps_ret.
      * intros e. destruct (exn_cls e);
          (apply keeps_bind;
           [apply (keeps_print I (fun _ => True)); auto
           | intros _; apply keeps_ret]).
    + intros [[t|] body].
      * destruct (str_truthy t); [apply keeps_ret|].
        apply keeps_resolve_fallback.
      * apply keeps_resolve_fallback.
  - intros [[ver tag] notes1].
    apply (keeps_release I (fun _ => True)); auto.
Qed.

Lemma str_of_int_fits (n : Z) :
  (Z.abs n < 10 ^ MAX_STR_DIGITS)%Z -> str_of_int n = Ok (Str.of_Z n).
Proof.
  intros H. unfold str_of_int. apply Z.ltb_lt in H. now rewrite H.
Qed.

Lemma str_of_int_1 : str_of_int 1 = Ok (u "1").
Proof. vm_compute. reflexivity. Qed.

Lemma str_of_int_2 : str_of_int 2 = Ok (u "2").
Proof. vm_compute. reflexivity. Qed.

Lemma auto_version_eval (py_int : text -> option Z) (E : env) (w : world)
    (cur : text) :
  snd (detect_config_version w) = Ok cur ->
  snd (auto_version py_int E w) =
  match
    str_of_int (if Str.startswith cur (strftime_Ymd (now E)) then
                  match py_int (last (Str.split DOT cur) []) with
                  | Some k => (k + 1)%Z
                  | None => 2%Z
                  end
                else 1%Z)
  with
  | Ok s => Ok (strftime_Ymd (now E) ++ u "." ++ s)
  | Raise e => Raise e
  end.
Proof.
  unfold auto_version, bind.
  destruct (detect_config_version w) as [w1 [c|e]]; cbn [snd];
    [|discriminate].
  intros H. inversion H. unfold lift. now destruct (str_of_int _).
Qed.

(** C4: on the first of January 2024, a stored version 2024.01.01.1 gives
    2024.01.01.2 and a stored version 2023.12.31.5 gives 2024.01.01.1; and
    whenever the stored version starts with the date of the day and [int]
    raises on what follows its last dot, the number is 2. *)
Theorem auto_version_number (py_int : text -> option Z) (E : env) (w : world) :
  (py_int (u "1") = Some 1%Z ->
   now E = Date 2024 1 1 ->
   snd (detect_config_version w) = Ok (u "2024.01.01.1") ->
   snd (auto_version py_int E w) = Ok (u "2024.01.01.2"))
  /\ (now E = Date 2024 1 1 ->
      snd (detect_config_version w) = Ok (u "2023.12.31.5") ->
      snd (auto_version py_int E w) = Ok (u "2024.01.01.1"))
  /\ (forall cur,
        snd (detect_config_version w) = Ok cur ->
        Str.startswith cur (strftime_Ymd (now E)) = true ->
        py_int (last (Str.split DOT cur) []) = None ->
        snd (auto_version py_int E w) = Ok (strftime_Ymd (now E) ++ u ".2")).
Proof.
  split; [|split].
  - intros Hint Hnow Hcur. rewrite (auto_version_eval py_int E w _ Hcur), Hnow.
    change (Str.startswith (u "2024.01.01.1") (strftime_Ymd (Date 2024 1 1)))
      with true.
    change (last (Str.split DOT (u "2024.01.01.1")) []) with (u "1").
    rewrite Hint. change (1 + 1)%Z with 2%Z. rewrite str_of_int_2.
    reflexivity.
  - intros Hnow Hcur. rewrite (auto_version_eval py_int E w _ Hcur), Hnow.
    change (Str.startswith (u "2023.12.31.5") (strftime_Ymd (Date 2024 1 1)))
      with false.
    cbv iota. rewrite str_of_int_1. reflexivity.
  - intros cur Hcur Hstart Hint.
    rewrite (auto_version_eval py_int E w _ Hcur), Hstart, Hint.
    rewrite str_of_int_2. reflexivity.
Qed.

(** ** The properties on examples *)

Lemma write_then_detect_example :
  (config (config_only TWO_VERSIONS) = Regular TWO_VERSIONS
   /\ utf8 TWO_VERSIONS = true
   /\ existsb is_version_line (lines_of TWO_VERSIONS) = true
   /\ plain_version (u "2024.01.01.1") = true
   /\ utf8 (u "2024.01.01.1") = true)
  /\ exists w' pre l post,
       write_config_version (u "2024.01.01.1") false (config_only TWO_VERSIONS)
       = (w', Ok tt)
       /\ detect_config_version w' = (w', Ok (u "2024.01.01.1"))
       /\ lines_of TWO_VERSIONS = pre ++ l :: post
       /\ Forall (fun l => is_version_line l = false) pre
       /\ is_version_line l = true
       /\ config_lines w' =
          pre ++ version_line (indent_of l) (u "2024.01.01.1") :: post
       /\ config w' =
          Regular (concat pre ++ version_line (indent_of l) (u "2024.01.01.1")
                   ++ concat post)
       /\ (~ In CR TWO_VERSIONS ->
           TWO_VERSIONS = concat pre ++ l ++ concat post).
Proof.
  split; [repeat split|].
  apply (write_then_detect (u "2024.01.01.1") (config_only TWO_VERSIONS)
           TWO_VERSIONS); reflexivity.
Defined.

(** C1 as it is stated fails on a version in quotes: the quotes are
    written, and are not read back. *)
Lemma quoted_version_reads_back_bare :
  existsb is_version_line (config_lines (config_only ONE_VERSION)) = true
  /\ config
       (fst (write_config_version ([SQUOTE] ++ u "1.1" ++ [SQUOTE]) false
               (config_only ONE_VERSION)))
     = Regular (u "version: '1.1'" ++ [LF])
  /\ snd (detect_config_version
            (fst (write_config_version ([SQUOTE] ++ u "1.1" ++ [SQUOTE]) false
                    (config_only ONE_VERSION))))
     = Ok (u "1.1")
  /\ u "1.1" <> [SQUOTE] ++ u "1.1" ++ [SQUOTE].
Proof. vm_compute. repeat split. discriminate. Qed.

Lemma write_keeps_later_version_lines_example :
  (config (config_only TWO_VERSIONS) = Regular TWO_VERSIONS
   /\ utf8 TWO_VERSIONS = true
   /\ utf8 (u "0.3") = true
   /\ 2 <= count_version_lines (lines_of TWO_VERSIONS))
  /\ exists w' pre l post,
       write_config_version (u "0.3") false (config_only TWO_VERSIONS)
       = (w', Ok tt)
       /\ lines_of TWO_VERSIONS = pre ++ l :: post
       /\ Forall (fun l => is_version_line l = false) pre
       /\ is_version_line l = true
       /\ config w' =
          Regular (concat pre
                   ++ (indent_of l ++ u "version: " ++ u "0.3" ++ [LF])
                   ++ concat post)
       /\ changelog w' = changelog (config_only TWO_VERSIONS)
       /\ S (count_version_lines post)
          = count_version_lines (lines_of TWO_VERSIONS)
       /\ concat pre ++ l ++ concat post = universal_newlines TWO_VERSIONS
       /\ (~ In CR TWO_VERSIONS ->
           TWO_VERSIONS = concat pre ++ l ++ concat post).
Proof.
  split; [repeat split; vm_compute; lia|].
  apply (write_keeps_later_version_lines (u "0.3") (config_only TWO_VERSIONS)
           TWO_VERSIONS); [reflexivity | reflexivity | reflexivity |].
  vm_compute. lia.
Defined.

(** C8 as it is stated fails on a document whose lines end with a carriage
    return and a line feed: the later version line is not copied as it
    was, it is written with a line feed alone. *)
Lemma crlf_lines_are_not_copied_verbatim :
  count_version_lines (lines_of CRLF_VERSIONS) = 2
  /\ CRLF_VERSIONS
     = u "version: 0.1" ++ [CR; LF] ++ u "version: 0.2" ++ [CR; LF]
  /\ write_config_version (u "1.0") false (config_only CRLF_VERSIONS)
     = (World (Regular (u "version: 1.0" ++ [LF] ++ u "version: 0.2" ++ [LF]))
          Absent [updated_message (u "1.0")], Ok tt)
  /\ u "version: 0.2" ++ [LF] <> u "version: 0.2" ++ [CR; LF].
Proof. vm_compute. repeat split. discriminate. Qed.

Lemma write_raises_iff_absent_example :
  config (World Absent Absent []) = Absent
  /\ exn_cls_of (snd (write_config_version (u "1.0") false
                        (World Absent Absent [])))
     = Some FileNotFoundError
  /\ detect_config_version (World Absent Absent [])
     = (World Absent Absent [], Ok []).
Proof.
  destruct (write_raises_iff_absent (u "1.0") false (World Absent Absent []))
    as [[_ H1] H2].
  split; [reflexivity|]. split; [apply H1 | apply H2]; reflexivity.
Defined.

Lemma dry_write_still_raises_example :
  config (World Absent Absent []) = Absent
  /\ write_config_version (u "1.0") true (World Absent Absent [])
     = (World Absent Absent [],
        Raise (Exn FileNotFoundError (u "config.yaml not found")))
  /\ write_config_version (u "1.0") true (World Absent Absent [])
     = write_config_version (u "1.0") false (World Absent Absent []).
Proof.
  split; [reflexivity|].
  apply (dry_write_still_raises (u "1.0") (World Absent Absent [])).
  reflexivity.
Defined.

Lemma auto_version_number_example :
  (int_of_digits (u "1") = Some 1%Z
   /\ now no_release = Date 2024 1 1
   /\ snd (detect_config_version
             (config_only (u "version: 2024.01.01.1" ++ [LF])))
      = Ok (u "2024.01.01.1")
   /\ snd (detect_config_version
             (config_only (u "version: 2023.12.31.5" ++ [LF])))
      = Ok (u "2023.12.31.5")
   /\ snd (detect_config_version
             (config_only (u "version: 2024.01.01.rc" ++ [LF])))
      = Ok (u "2024.01.01.rc")
   /\ Str.startswith (u "2024.01.01.rc") (strftime_Ymd (now no_release))
      = true
   /\ int_of_digits (last (Str.split DOT (u "2024.01.01.rc")) []) = None)
  /\ snd (auto_version int_of_digits no_release
            (config_only (u "version: 2024.01.01.1" ++ [LF])))
     = Ok (u "2024.01.01.2")
  /\ snd (auto_version int_of_digits no_release
            (config_only (u "version: 2023.12.31.5" ++ [LF])))
     = Ok (u "2024.01.01.1")
  /\ snd (auto_version int_of_digits no_release
            (config_only (u "version: 2024.01.01.rc" ++ [LF])))
     = Ok (u "2024.01.01.2").
Proof.
  split; [repeat split|]. split; [|split].
  - apply (auto_version_number int_of_digits no_release
             (config_only (u "version: 2024.01.01.1" ++ [LF]))); reflexivity.
  - apply (auto_version_number int_of_digits no_release
             (config_only (u "version: 2023.12.31.5" ++ [LF]))); reflexivity.
  - apply (auto_version_number int_of_digits no_release
             (config_only (u "version: 2024.01.01.rc" ++ [LF]))
          ) with (cur := u "2024.01.01.rc"); reflexivity.
Defined.



Lemma given_version_skips_registry_example :
  (version (Args (Some (u "auto")) [] false false false) = Some (u "auto")
   /\ u "auto" <> []
   /\ no_request (config_only ONE_VERSION))
  /\ no_request
       (fst (main int_of_digits no_release
               (Args (Some (u "auto")) [] false false false)
               (config_only ONE_VERSION))).
Proof.
  split; [repeat split; [discriminate | constructor]|].
  apply (given_version_skips_registry int_of_digits no_release
           (Args (Some (u "auto")) [] false false false) (u "auto")
           (config_only ONE_VERSION)); [reflexivity | discriminate |].
  constructor.
Defined.

(** C3 as it is stated fails on the empty string: the version is given,
    and the request is sent. *)
Lemma empty_version_queries_registry :
  version (Args (Some []) [] false true true) = Some []
  /\ In (EvHttpGet (release_url OWNER REPO))
        (events (fst (main int_of_digits no_release
                        (Args (Some []) [] false true true)
                        (config_only ONE_VERSION)))).
Proof. split; [reflexivity|]. vm_compute. left. reflexivity. Qed.

Lemma fetch_failure_falls_back_example :
  usable_release (urlopen no_release (release_url OWNER REPO)) = false
  /\ snd (fetch_latest_release no_release OWNER REPO
            (config_only ONE_VERSION)) = Ok (None, None)
  /\ snd (resolve_remote int_of_digits no_release
            (Args None [] false false false) (config_only ONE_VERSION))
     = Ok (u "2024.01.01.1", u "v2024.01.01.1",
           PStr (u "# v2024.01.01.1" ++ [LF; LF]
                 ++ u "Auto fallback (no releases in repo).")).
Proof.
  destruct (fetch_failure_falls_back int_of_digits no_release
              (Args None [] false false false) (config_only ONE_VERSION))
    as [_ H].
  destruct (H eq_refl) as [H1 H2].
  split; [reflexivity|]. split; [exact H1|]. rewrite H2. reflexivity.
Defined.

(** * The rest of the script *)

(** A line written by [write_config_version] is a version line, behind the
    indentation it was given. *)
Lemma version_line_is_version_line (indent v : text) :
  Forall (fun c => Str.isspace c = true) indent ->
  is_version_line (version_line indent v) = true
  /\ indent_of (version_line indent v) = indent.
Proof.
  intros Hind. rewrite is_version_line_spec. unfold indent_of, version_line.
  destruct (prefix_by_app Str.isspace indent (u "version: " ++ v ++ [LF]) Hind)
    as [-> ->]; [reflexivity|].
  split; reflexivity.
Qed.

(** The file after [write_config_version], in both cases of the loop. *)
Lemma write_config_version_config (v raw : text) (w : world) :
  config w = Regular raw ->
  utf8 raw = true -> utf8 v = true ->
  exists out,
    write_config_version v false w
    = (World (Regular out) (changelog w) (events w ++ [updated_message v]),
       Ok tt).
Proof.
  intros Hw Hraw Hv.
  destruct (existsb is_version_line (lines_of raw)) eqn:Hex.
  - destruct (first_version_line _ Hex) as [pre [l [post [E [Hpre Hl]]]]].
    rewrite (write_config_version_replaces v raw w pre post l Hw Hraw Hv E
               Hpre Hl).
    now eexists.
  - rewrite (write_config_version_appends v raw w Hw Hraw Hv Hex).
    now eexists.
Qed.

(** X1: on a config file that has a version line, or whose lines all end
    with a line feed, writing a version without line break and without
    surrogate and then a second one leaves the file that writing the second
    one alone leaves, also when the second one cannot be written in
    full. *)
Theorem last_write_wins (v1 v2 raw : text) (w : world) :
  config w = Regular raw ->
  utf8 raw = true ->
  existsb is_version_line (lines_of raw) = true
  \/ Forall terminated (lines_of raw) ->
  forallb (fun c => negb (is_newline c)) v1 = true ->
  utf8 v1 = true ->
  config (fst (write_config_version v2 false
                 (fst (write_config_version v1 false w))))
  = config (fst (write_config_version v2 false w)).
Proof.
  intros Hw Hraw Hshape Hv1 Hu1.
  destruct (existsb is_version_line (lines_of raw)) eqn:Hex.
  - destruct (first_version_line _ Hex) as [pre [l [post [E [Hpre Hl]]]]].
    rewrite (write_config_version_replaces v1 raw w pre post l Hw Hraw Hu1 E
               Hpre Hl).
    rewrite (write_config_version_lines v2 raw w pre post l Hw E Hpre Hl).
    cbn [fst].
    assert (Hind : Forall (fun c => Str.isspace c = true) (indent_of l))
      by apply prefix_by_all.
    destruct (version_line_is_version_line (indent_of l) v1 Hind) as [Hvl Hi].
    rewrite (write_config_version_lines v2
               (concat (pre ++ version_line (indent_of l) v1 :: post))
               (World
                  (Regular (concat (pre ++ version_line (indent_of l) v1 :: post)))
                  (changelog w) (events w ++ [updated_message v1]))
               pre post (version_line (indent_of l) v1) eq_refl
               (lines_of_replaced v1 raw pre post l E Hl Hv1) Hpre Hvl).
    rewrite Hi. apply written_config_same.
  - destruct Hshape as [H|Hterm]; [discriminate|].
    rewrite (write_config_version_appends v1 raw w Hw Hraw Hu1 Hex).
    rewrite (write_config_version_end v2 raw w Hw Hex).
    cbn [fst].
    destruct (version_line_is_version_line [] v1 (Forall_nil _)) as [Hvl Hi].
    destruct (no_newline_spec v1 Hv1) as [Hlf Hcr].
    assert (Hlines : lines_of (concat (lines_of raw ++ [version_line [] v1]))
                     = lines_of raw ++ [version_line [] v1]).
    { apply lines_of_concat.
      - apply well_formed_replace; [assumption | | exact I].
        apply version_line_terminated; [intros [] | assumption].
      - rewrite concat_app. cbn [concat]. rewrite app_nil_r. intros H.
        apply in_app_or in H. destruct H as [H|H].
        + now apply (lines_of_no_cr raw).
        + revert H. apply version_line_no_cr; [intros [] | assumption]. }
    rewrite (write_config_version_lines v2
               (concat (lines_of raw ++ [version_line [] v1]))
               (World (Regular (concat (lines_of raw ++ [version_line [] v1])))
                  (changelog w) (events w ++ [updated_message v1]))
               (lines_of raw) [] (version_line [] v1) eq_refl Hlines
               (no_version_line _ Hex) Hvl).
    rewrite Hi. apply written_config_same.
Qed.

(** The loop over lines without a version line, and over lines among
    which a version is found. *)
Lemma scan_lines_none (lines : list text) (stop : option exn) :
  existsb is_version_line lines = false ->
  scan_lines lines stop
  = match stop with
    | Some e => Raise e
    | None => Ok []
    end.
Proof.
  induction lines as [|l lines IH]; [reflexivity|].
  cbn [existsb scan_lines]. intros H. apply orb_false_iff in H.
  destruct H as [Hl H]. rewrite (value_no_match l Hl). now apply IH.
Qed.

Lemma scan_lines_found (lines : list text) (stop : option exn) (v : text) :
  scan_version lines = v -> v <> [] -> scan_lines lines stop = Ok v.
Proof.
  induction lines as [|l lines IH]; cbn [scan_version scan_lines].
  - intros <- H. now contradiction H.
  - destruct (Re.rmatch RE_VERSION_VALUE l); [now intros <- | exact IH].
Qed.

(** X2: [detect_config_version] leaves the world as it is.  It returns the
    empty string where the config file does not exist and where it is a
    file of UTF-8 text without a version line, and it raises
    IsADirectoryError where it is a directory.  On a file that is not UTF-8
    it raises UnicodeDecodeError when no version line is among the lines
    read before the bad bytes, and returns the version that these lines
    hold when it is not empty. *)
Theorem detect_reads_only (w : world) :
  fst (detect_config_version w) = w
  /\ (config w = Absent \/ (exists raw, config w = Regular raw) ->
      existsb is_version_line (config_lines w) = false ->
      snd (detect_config_version w) = Ok [])
  /\ (config w = Directory ->
      snd (detect_config_version w) = Raise (is_a_directory CONFIG_PATH))
  /\ (forall seen msg,
        config w = Undecodable seen msg ->
        (existsb is_version_line seen = false ->
         snd (detect_config_version w)
         = Raise (Exn UnicodeDecodeError msg))
        /\ (scan_version seen <> [] ->
            snd (detect_config_version w) = Ok (scan_version seen))).
Proof.
  rewrite detect_config_version_eval. cbn [fst snd].
  split; [reflexivity|]. split; [|split].
  - intros [Hc | [raw Hc]] Hnone; unfold config_lines in Hnone;
      rewrite Hc in *; [reflexivity|].
    rewrite <- (app_nil_r (lines_of raw)).
    now rewrite (scan_version_skip _ [] (no_version_line _ Hnone)).
  - now intros ->.
  - intros seen msg ->. split.
    + intros Hnone. now rewrite scan_lines_none.
    + intros Hv. now apply scan_lines_found.
Qed.

Lemma star_eol_all_space (k : Re.cont) (s : text) (pos : nat)
    (caps : Re.captures) (r : Re.captures) :
  Forall (fun c => Str.isspace c = true) s ->
  k (pos + length s) [] caps = Some r ->
  Re.star_greedy Str.isspace (Re.exec Re.Eol k) pos s caps = Some r.
Proof.
  intros Hs Hk. apply star_greedy_longest.
  destruct (prefix_by_app Str.isspace s [] Hs I) as [E1 E2].
  rewrite app_nil_r in E1, E2. rewrite E1, E2. exact Hk.
Qed.

(** The value that the first pattern finds in a version line: what stands
    between the white space after the key and the white space at the end. *)
Lemma value_match_line (indent ws body tail : text) :
  Forall (fun c => Str.isspace c = true) indent ->
  Forall (fun c => Str.isspace c = true) ws ->
  Forall (fun c => Str.isspace c = true) tail ->
  ~ In LF body ->
  match body with
  | [] => False
  | c :: _ => Str.isspace c = false /\ Str.isspace (last body c) = false
  end ->
  Re.rmatch RE_VERSION_VALUE (indent ++ u "version:" ++ ws ++ body ++ tail)
  = Some [(1, body)].
Proof.
  intros Hind Hws Htail Hlf Hends.
  destruct body as [|c body]; [contradiction|]. destruct Hends as [Hc Hlast].
  unfold Re.rmatch, RE_VERSION_VALUE. cbn [Re.seq].
  rewrite exec_seq, exec_bol, exec_seq, exec_space.
  rewrite star_greedy_commit by (intros; now apply key_guard).
  destruct (prefix_by_app Str.isspace indent
              (u "version:" ++ ws ++ (c :: body) ++ tail) Hind)
    as [_ ->]; [reflexivity|].
  rewrite exec_seq, exec_lit.
  assert (Hd : Str.drop_prefix (u "version:")
                 (u "version:" ++ ws ++ (c :: body) ++ tail)
               = Some (ws ++ (c :: body) ++ tail)) by reflexivity.
  rewrite Hd. cbv beta iota.
  match goal with
  | |- Re.exec _ _ ?n _ _ = _ => generalize n
  end.
  intros pos. rewrite exec_seq, exec_space.
  apply star_greedy_longest.
  destruct (prefix_by_app Str.isspace ws ((c :: body) ++ tail) Hws)
    as [-> ->]; [exact Hc|].
  rewrite exec_seq, exec_group, exec_dots.
  rewrite plus_lazy_first.
  - rewrite exec_seq, exec_space.
    rewrite (star_eol_all_space Re.accept tail _ _
               ((1, firstn (pos + length ws + length (c :: body)
                            - (pos + length ws)) ((c :: body) ++ tail))
                :: []) Htail eq_refl).
    replace (pos + length ws + length (c :: body) - (pos + length ws))
      with (length (c :: body)) by lia.
    now rewrite firstn_length_app.
  - discriminate.
  - apply Forall_forall. intros x Hx.
    destruct (x =? LF)%N eqn:E; [|reflexivity].
    apply N.eqb_eq in E. subst x. contradiction.
  - intros b1 b2 E Hb1 Hb2. cbv beta. rewrite exec_seq, exec_space.
    apply star_eol_fail. exists (last (c :: body) c). split.
    + rewrite E. rewrite last_app_nonempty by assumption.
      apply in_or_app. left. now apply last_in.
    + exact Hlast.
Qed.

Section Around.

Variable p : char -> bool.

Lemma lstrip_by_all (a x : text) :
  Forall (fun c => p c = true) a ->
  Str.lstrip_by p (a ++ x) = Str.lstrip_by p x.
Proof.
  induction 1 as [|c a Hc _ IH]; [reflexivity|].
  cbn [app Str.lstrip_by]. now rewrite Hc.
Qed.

(** Stripping takes away what stands around a text whose ends stay. *)
Lemma strip_by_around (a v b : text) :
  Forall (fun c => p c = true) a ->
  Forall (fun c => p c = true) b ->
  match v with
  | [] => True
  | c :: _ => p c = false /\ p (last v c) = false
  end ->
  Str.strip_by p (a ++ v ++ b) = v.
Proof.
  intros Ha Hb Hv. unfold Str.strip_by. rewrite (lstrip_by_all a _ Ha).
  destruct v as [|c v].
  - cbn [app]. rewrite <- (app_nil_r b), (lstrip_by_all b [] Hb). reflexivity.
  - destruct Hv as [Hc Hl]. cbn [app Str.lstrip_by]. rewrite Hc.
    unfold Str.rstrip_by.
    change (c :: v ++ b) with ((c :: v) ++ b). rewrite rev_app_distr.
    rewrite lstrip_by_all by (now apply Forall_rev).
    assert (Hne : c :: v <> []) by discriminate.
    destruct (exists_last Hne) as [x [y E]]. rewrite E in *.
    rewrite last_last in Hl. rewrite rev_app_distr. cbn [rev app Str.lstrip_by].
    rewrite Hl. cbn [rev]. now rewrite rev_involutive.
Qed.

End Around.

(** The quotes around a plain value are taken away. *)
Lemma unquoted_quoted (q v : text) :
  q = [] \/ q = [DQUOTE] \/ q = [SQUOTE] ->
  plain_version v = true -> v <> [] ->
  unquoted (q ++ v ++ q) = v.
Proof.
  intros Hq Hv Hne. destruct v as [|c v]; [contradiction|].
  pose proof Hv as Hplain.
  apply andb_prop in Hv. destruct Hv as [_ Hv].
  apply andb_prop in Hv. destruct Hv as [Hc Hl].
  apply keeps_spec in Hc. apply keeps_spec in Hl.
  destruct Hc as [Hc1 [Hc2 Hc3]]. destruct Hl as [Hl1 [Hl2 Hl3]].
  destruct Hq as [-> | [-> | ->]].
  - cbn [app]. rewrite app_nil_r. exact (unquoted_written (c :: v) Hplain).
  - unfold unquoted, Str.strip, Str.strip_chars.
    rewrite (strip_by_id Str.isspace).
    + rewrite (strip_by_around (Str.mem [DQUOTE]) [DQUOTE] (c :: v) [DQUOTE]);
        [| repeat constructor | repeat constructor | split; assumption].
      apply strip_by_id. split; assumption.
    + cbn [app]. split; [reflexivity|].
      change (DQUOTE :: c :: v ++ [DQUOTE])
        with ((DQUOTE :: c :: v) ++ [DQUOTE]).
      now rewrite last_last.
  - unfold unquoted, Str.strip, Str.strip_chars.
    rewrite (strip_by_id Str.isspace).
    + rewrite (strip_by_id (Str.mem [DQUOTE])).
      * apply (strip_by_around (Str.mem [SQUOTE]) [SQUOTE] (c :: v) [SQUOTE]);
          [repeat constructor | repeat constructor | split; assumption].
      * cbn [app]. split; [reflexivity|].
        change (SQUOTE :: c :: v ++ [SQUOTE])
          with ((SQUOTE :: c :: v) ++ [SQUOTE]).
        now rewrite last_last.
    + cbn [app]. split; [reflexivity|].
      change (SQUOTE :: c :: v ++ [SQUOTE])
        with ((SQUOTE :: c :: v) ++ [SQUOTE]).
      now rewrite last_last.
Qed.

(** X3: the value of the first version line is returned without the white
    space around it and without the pair of double or of single quotes
    around it. *)
Theorem detect_reads_quoted_value (w : world) (raw : text)
    (pre post : list text) (indent ws q v tail : text) :
  config w = Regular raw ->
  lines_of raw
  = pre ++ (indent ++ u "version:" ++ ws ++ (q ++ v ++ q) ++ tail) :: post ->
  Forall (fun l => is_version_line l = false) pre ->
  Forall (fun c => Str.isspace c = true) indent ->
  Forall (fun c => Str.isspace c = true) ws ->
  Forall (fun c => Str.isspace c = true) tail ->
  q = [] \/ q = [DQUOTE] \/ q = [SQUOTE] ->
  plain_version v = true ->
  v <> [] ->
  detect_config_version w = (w, Ok v).
Proof.
  intros Hw Hlines Hpre Hind Hws Htail Hq Hv Hne.
  rewrite (detect_config_version_regular raw w Hw), Hlines.
  rewrite scan_version_skip by assumption. cbn [scan_version].
  rewrite value_match_line; try assumption.
  - cbn [Re.group find fst snd Nat.eqb]. now rewrite unquoted_quoted.
  - apply andb_prop in Hv. destruct Hv as [Hnl _].
    apply no_newline_spec in Hnl. destruct Hnl as [Hlf _].
    assert (Hqlf : ~ In LF q).
    { destruct Hq as [-> | [-> | ->]]; intros Hin; cbn in Hin;
        intuition discriminate. }
    intros H. apply in_app_or in H. destruct H as [H|H]; [contradiction|].
    apply in_app_or in H. destruct H as [H|H]; contradiction.
  - destruct v as [|c v]; [contradiction|].
    apply andb_prop in Hv. destruct Hv as [_ Hv].
    apply andb_prop in Hv. destruct Hv as [Hc Hl].
    apply keeps_spec in Hc. apply keeps_spec in Hl.
    destruct Hc as [Hc1 _]. destruct Hl as [Hl1 _].
    destruct Hq as [-> | [-> | ->]].
    + cbn [app]. rewrite app_nil_r. split; assumption.
    + cbn [app]. split; [reflexivity|].
      change (DQUOTE :: c :: v ++ [DQUOTE])
        with ((DQUOTE :: c :: v) ++ [DQUOTE]).
      now rewrite last_last.
    + cbn [app]. split; [reflexivity|].
      change (SQUOTE :: c :: v ++ [SQUOTE])
        with ((SQUOTE :: c :: v) ++ [SQUOTE]).
      now rewrite last_last.
Qed.

(** The first pattern does not match a key with nothing behind it. *)
Lemma value_no_match_bare_key (indent e : text) :
  Forall (fun c => Str.isspace c = true) indent ->
  e = [] \/ e = [LF] ->
  Re.rmatch RE_VERSION_VALUE (indent ++ u "version:" ++ e) = None.
Proof.
  intros Hind He. unfold Re.rmatch, RE_VERSION_VALUE. cbn [Re.seq].
  rewrite exec_seq, exec_bol, exec_seq, exec_space.
  rewrite star_greedy_commit by (intros; now apply key_guard).
  destruct (prefix_by_app Str.isspace indent (u "version:" ++ e) Hind)
    as [_ ->]; [reflexivity|].
  rewrite exec_seq, exec_lit.
  assert (Hd : Str.drop_prefix (u "version:") (u "version:" ++ e) = Some e)
    by reflexivity.
  rewrite Hd. cbv beta iota.
  destruct He as [-> | ->]; reflexivity.
Qed.

(** X4: a line that has the key and no value is passed over by
    [detect_config_version], which reads the lines after it, and it is the
    line that [write_config_version] replaces: where the file and the
    version hold no surrogate, the write returns and the file is the lines
    before that line, its indentation with the key, the version and a line
    feed, and the lines after it. *)
Theorem bare_key_written_not_read (v raw : text) (w : world)
    (pre post : list text) (indent e : text) :
  config w = Regular raw ->
  lines_of raw = pre ++ (indent ++ u "version:" ++ e) :: post ->
  Forall (fun l => is_version_line l = false) pre ->
  Forall (fun c => Str.isspace c = true) indent ->
  e = [] \/ e = [LF] ->
  detect_config_version w = (w, Ok (scan_version post))
  /\ (utf8 raw = true -> utf8 v = true ->
      write_config_version v false w
      = (World
           (Regular (concat pre ++ (indent ++ u "version: " ++ v ++ [LF])
                     ++ concat post))
           (changelog w) (events w ++ [updated_message v]), Ok tt)).
Proof.
  intros Hw Hlines Hpre Hind He. split.
  - rewrite (detect_config_version_regular raw w Hw), Hlines.
    rewrite scan_version_skip by assumption. cbn [scan_version].
    now rewrite value_no_match_bare_key.
  - intros Hraw Hv.
    assert (Hl : is_version_line (indent ++ u "version:" ++ e) = true
                 /\ indent_of (indent ++ u "version:" ++ e) = indent).
    { rewrite is_version_line_spec. unfold indent_of.
      destruct (prefix_by_app Str.isspace indent (u "version:" ++ e) Hind)
        as [-> ->]; [reflexivity|]. split; reflexivity. }
    destruct Hl as [Hl Hi].
    rewrite (write_config_version_replaces v raw w pre post _ Hw Hraw Hv
               Hlines Hpre Hl).
    rewrite Hi, concat_app. reflexivity.
Qed.

(** ** Dates and numbers *)

Lemma drop_prefix_same (p s : text) : Str.drop_prefix p (p ++ s) = Some s.
Proof.
  induction p as [|c p IH]; [reflexivity|].
  cbn [app Str.drop_prefix]. now rewrite N.eqb_refl.
Qed.

Lemma startswith_same (p s : text) : Str.startswith (p ++ s) p = true.
Proof. unfold Str.startswith. now rewrite drop_prefix_same. Qed.

Lemma split_no_sep (sep : char) (s : text) :
  ~ In sep s -> Str.split sep s = [s].
Proof.
  induction s as [|c s IH]; [reflexivity|]. intros H.
  cbn [Str.split]. destruct (c =? sep)%N eqn:E.
  - apply N.eqb_eq in E. subst c. exfalso. apply H. now left.
  - rewrite IH; [reflexivity|]. intros Hin. apply H. now right.
Qed.

(** [parts[-1]] is what follows the last separator. *)
Lemma split_last (sep : char) (s1 s2 : text) :
  ~ In sep s2 -> last (Str.split sep (s1 ++ sep :: s2)) [] = s2.
Proof.
  intros H.
  assert (G : exists p ps, Str.split sep (s1 ++ sep :: s2) = p :: ps
                           /\ ps <> [] /\ last ps [] = s2).
  { induction s1 as [|c s1 IH]; cbn [app Str.split].
    - rewrite N.eqb_refl, (split_no_sep sep s2 H).
      exists [], [s2]. repeat split. discriminate.
    - destruct IH as [p [ps [E [Hne Hl]]]]. rewrite E.
      destruct (c =? sep)%N.
      + exists [], (p :: ps). repeat split; [discriminate|].
        destruct ps; [contradiction | exact Hl].
      + exists (c :: p), ps. repeat split; assumption. }
  destruct G as [p [ps [E [Hne Hl]]]]. rewrite E.
  destruct ps; [contradiction | exact Hl].
Qed.

Lemma of_uint_digits (d : Decimal.uint) : Forall is_digit (Str.of_uint d).
Proof.
  induction d; cbn [Str.of_uint]; constructor; try assumption;
    unfold is_digit; lia.
Qed.

Lemma of_N_digits (n : N) : Forall is_digit (Str.of_N n) /\ Str.of_N n <> [].
Proof.
  split; [apply of_uint_digits|].
  destruct (of_N_head n) as [c [r [E _]]]. rewrite E. discriminate.
Qed.

(** A number is written with digits, behind a minus sign when it is
    negative. *)
Lemma of_Z_shape (z : Z) :
  exists sign ds,
    Str.of_Z z = sign ++ ds /\ (sign = [] \/ sign = [45%N])
    /\ Forall is_digit ds /\ ds <> [].
Proof.
  destruct z as [|p|p]; cbn [Str.of_Z].
  - exists [], (Str.of_N (Z.to_N 0)). destruct (of_N_digits (Z.to_N 0)).
    repeat split; auto.
  - exists [], (Str.of_N (Z.to_N (Z.pos p))).
    destruct (of_N_digits (Z.to_N (Z.pos p))). repeat split; auto.
  - exists [45%N], (Str.of_N (N.pos p)). destruct (of_N_digits (N.pos p)).
    repeat split; auto.
Qed.

Lemma two_digits_digits (n : N) :
  Forall is_digit (two_digits n) /\ two_digits n <> [].
Proof.
  unfold two_digits. destruct (of_N_digits n) as [H1 H2].
  destruct (n <? 10)%N; [|split; assumption].
  split; [|discriminate]. constructor; [unfold is_digit; cbn; lia | exact H1].
Qed.

Lemma digits_version_chars (s : text) :
  Forall is_digit s -> Forall is_version_char s.
Proof. apply Forall_impl. intros c H. now left. Qed.

Lemma dot_version_chars : Forall is_version_char (u ".").
Proof. constructor; [right; left; reflexivity | constructor]. Qed.

Lemma strftime_Ymd_chars (d : date) : Forall is_version_char (strftime_Ymd d).
Proof.
  unfold strftime_Ymd.
  apply Forall_app. split;
    [apply digits_version_chars, of_N_digits|].
  apply Forall_app. split; [apply dot_version_chars|].
  apply Forall_app. split;
    [apply digits_version_chars, two_digits_digits|].
  apply Forall_app. split; [apply dot_version_chars|].
  apply digits_version_chars, two_digits_digits.
Qed.

Lemma of_Z_chars (z : Z) : Forall is_version_char (Str.of_Z z).
Proof.
  destruct (of_Z_shape z) as [sign [ds [-> [Hs [Hd _]]]]].
  apply Forall_app. split; [|now apply digits_version_chars].
  destruct Hs as [-> | ->]; [constructor|].
  constructor; [right; right; reflexivity | constructor].
Qed.

Lemma of_Z_no_dot (z : Z) : ~ In DOT (Str.of_Z z).
Proof.
  intros H. pose proof (of_Z_chars z) as Hc. rewrite Forall_forall in Hc.
  destruct (Hc _ H) as [Hd | [Hd | Hd]].
  - unfold is_digit, DOT in Hd. lia.
  - destruct (of_Z_shape z) as [sign [ds [E [Hs [Hds _]]]]]. rewrite E in H.
    apply in_app_or in H. destruct H as [H|H].
    + destruct Hs as [-> | ->]; [destruct H|].
      destruct H as [H|H]; [discriminate | destruct H].
    + rewrite Forall_forall in Hds. specialize (Hds _ H).
      unfold is_digit, DOT in Hds. lia.
  - discriminate.
Qed.

Lemma digit_keeps (c : char) : is_digit c -> keeps c = true.
Proof.
  unfold is_digit. intros H.
  assert (E : (c = 48 \/ c = 49 \/ c = 50 \/ c = 51 \/ c = 52 \/ c = 53
               \/ c = 54 \/ c = 55 \/ c = 56 \/ c = 57)%N) by lia.
  repeat (destruct E as [-> | E]; [reflexivity|]). now subst c.
Qed.

Lemma version_char_no_newline (c : char) :
  is_version_char c -> negb (is_newline c) = true.
Proof.
  unfold is_version_char, is_digit, is_newline, LF, CR, DOT.
  intros H. apply negb_true_iff. apply orb_false_iff.
  split; apply N.eqb_neq; lia.
Qed.

(** The version of a day and a number is plain. *)
Lemma dated_version_plain (d : date) (n : Z) :
  plain_version (strftime_Ymd d ++ u "." ++ Str.of_Z n) = true.
Proof.
  unfold plain_version. apply andb_true_intro. split.
  - apply forallb_forall. intros c Hc. apply version_char_no_newline.
    revert c Hc. apply Forall_forall.
    apply Forall_app. split; [apply strftime_Ymd_chars|].
    apply Forall_app. split; [apply dot_version_chars | apply of_Z_chars].
  - unfold strftime_Ymd at 1.
    destruct (of_N_head (year d)) as [c [r [E Hc]]].
    destruct (Str.of_N (year d) ++ u "." ++ two_digits (month d) ++ u "."
              ++ two_digits (day d)) as [|c' r'] eqn:E'.
    { rewrite E in E'. discriminate. }
    assert (c' = c) by (rewrite E in E'; now inversion E').
    subst c'. cbn [app]. apply andb_true_intro. split.
    + now apply digit_keeps.
    + change (c :: r' ++ u "." ++ Str.of_Z n)
        with ((c :: r') ++ u "." ++ Str.of_Z n).
      destruct (of_Z_shape n) as [sign [ds [Ez [_ [Hds Hne]]]]].
      rewrite Ez. rewrite !app_assoc.
      rewrite last_app_nonempty by assumption.
      apply digit_keeps. rewrite Forall_forall in Hds. apply Hds.
      now apply last_in.
Qed.

(** ** [auto_version] beyond the examples *)

Lemma strftime_Ymd_nonempty (d : date) : strftime_Ymd d <> [].
Proof.
  unfold strftime_Ymd. destruct (of_N_head (year d)) as [c [r [E _]]].
  rewrite E. discriminate.
Qed.

(** The number after the one that is stored for the day, and the f-string
    on it. *)
Lemma auto_version_stored (py_int : text -> option Z) (E : env) (w : world)
    (n : Z) :
  snd (detect_config_version w)
  = Ok (strftime_Ymd (now E) ++ u "." ++ Str.of_Z n) ->
  py_int (Str.of_Z n) = Some n ->
  snd (auto_version py_int E w)
  = match str_of_int (n + 1) with
    | Ok s => Ok (strftime_Ymd (now E) ++ u "." ++ s)
    | Raise e => Raise e
    end.
Proof.
  intros Hcur Hint. rewrite (auto_version_eval py_int E w _ Hcur).
  rewrite startswith_same.
  change (strftime_Ymd (now E) ++ u "." ++ Str.of_Z n)
    with (strftime_Ymd (now E) ++ DOT :: Str.of_Z n).
  rewrite split_last by apply of_Z_no_dot. now rewrite Hint.
Qed.

Lemma auto_version_next (py_int : text -> option Z) (E : env) (w : world)
    (n : Z) :
  snd (detect_config_version w)
  = Ok (strftime_Ymd (now E) ++ u "." ++ Str.of_Z n) ->
  py_int (Str.of_Z n) = Some n ->
  (Z.abs (n + 1) < 10 ^ MAX_STR_DIGITS)%Z ->
  snd (auto_version py_int E w)
  = Ok (strftime_Ymd (now E) ++ u "." ++ Str.of_Z (n + 1)).
Proof.
  intros Hcur Hint Hfit. rewrite (auto_version_stored py_int E w n Hcur Hint).
  now rewrite (str_of_int_fits _ Hfit).
Qed.

Lemma version_char_utf8 (s : text) :
  Forall is_version_char s -> utf8 s = true.
Proof.
  intros H. apply utf8_in. intros c Hc. rewrite Forall_forall in H.
  specialize (H c Hc). unfold is_surrogate. apply andb_false_iff. left.
  apply N.leb_gt. destruct H as [H | [-> | ->]]; [|reflexivity|reflexivity].
  unfold is_digit in H. lia.
Qed.

Lemma dated_version_utf8 (d : date) (n : Z) :
  utf8 (strftime_Ymd d ++ u "." ++ Str.of_Z n) = true.
Proof.
  rewrite !utf8_app, utf8_literal.
  rewrite (version_char_utf8 _ (strftime_Ymd_chars d)).
  now rewrite (version_char_utf8 _ (of_Z_chars n)).
Qed.

(** What is read after [write_config_version] has replaced a line. *)
Lemma detect_after_write (v raw : text) (w : world) :
  config w = Regular raw ->
  utf8 raw = true ->
  existsb is_version_line (lines_of raw) = true ->
  plain_version v = true ->
  utf8 v = true ->
  snd (detect_config_version (fst (write_config_version v false w))) = Ok v.
Proof.
  intros Hw Hraw Hex Hv Hu.
  destruct (first_version_line _ Hex) as [pre [l [post [E [Hpre Hl]]]]].
  assert (Hnl : forallb (fun c => negb (is_newline c)) v = true)
    by (apply andb_prop in Hv; now destruct Hv).
  rewrite (write_config_version_replaces v raw w pre post l Hw Hraw Hu E
             Hpre Hl).
  cbn [fst].
  rewrite (detect_config_version_regular
             (concat (pre ++ version_line (indent_of l) v :: post)))
    by reflexivity.
  rewrite (lines_of_replaced v raw pre post l E Hl Hnl). cbn [snd].
  rewrite scan_version_written; try assumption; [reflexivity|].
  apply prefix_by_all.
Qed.

(** X5: [auto_version] leaves the world as it is, and its number is 1 when
    there is no config file and when the stored version does not start with
    the date of the day. *)
Theorem auto_version_first_of_day (py_int : text -> option Z) (E : env)
    (w : world) :
  fst (auto_version py_int E w) = w
  /\ (config w = Absent ->
      snd (auto_version py_int E w) = Ok (strftime_Ymd (now E) ++ u ".1"))
  /\ (forall cur,
        snd (detect_config_version w) = Ok cur ->
        Str.startswith cur (strftime_Ymd (now E)) = false ->
        snd (auto_version py_int E w) = Ok (strftime_Ymd (now E) ++ u ".1")).
Proof.
  split; [|split].
  - unfold auto_version, bind. rewrite detect_config_version_eval.
    destruct (match config w with Absent => _ | _ => _ end) as [cur|e];
      [|reflexivity].
    unfold lift. now destruct (str_of_int _).
  - intros Hc.
    assert (Hd : snd (detect_config_version w) = Ok []).
    { rewrite detect_config_version_eval. now rewrite Hc. }
    rewrite (auto_version_eval py_int E w _ Hd).
    pose proof (strftime_Ymd_nonempty (now E)) as Hne.
    destruct (strftime_Ymd (now E)); [contradiction|].
    cbn [Str.startswith Str.drop_prefix]. now rewrite str_of_int_1.
  - intros cur Hd Hs. rewrite (auto_version_eval py_int E w _ Hd), Hs.
    now rewrite str_of_int_1.
Qed.

(** X6: when the stored version is the date of the day, a dot and the
    decimal writing of a number n that [int] reads as n, the version of
    [auto_version] is the date of the day with the number n + 1, as long as
    n + 1 has no more decimal digits than Python turns into a str (4300);
    beyond that [auto_version] raises ValueError. *)
Theorem auto_version_increments (py_int : text -> option Z) (E : env)
    (w : world) (n : Z) :
  snd (detect_config_version w)
  = Ok (strftime_Ymd (now E) ++ u "." ++ Str.of_Z n) ->
  py_int (Str.of_Z n) = Some n ->
  ((Z.abs (n + 1) < 10 ^ MAX_STR_DIGITS)%Z ->
   snd (auto_version py_int E w)
   = Ok (strftime_Ymd (now E) ++ u "." ++ Str.of_Z (n + 1)))
  /\ ((10 ^ MAX_STR_DIGITS <= Z.abs (n + 1))%Z ->
      exn_cls_of (snd (auto_version py_int E w)) = Some ValueError).
Proof.
  intros Hcur Hint. split.
  - now apply auto_version_next.
  - intros Hbig. rewrite (auto_version_stored py_int E w n Hcur Hint).
    unfold str_of_int. apply Z.ltb_ge in Hbig. now rewrite Hbig.
Qed.

(** X7: after the version of the day with the number n was written over a
    version line of a config file, [auto_version] gives the version of the
    day with the number n + 1, as long as n + 1 has no more than 4300
    decimal digits. *)
Theorem second_release_of_day (py_int : text -> option Z) (E : env)
    (w : world) (raw : text) (n : Z) :
  config w = Regular raw ->
  utf8 raw = true ->
  existsb is_version_line (lines_of raw) = true ->
  py_int (Str.of_Z n) = Some n ->
  (Z.abs (n + 1) < 10 ^ MAX_STR_DIGITS)%Z ->
  snd (auto_version py_int E
         (fst (write_config_version
                 (strftime_Ymd (now E) ++ u "." ++ Str.of_Z n) false w)))
  = Ok (strftime_Ymd (now E) ++ u "." ++ Str.of_Z (n + 1)).
Proof.
  intros Hw Hraw Hex Hint Hfit. apply auto_version_next; try assumption.
  apply (detect_after_write _ raw); try assumption.
  - apply dated_version_plain.
  - apply dated_version_utf8.
Qed.

(** ** Tags and releases *)

(** The tag of a version: the version behind a v. *)
Lemma strip_v_behind_v (s : text) :
  match s with
  | [] => True
  | c :: _ =>
      c <> 118%N /\ Str.isspace c = false /\ Str.isspace (last s c) = false
  end ->
  strip_v (u "v" ++ s) = s.
Proof.
  intros Hs. unfold strip_v, Str.lstrip_chars, Str.strip.
  change (u "v" ++ s) with (118%N :: s). change (u "v") with [118%N].
  cbn [Str.lstrip_by Str.mem existsb N.eqb Pos.eqb orb].
  destruct s as [|c s]; [reflexivity|]. destruct Hs as [Hv [Hc Hl]].
  cbn [Str.lstrip_by]. unfold Str.mem. cbn [existsb].
  apply N.eqb_neq in Hv. rewrite Hv. cbn [orb].
  apply strip_by_id. split; assumption.
Qed.

(** [fetch_latest_release] on an answer with a tag name. *)
Lemma fetch_latest_release_usable (E : env) (owner repo : text) (w : world)
    (d : list (text * pyval)) (c : char) (t : text) :
  urlopen E (release_url owner repo) = HttpData (PDict d) ->
  lookup d (u "tag_name") = PStr (c :: t) ->
  fetch_latest_release E owner repo w
  = (log (EvHttpGet (release_url owner repo)) w,
     Ok (Some (with_v (c :: t)),
         Some (py_or (lookup d (u "body")) (PStr [])))).
Proof.
  intros Hu Ht. unfold fetch_latest_release, try_except,
    fetch_latest_release_try, bind, http_json.
  rewrite Hu. unfold get, ret. rewrite Ht.
  unfold py_or at 1 2 3. cbn [truthy is_empty negb]. unfold with_v.
  destruct (Str.startswith (c :: t) (u "v")); reflexivity.
Qed.

(** X8: [fetch_latest_release] sends one request.  On an answer whose tag
    name is a string that is not empty it returns the tag, with a v put
    before it unless it starts with one, and the body, or the empty string
    for a body that is missing or empty.  On a tag name that is missing or
    empty, and on a request that fails, it prints one warning with the text
    of the error and returns the pair of None. *)
Theorem fetch_latest_release_effect (E : env) (owner repo : text) (w : world) :
  let url := release_url owner repo in
  (forall d c t,
     urlopen E url = HttpData (PDict d) ->
     lookup d (u "tag_name") = PStr (c :: t) ->
     fetch_latest_release E owner repo w
     = (log (EvHttpGet url) w,
        Ok (Some (with_v (c :: t)),
            Some (py_or (lookup d (u "body")) (PStr [])))))
  /\ (forall d,
        urlopen E url = HttpData (PDict d) ->
        truthy (lookup d (u "tag_name")) = false ->
        fetch_latest_release E owner repo w
        = (log (EvPrint (u "WARN: fetch latest release error: missing tag_name"))
             (log (EvHttpGet url) w),
           Ok (None, None)))
  /\ (forall e,
        urlopen E url = HttpRaise e ->
        fetch_latest_release E owner repo w
        = (log (EvPrint
                  ((if match exn_cls e with HTTPError => true | _ => false end
                    then u "WARN: fetch latest release failed: "
                    else u "WARN: fetch latest release error: ")
                   ++ exn_str e))
             (log (EvHttpGet url) w),
           Ok (None, None))).
Proof.
  intros url. split; [|split].
  - intros d c t Hu Ht.
    rewrite (fetch_latest_release_usable E owner repo w d c t Hu Ht).
    reflexivity.
  - unfold fetch_latest_release, try_except, fetch_latest_release_try, bind,
      http_json. fold url. intros d Hu Ht. rewrite Hu. unfold get, ret.
    unfold py_or at 1 2 3. rewrite Ht. reflexivity.
  - unfold fetch_latest_release, try_except, fetch_latest_release_try, bind,
      http_json. fold url. intros e Hu. rewrite Hu.
    destruct (exn_cls e); reflexivity.
Qed.

Lemma with_v_starts (t : text) : Str.startswith (with_v t) (u "v") = true.
Proof.
  unfold with_v. destruct (Str.startswith t (u "v")) eqn:E; [exact E|].
  reflexivity.
Qed.

(** The first step of [main] on a release of the registry. *)
Lemma resolve_remote_usable (py_int : text -> option Z) (E : env) (a : args)
    (w : world) (d : list (text * pyval)) (c : char) (t : text) :
  urlopen E (release_url OWNER REPO) = HttpData (PDict d) ->
  lookup d (u "tag_name") = PStr (c :: t) ->
  resolve_remote py_int E a w
  = (log (EvHttpGet (release_url OWNER REPO)) w,
     Ok (strip_v (with_v (c :: t)), with_v (c :: t),
         py_or (PStr (notes a))
           (py_or (py_or (lookup d (u "body")) (PStr []))
              (PStr (u "# " ++ with_v (c :: t) ++ [LF]))))).
Proof.
  intros Hu Ht. unfold resolve_remote, bind.
  rewrite (fetch_latest_release_usable E OWNER REPO w d c t Hu Ht).
  pose proof (with_v_starts (c :: t)) as Hs.
  destruct (with_v (c :: t)) as [|x r]; [discriminate|]. reflexivity.
Qed.

(** X9: when no version is given and the latest release is named s or vs,
    for an s that does not start with v and has no white space at its ends,
    the version is s and the tag is vs; the request is all that happens. *)
Theorem release_tag_resolution (py_int : text -> option Z) (E : env)
    (a : args) (w : world) (d : list (text * pyval)) (name s : text) :
  version_given a = false ->
  urlopen E (release_url OWNER REPO) = HttpData (PDict d) ->
  lookup d (u "tag_name") = PStr name ->
  name = s \/ name = u "v" ++ s ->
  match s with
  | [] => False
  | c :: _ =>
      c <> 118%N /\ Str.isspace c = false /\ Str.isspace (last s c) = false
  end ->
  exists n,
    resolve py_int E a w
    = (log (EvHttpGet (release_url OWNER REPO)) w, Ok (s, u "v" ++ s, n)).
Proof.
  intros Hg Hu Ht Hname Hs.
  assert (Hres : resolve py_int E a = resolve_remote py_int E a).
  { unfold resolve. unfold version_given in Hg.
    destruct (version a) as [v|]; [now rewrite Hg | reflexivity]. }
  assert (Hw : with_v name = u "v" ++ s).
  { destruct s as [|c s]; [contradiction|]. destruct Hs as [Hv _].
    destruct Hname as [-> | ->]; [|reflexivity].
    unfold with_v, Str.startswith. change (u "v") with [118%N].
    cbn [Str.drop_prefix]. apply not_eq_sym in Hv.
    apply N.eqb_neq in Hv. now rewrite Hv. }
  assert (Hne : exists c t, name = c :: t).
  { destruct s as [|c s]; [contradiction|].
    destruct Hname as [-> | ->]; [now exists c, s|].
    now exists 118%N, (c :: s). }
  destruct Hne as [c [t ->]].
  rewrite Hres, (resolve_remote_usable py_int E a w d c t Hu Ht), Hw.
  rewrite strip_v_behind_v by (destruct s; [contradiction | exact Hs]).
  now eexists.
Qed.

(** X10: notes given on the command line are the notes of the release,
    whatever the source of the version is. *)
Theorem notes_override (py_int : text -> option Z) (E : env) (a : args)
    (w : world) (ver tag : text) (n : pyval) :
  notes a <> [] ->
  snd (resolve py_int E a w) = Ok (ver, tag, n) ->
  n = PStr (notes a).
Proof.
  intros Hn. apply str_truthy_spec in Hn.
  assert (Hrem : snd (resolve_remote py_int E a w) = Ok (ver, tag, n) ->
                 n = PStr (notes a)).
  { unfold resolve_remote, bind.
    destruct (fetch_latest_release E OWNER REPO w) as [w1 [[[t|] body]|e]];
      [| |discriminate].
    - destruct (str_truthy t).
      + cbn [ret snd]. unfold py_or at 1. cbn [truthy].
        unfold str_truthy in Hn. rewrite Hn. intros H. now inversion H.
      + unfold resolve_fallback, bind.
        destruct (auto_version py_int E w1) as [w2 [x|e]]; [|discriminate].
        cbn [ret snd]. rewrite Hn. intros H. now inversion H.
    - unfold resolve_fallback, bind.
      destruct (auto_version py_int E w1) as [w2 [x|e]]; [|discriminate].
      cbn [ret snd]. rewrite Hn. intros H. now inversion H. }
  unfold resolve. destruct (version a) as [v|]; [|exact Hrem].
  destruct (str_truthy v); [|exact Hrem].
  unfold resolve_given, bind.
  destruct (negb (text_eqb v (u "auto"))).
  - cbn [ret snd]. rewrite Hn. intros H. now inversion H.
  - destruct (auto_version py_int E w) as [w1 [x|e]]; [|discriminate].
    cbn [ret snd]. rewrite Hn. intros H. now inversion H.
Qed.

(** ** The commands of a run *)

Lemma commands_log (e : event) (w : world) :
  commands (log e w)
  = commands w ++ match e with EvRun cmd => [cmd] | _ => [] end.
Proof.
  unfold commands, log. cbn [events]. rewrite flat_map_app. cbn [flat_map].
  now rewrite app_nil_r.
Qed.

Lemma untouched_log (w0 : world) (e : event) (w : world) :
  ~ is_run e -> untouched w0 w -> untouched w0 (log e w).
Proof.
  intros He [H1 [H2 H3]]. repeat split; try assumption.
  rewrite commands_log, H3. destruct e; try apply app_nil_r.
  exfalso. now apply He.
Qed.

Lemma print_is_not_run (l : text) : ~ is_run (EvPrint l).
Proof. intros H. exact H. Qed.

(** *** A dry run *)

Section Dry.

Variable I : world -> Prop.
Hypothesis I_log : forall e w, ~ is_run e -> I w -> I (log e w).

Lemma dry_print (l : text) : keeps_inv I (print l).
Proof.
  apply (keeps_print I (fun e => ~ is_run e));
    [exact I_log | exact print_is_not_run].
Qed.

Lemma dry_write_config_version (v : text) :
  keeps_inv I (write_config_version v true).
Proof.
  apply keeps_bind; [apply keeps_os_path_exists|]. intros ex.
  destruct ex; cbn [negb]; [|apply keeps_raise].
  apply keeps_bind; [apply keeps_readlines|]. intros lines.
  apply keeps_bind; [apply keeps_lift|]. intros r. apply dry_print.
Qed.

Lemma dry_write_changelog (t : pyval) : keeps_inv I (write_changelog t true).
Proof.
  unfold write_changelog.
  apply keeps_bind; [apply dry_print|]. intros _.
  destruct (py_or t (PStr DEFAULT_CHANGELOG));
    try apply keeps_raise; apply dry_print.
Qed.

Variable E : env.

Lemma dry_release (a : args) (ver tag : text) (notes1 : pyval) :
  dry_run a = true -> keeps_inv I (release E a ver tag notes1).
Proof.
  intros Hdry. unfold release. rewrite Hdry.
  apply keeps_bind; [apply dry_print|]. intros _.
  apply keeps_bind; [apply dry_write_config_version|]. intros _.
  apply keeps_bind; [apply dry_write_changelog|]. intros _.
  apply keeps_bind; [apply dry_print|]. intros _.
  destruct (no_push a); [apply dry_print|].
  apply keeps_bind; [|intros _; apply dry_print].
  destruct (latest_only a);
    (apply keeps_bind; [apply dry_print | intros _; apply dry_print]).
Qed.

Variable py_int : text -> option Z.

Lemma quiet_resolve (a : args) : keeps_inv I (resolve py_int E a).
Proof.
  apply (keeps_resolve I (fun e => ~ is_run e));
    [exact I_log | exact print_is_not_run | intros H; exact H].
Qed.

Lemma dry_main (a : args) :
  dry_run a = true -> keeps_inv I (main py_int E a).
Proof.
  intros Hdry. unfold main.
  apply keeps_bind; [apply quiet_resolve|]. intros [[ver tag] notes1].
  now apply dry_release.
Qed.

End Dry.

(** X11: a dry run leaves the config file and the changelog as they are
    and runs no command. *)
Theorem dry_run_changes_nothing (py_int : text -> option Z) (E : env)
    (a : args) (w : world) :
  dry_run a = true ->
  untouched w (fst (main py_int E a w)).
Proof.
  intros Hdry.
  apply (dry_main (untouched w) (untouched_log w) E py_int a Hdry).
  repeat split.
Qed.

(** *** One command *)

Lemma bind_ok {A B} (m : M A) (f : A -> M B) (w w1 : world) (a : A) :
  m w = (w1, Ok a) -> bind m f w = f a w1.
Proof. intros H. unfold bind. now rewrite H. Qed.

Lemma bind_raise {A B} (m : M A) (f : A -> M B) (w w1 : world) (e : exn) :
  m w = (w1, Raise e) -> bind m f w = (w1, Raise e).
Proof. intros H. unfold bind. now rewrite H. Qed.

Lemma sh_exit (E : env) (cmd : list text) (check : bool) (code : Z)
    (w : world) :
  run E cmd = RunExit code ->
  sh E cmd check w
  = (ran cmd w,
     if check && negb (code =? 0)%Z then Raise (non_zero_exit E cmd code)
     else Ok tt).
Proof.
  intros H. unfold sh, bind, print. rewrite H.
  now destruct (check && negb (code =? 0)%Z).
Qed.

Lemma sh_unchecked (E : env) (cmd : list text) (code : Z) (w : world) :
  run E cmd = RunExit code -> sh E cmd false w = (ran cmd w, Ok tt).
Proof. intros H. now rewrite (sh_exit E cmd false code w H). Qed.

Lemma sh_zero (E : env) (cmd : list text) (check : bool) (w : world) :
  run E cmd = RunExit 0 -> sh E cmd check w = (ran cmd w, Ok tt).
Proof.
  intros H. rewrite (sh_exit E cmd check 0 w H). now destruct check.
Qed.

Lemma sh_failed (E : env) (cmd : list text) (code : Z) (w : world) :
  run E cmd = RunExit code -> code <> 0%Z ->
  sh E cmd true w = (ran cmd w, Raise (non_zero_exit E cmd code)).
Proof.
  intros H Hc. rewrite (sh_exit E cmd true code w H).
  apply Z.eqb_neq in Hc. now rewrite Hc.
Qed.

Lemma commands_ran (cmd : list text) (w : world) :
  commands (ran cmd w) = commands w ++ [cmd].
Proof.
  unfold ran, shown. rewrite commands_log, commands_log.
  now rewrite app_nil_r.
Qed.

Lemma print_eval (l : text) (w : world) :
  print l w = (log (EvPrint l) w, Ok tt).
Proof. reflexivity. Qed.

Lemma git_add_commit_ok (E : env) (files : list text) (message : text)
    (code : Z) (w : world) :
  run E ([u "git"; u "add"] ++ files) = RunExit 0 ->
  run E [u "git"; u "commit"; u "-m"; message] = RunExit code ->
  git_add_commit E files message false w
  = (ran [u "git"; u "commit"; u "-m"; message]
       (ran ([u "git"; u "add"] ++ files) w), Ok tt).
Proof.
  intros Hadd Hcommit. unfold git_add_commit.
  rewrite (bind_ok _ _ _ _ _ (sh_zero E _ true w Hadd)).
  now apply sh_unchecked with (code := code).
Qed.

Lemma git_force_tag_and_push_ok (E : env) (tag : text) (w : world)
    (c1 c2 : Z) :
  run E [u "git"; u "tag"; u "-d"; tag] = RunExit c1 ->
  run E [u "git"; u "push"; u "origin"; u ":refs/tags/" ++ tag] = RunExit c2 ->
  run E [u "git"; u "tag"; tag] = RunExit 0 ->
  run E [u "git"; u "push"] = RunExit 0 ->
  run E [u "git"; u "push"; u "origin"; tag] = RunExit 0 ->
  git_force_tag_and_push E tag true false w
  = (ran [u "git"; u "push"; u "origin"; tag]
       (ran [u "git"; u "push"]
          (ran [u "git"; u "tag"; tag]
             (ran [u "git"; u "push"; u "origin"; u ":refs/tags/" ++ tag]
                (ran [u "git"; u "tag"; u "-d"; tag] w)))), Ok tt).
Proof.
  intros H1 H2 H3 H4 H5. unfold git_force_tag_and_push.
  rewrite (bind_ok _ _ _ _ _ (sh_unchecked E _ c1 w H1)).
  rewrite (bind_ok _ _ _ _ _ (sh_unchecked E _ c2 _ H2)).
  rewrite (bind_ok _ _ _ _ _ (sh_zero E _ true _ H3)).
  rewrite (bind_ok _ _ _ _ _ (sh_zero E _ true _ H4)).
  now apply sh_zero.
Qed.

Lemma open_w_eval (p : path) (w : world) :
  file_at p w <> Directory ->
  open_w p w = (set_file p (Regular []) w, Ok tt).
Proof. intros H. unfold open_w. now destruct (file_at p w). Qed.

Lemma write_changelog_text (s : text) (w : world) :
  changelog w <> Directory ->
  utf8 s = true ->
  write_changelog (PStr s) false w
  = (World (config w)
       (Regular (match s with [] => DEFAULT_CHANGELOG | _ => s end))
       (events w ++ [EvPrint (u "INFO: CHANGELOG.md updated")]),
     Ok tt).
Proof.
  intros Hd Hs. unfold write_changelog.
  rewrite (bind_ok _ _ _ _ _ (open_w_eval CHANGELOG_PATH w Hd)).
  assert (Ht : exists t,
    py_or (PStr s) (PStr DEFAULT_CHANGELOG) = PStr t /\ utf8 t = true
    /\ t = match s with [] => DEFAULT_CHANGELOG | _ => s end).
  { destruct s as [|c s]; eexists; (split; [reflexivity|]);
      (split; [|reflexivity]); [reflexivity | exact Hs]. }
  destruct Ht as [t [-> [Ht <-]]].
  rewrite (bind_ok _ _ _ _ _
             (write_utf8 CHANGELOG_PATH t []
                (set_file CHANGELOG_PATH (Regular []) w) eq_refl Ht)).
  reflexivity.
Qed.

Lemma write_changelog_surrogate (s : text) (w : world) :
  changelog w <> Directory ->
  utf8 s = false ->
  write_changelog (PStr s) false w
  = (World (config w) (Regular []) (events w), Raise (encode_error s)).
Proof.
  intros Hd Hs. unfold write_changelog.
  rewrite (bind_ok _ _ _ _ _ (open_w_eval CHANGELOG_PATH w Hd)).
  destruct s as [|c s]; [discriminate|].
  change (py_or (PStr (c :: s)) (PStr DEFAULT_CHANGELOG))
    with (PStr (c :: s)).
  now rewrite (bind_raise _ _ _ _ _
                 (write_surrogate CHANGELOG_PATH (c :: s) []
                    (set_file CHANGELOG_PATH (Regular []) w) eq_refl Hs)).
Qed.

(** X12: [git_add_commit] runs the staging and then the commit, whose
    status is not looked at; when the staging ends with a status other than
    zero, the CalledProcessError of that command and status is raised and
    the commit is not run. *)
Theorem git_add_commit_effect (E : env) (files : list text) (message : text)
    (w : world) :
  let add := [u "git"; u "add"] ++ files in
  let commit := [u "git"; u "commit"; u "-m"; message] in
  (forall code,
     run E add = RunExit 0 -> run E commit = RunExit code ->
     git_add_commit E files message false w = (ran commit (ran add w), Ok tt))
  /\ (forall code,
        run E add = RunExit code -> code <> 0%Z ->
        git_add_commit E files message false w
        = (ran add w, Raise (non_zero_exit E add code))).
Proof.
  intros add commit. split.
  - intros code. apply git_add_commit_ok.
  - intros code Hadd Hcode. unfold git_add_commit.
    now apply bind_raise, sh_failed.
Qed.

(** X13: [git_force_tag_and_push] deletes the tag here and on the remote,
    whatever the status of the two deletions, then creates the tag, pushes
    the branch and pushes the tag; when the creation of the tag fails,
    nothing is pushed, and when the push of the branch fails, the tag is not
    pushed. *)
Theorem git_force_tag_and_push_effect (E : env) (tag : text) (w : world)
    (c1 c2 : Z) :
  let untag := [u "git"; u "tag"; u "-d"; tag] in
  let unpush := [u "git"; u "push"; u "origin"; u ":refs/tags/" ++ tag] in
  let retag := [u "git"; u "tag"; tag] in
  let push := [u "git"; u "push"] in
  let push_tag := [u "git"; u "push"; u "origin"; tag] in
  run E untag = RunExit c1 -> run E unpush = RunExit c2 ->
  (run E retag = RunExit 0 -> run E push = RunExit 0 ->
   run E push_tag = RunExit 0 ->
   git_force_tag_and_push E tag true false w
   = (ran push_tag (ran push (ran retag (ran unpush (ran untag w)))), Ok tt))
  /\ (forall code,
        run E retag = RunExit code -> code <> 0%Z ->
        git_force_tag_and_push E tag true false w
        = (ran retag (ran unpush (ran untag w)),
           Raise (non_zero_exit E retag code)))
  /\ (forall code,
        run E retag = RunExit 0 -> run E push = RunExit code -> code <> 0%Z ->
        git_force_tag_and_push E tag true false w
        = (ran push (ran retag (ran unpush (ran untag w))),
           Raise (non_zero_exit E push code))).
Proof.
  intros untag unpush retag push push_tag H1 H2.
  split; [|split].
  - now apply git_force_tag_and_push_ok with (c1 := c1) (c2 := c2).
  - intros code H3 Hc. unfold git_force_tag_and_push.
    rewrite (bind_ok _ _ _ _ _ (sh_unchecked E untag c1 w H1)).
    rewrite (bind_ok _ _ _ _ _ (sh_unchecked E unpush c2 _ H2)).
    now apply bind_raise, sh_failed.
  - intros code H3 H4 Hc. unfold git_force_tag_and_push.
    rewrite (bind_ok _ _ _ _ _ (sh_unchecked E untag c1 w H1)).
    rewrite (bind_ok _ _ _ _ _ (sh_unchecked E unpush c2 _ H2)).
    rewrite (bind_ok _ _ _ _ _ (sh_zero E retag true _ H3)).
    now apply bind_raise, sh_failed.
Qed.

(** X14: where the changelog is not a directory, [write_changelog] replaces
    it as a whole, whatever it held before and whether it existed: by the
    text, or by the default text for the empty text, when the text holds no
    surrogate; the config file is left as it is.  A text with a surrogate
    leaves the changelog empty, and UnicodeEncodeError is raised. *)
Theorem write_changelog_replaces (s : text) (w : world) :
  changelog w <> Directory ->
  (utf8 s = true ->
   write_changelog (PStr s) false w
   = (World (config w)
        (Regular (match s with [] => DEFAULT_CHANGELOG | _ => s end))
        (events w ++ [EvPrint (u "INFO: CHANGELOG.md updated")]),
      Ok tt))
  /\ (utf8 s = false ->
      write_changelog (PStr s) false w
      = (World (config w) (Regular []) (events w), Raise (encode_error s))
      /\ exn_cls (encode_error s) = UnicodeEncodeError).
Proof.
  intros Hd. split.
  - now apply write_changelog_text.
  - intros Hs. split; [now apply write_changelog_surrogate|].
    apply encode_error_class.
Qed.

(** X15: notes that are neither falsy nor a string leave an empty
    changelog behind: the file is opened for writing before [write] raises
    TypeError. *)
Theorem write_changelog_not_text (t : pyval) (w : world) :
  truthy t = true -> (forall s, t <> PStr s) -> changelog w <> Directory ->
  changelog (fst (write_changelog t false w)) = Regular []
  /\ exn_cls_of (snd (write_changelog t false w)) = Some TypeError.
Proof.
  intros Ht Hs Hd. unfold write_changelog, bind, open_w, write, print.
  cbn [file_at]. unfold py_or. rewrite Ht.
  destruct t as [|b|z|f|s|l|d]; try (exfalso; now apply (Hs s));
    (destruct (changelog w) eqn:Hc; [| congruence | |]; split; reflexivity).
Qed.

(** *** The modes of a run *)

Lemma runs_only_log (ok : list text -> Prop) (w0 : world) (e : event)
    (w : world) :
  permits ok e -> runs_only ok w0 w -> runs_only ok w0 (log e w).
Proof.
  intros He [new [Hc Hn]]. unfold runs_only. rewrite commands_log, Hc.
  destruct e as [l|url|cmd].
  - exists new. now rewrite app_nil_r.
  - exists new. now rewrite app_nil_r.
  - exists (new ++ [cmd]). rewrite app_assoc. split; [reflexivity|].
    apply Forall_app. split; [assumption | now constructor].
Qed.

Lemma runs_only_set_file (ok : list text -> Prop) (w0 : world) (p : path)
    (n : node) (w : world) :
  runs_only ok w0 w -> runs_only ok w0 (set_file p n w).
Proof. intros H. now destruct p. Qed.

Lemma runs_only_refl (ok : list text -> Prop) (w : world) :
  runs_only ok w w.
Proof. exists []. split; [now rewrite app_nil_r | constructor]. Qed.

Section Modes.

Variable ok : list text -> Prop.
Variable w0 : world.
Variable E : env.
Variable py_int : text -> option Z.
Hypothesis ok_local : forall cmd, local_command cmd -> ok cmd.

Lemma local_print (l : text) : keeps_inv (runs_only ok w0) (print l).
Proof.
  apply (keeps_print _ (permits ok)); [apply runs_only_log | easy].
Qed.

Lemma local_git_add_commit (v : text) (dry : bool) :
  keeps_inv (runs_only ok w0)
    (git_add_commit E [path_name CONFIG_PATH; path_name CHANGELOG_PATH]
       (u "release: " ++ v) dry).
Proof.
  unfold git_add_commit. destruct dry; [apply local_print|].
  apply keeps_bind; [|intros _];
    (apply (keeps_sh _ (permits ok)); [apply runs_only_log | easy |]);
    apply ok_local.
  - now left.
  - right. now exists v.
Qed.

Lemma local_files (a : args) (ver : text) (notes1 : pyval) (rest : M unit) :
  keeps_inv (runs_only ok w0) rest ->
  keeps_inv (runs_only ok w0)
    (write_config_version ver (dry_run a) ;;
     write_changelog notes1 (dry_run a) ;;
     git_add_commit E [path_name CONFIG_PATH; path_name CHANGELOG_PATH]
       (u "release: " ++ ver) (dry_run a) ;;
     rest).
Proof.
  intros Hrest.
  apply keeps_bind;
    [apply (keeps_write_config_version _ (permits ok));
       [apply runs_only_log | apply runs_only_set_file | easy]|].
  intros _.
  apply keeps_bind;
    [apply (keeps_write_changelog _ (permits ok));
       [apply runs_only_log | apply runs_only_set_file | easy]|].
  intros _.
  apply keeps_bind; [apply local_git_add_commit|]. now intros _.
Qed.

Lemma local_resolve (a : args) :
  keeps_inv (runs_only ok w0) (resolve py_int E a).
Proof.
  apply (keeps_resolve _ (permits ok)); [apply runs_only_log | easy | easy].
Qed.

Lemma no_push_release (a : args) (ver tag : text) (notes1 : pyval) :
  no_push a = true ->
  keeps_inv (runs_only ok w0) (release E a ver tag notes1).
Proof.
  intros Hno. unfold release. rewrite Hno.
  apply keeps_bind; [apply local_print|]. intros _.
  apply local_files, local_print.
Qed.

Hypothesis ok_push : ok [u "git"; u "push"].

Lemma latest_only_release (a : args) (ver tag : text) (notes1 : pyval) :
  latest_only a = true ->
  keeps_inv (runs_only ok w0) (release E a ver tag notes1).
Proof.
  intros Hlatest. unfold release. rewrite Hlatest.
  apply keeps_bind; [apply local_print|]. intros _.
  apply local_files.
  destruct (no_push a); [apply local_print|].
  apply keeps_bind; [|intros _; apply local_print].
  apply keeps_bind; [|intros _; apply local_print].
  unfold git_push. destruct (dry_run a); [apply local_print|].
  apply (keeps_sh _ (permits ok)); [apply runs_only_log | easy | easy].
Qed.

End Modes.

(** X16: with --no-push the commands of a run are the staging and the
    commit only, whatever the other options, the registry and the commands
    do. *)
Theorem no_push_stays_local (py_int : text -> option Z) (E : env) (a : args)
    (w : world) :
  no_push a = true ->
  runs_only local_command w (fst (main py_int E a w)).
Proof.
  intros Hno. unfold main.
  apply (keeps_bind (runs_only local_command w)); [| |apply runs_only_refl].
  - now apply local_resolve.
  - intros [[ver tag] notes1]. now apply no_push_release.
Qed.

(** X17: with --latest-only no tag is deleted, created or pushed: the
    commands of a run are the staging, the commit and the push of the
    branch only. *)
Theorem latest_only_makes_no_tag (py_int : text -> option Z) (E : env)
    (a : args) (w : world) :
  latest_only a = true ->
  runs_only branch_command w (fst (main py_int E a w)).
Proof.
  intros Hlatest. unfold main.
  apply (keeps_bind (runs_only branch_command w)); [| |apply runs_only_refl].
  - now apply local_resolve.
  - intros [[ver tag] notes1]. apply latest_only_release; try assumption.
    + intros cmd Hcmd. now left.
    + now right.
Qed.

(** *** A config file that cannot be used *)







(** *** A release with its tag *)

Lemma resolve_given_eval (py_int : text -> option Z) (E : env) (a : args)
    (v : text) (w : world) :
  v <> u "auto" ->
  resolve_given py_int E a v w
  = (w, Ok (v, u "v" ++ v, PStr (manual_notes a v))).
Proof.
  intros Hv. apply text_eqb_neq in Hv. unfold resolve_given, bind.
  rewrite Hv. cbn [negb ret]. unfold manual_notes.
  now destruct (notes a).
Qed.

Lemma commands_events (w w' : world) (l : text) :
  events w' = events w ++ [EvPrint l] -> commands w' = commands w.
Proof.
  intros H. unfold commands. rewrite H, flat_map_app. apply app_nil_r.
Qed.

Lemma manual_notes_nonempty (a : args) (v : text) : manual_notes a v <> [].
Proof. unfold manual_notes. now destruct (notes a). Qed.

Lemma manual_notes_utf8 (a : args) (v : text) :
  utf8 v = true -> utf8 (notes a) = true -> utf8 (manual_notes a v) = true.
Proof.
  intros Hv Hn. unfold manual_notes. destruct (notes a); [|exact Hn].
  rewrite !utf8_app, Hv. now rewrite !utf8_literal.
Qed.

(** X19: a release with a given version, with its tag and its push, where
    the config file is a file of UTF-8 text, the changelog is no directory
    and neither the version nor the notes hold a surrogate: when the
    staging, the creation of the tag and the two pushes succeed, whatever
    the status of the commit and of the two deletions of the tag, [main]
    returns, having run the seven commands in their order, and having left
    the config file that [write_config_version] makes and the notes in the
    changelog. *)
Theorem tagged_release_trace (py_int : text -> option Z) (E : env) (a : args)
    (v raw : text) (w : world) (c0 c1 c2 : Z) :
  version a = Some v -> v <> [] -> v <> u "auto" ->
  dry_run a = false -> no_push a = false -> latest_only a = false ->
  config w = Regular raw -> changelog w <> Directory ->
  utf8 raw = true -> utf8 v = true -> utf8 (notes a) = true ->
  run E GIT_ADD = RunExit 0 ->
  run E (git_commit v) = RunExit c0 ->
  run E [u "git"; u "tag"; u "-d"; u "v" ++ v] = RunExit c1 ->
  run E [u "git"; u "push"; u "origin"; u ":refs/tags/" ++ u "v" ++ v]
  = RunExit c2 ->
  run E [u "git"; u "tag"; u "v" ++ v] = RunExit 0 ->
  run E [u "git"; u "push"] = RunExit 0 ->
  run E [u "git"; u "push"; u "origin"; u "v" ++ v] = RunExit 0 ->
  let w' := fst (main py_int E a w) in
  snd (main py_int E a w) = Ok tt
  /\ commands w' = commands w ++ tagged_release_commands v
  /\ config w' = config (fst (write_config_version v false w))
  /\ changelog w' = Regular (manual_notes a v).
Proof.
  intros Hv Hne Hauto Hdry Hno Hlatest Hcfg Hcl Hraw Hu Hun
    Hadd Hcommit H1 H2 H3 H4 H5.
  set (plan := EvPrint (u "PLAN: config.version=" ++ v ++ u "  tag="
                        ++ (u "v" ++ v) ++ u "  latest_only="
                        ++ Str.of_bool (latest_only a))).
  destruct (write_config_version_config v raw (log plan w) Hcfg Hraw Hu)
    as [out Hw1].
  pose proof (write_config_version_log v false plan w) as Hsame.
  rewrite Hw1 in Hsame. cbn [fst config] in Hsame.
  eassert (Hmain : main py_int E a w = _).
  { unfold main, resolve. rewrite Hv.
    assert (Ht : str_truthy v = true) by now destruct v.
    rewrite Ht.
    rewrite (bind_ok _ _ _ _ _ (resolve_given_eval py_int E a v w Hauto)).
    unfold release.
    rewrite (bind_ok _ _ _ _ _ (print_eval _ _)).
    fold plan. rewrite Hdry, Hno, Hlatest.
    rewrite (bind_ok _ _ _ _ _ Hw1).
    rewrite (bind_ok _ _ _ _ _
               (write_changelog_text (manual_notes a v)
                  (World (Regular out) (changelog (log plan w))
                     (events (log plan w) ++ [updated_message v])) Hcl
                  (manual_notes_utf8 a v Hu Hun))).
    rewrite (bind_ok _ _ _ _ _
               (git_add_commit_ok E _ _ c0 _ Hadd Hcommit)).
    rewrite (bind_ok _ _ _ _ _
               (bind_ok _ _ _ _ _
                  (git_force_tag_and_push_ok E _ _ c1 c2 H1 H2 H3 H4 H5))).
    unfold print. reflexivity. }
  cbv zeta. rewrite Hmain, <- Hsame. cbn [fst snd].
  split; [reflexivity|]. split; [|split].
  - rewrite !commands_log, !commands_ran, !app_nil_r.
    unfold commands at 1. cbn [events log]. rewrite !flat_map_app.
    cbn [flat_map updated_message app plan]. rewrite !app_nil_r.
    fold (commands w). rewrite <- !app_assoc. reflexivity.
  - reflexivity.
  - cbn [log ran changelog config].
    pose proof (manual_notes_nonempty a v) as Hn.
    now destruct (manual_notes a v).
Qed.

(** ** More on the version line *)

Lemma lines_of_appended (v raw : text) :
  Forall terminated (lines_of raw) ->
  forallb (fun c => negb (is_newline c)) v = true ->
  lines_of (concat (lines_of raw ++ [version_line [] v]))
  = lines_of raw ++ [version_line [] v].
Proof.
  intros Hterm Hv. apply no_newline_spec in Hv. destruct Hv as [Hlf Hcr].
  apply lines_of_concat.
  - apply well_formed_replace; [assumption | | exact Logic.I].
    apply version_line_terminated; [intros [] | assumption].
  - rewrite concat_app. cbn [concat]. rewrite app_nil_r. intros H.
    apply in_app_or in H. destruct H as [H|H].
    + now apply (lines_of_no_cr raw).
    + revert H. apply version_line_no_cr; [intros [] | assumption].
Qed.

(** X20: a version that was appended to a config file without a version
    line, all of whose lines end with a line feed, is the version that is
    read afterwards, for a version that holds no surrogate and no line
    break and has neither white space nor a quote at either end. *)
Theorem appended_version_reads_back (v raw : text) (w : world) :
  config w = Regular raw ->
  utf8 raw = true ->
  existsb is_version_line (lines_of raw) = false ->
  Forall terminated (lines_of raw) ->
  plain_version v = true ->
  utf8 v = true ->
  snd (detect_config_version (fst (write_config_version v false w))) = Ok v.
Proof.
  intros Hw Hraw Hnone Hterm Hv Hu.
  assert (Hnl : forallb (fun c => negb (is_newline c)) v = true)
    by (apply andb_prop in Hv; now destruct Hv).
  rewrite (write_config_version_appends v raw w Hw Hraw Hu Hnone). cbn [fst].
  rewrite (detect_config_version_regular
             (concat (lines_of raw ++ [version_line [] v])))
    by reflexivity.
  rewrite (lines_of_appended v raw Hterm Hnl). cbn [snd].
  rewrite scan_version_written; try assumption; [reflexivity | | constructor].
  now apply no_version_line.
Qed.

Lemma first_unencodable_at (pre post : list text) (bad : text) :
  forallb utf8 pre = true -> utf8 bad = false ->
  first_unencodable (pre ++ bad :: post) = Some bad
  /\ encodable_prefix (pre ++ bad :: post) = pre.
Proof.
  intros Hpre Hbad. induction pre as [|x pre IH];
    cbn [app first_unencodable encodable_prefix].
  - now rewrite Hbad.
  - cbn [forallb] in Hpre. apply andb_prop in Hpre. destruct Hpre as [-> Hpre].
    destruct (IH Hpre) as [-> ->]. now split.
Qed.

Lemma unencodable_version_cuts_file_at (v raw : text) (w : world)
    (pre post : list text) (l : text) :
  config w = Regular raw ->
  utf8 raw = true ->
  lines_of raw = pre ++ l :: post ->
  Forall (fun l => is_version_line l = false) pre ->
  is_version_line l = true ->
  utf8 v = false ->
  exists e,
    write_config_version v false w
    = (World (Regular (concat pre)) (changelog w) (events w), Raise e)
    /\ exn_cls e = UnicodeEncodeError.
Proof.
  intros Hw Hraw Hlines Hpre Hl Hv.
  rewrite (write_config_version_lines v raw w pre post l Hw Hlines Hpre Hl).
  pose proof (utf8_lines_of raw Hraw) as Hu. rewrite Hlines, forallb_app in Hu.
  apply andb_prop in Hu. destruct Hu as [Hp _].
  assert (Hbad : utf8 (version_line (indent_of l) v) = false).
  { unfold version_line. rewrite !utf8_app, Hv. cbn [andb].
    now rewrite !andb_false_r. }
  unfold written.
  destruct (first_unencodable_at pre post _ Hp Hbad) as [-> ->].
  eexists. split; [reflexivity | apply encode_error_class].
Qed.

(** X25: a version with a surrogate costs the config file its end: the
    file is emptied before the lines are written, the lines before the
    first version line are written, the new version line is not, and
    UnicodeEncodeError is raised; the version line and all the lines after
    it are lost, and nothing is printed.  Where the file has no version
    line, it keeps its lines and gets none. *)
Theorem unencodable_version_cuts_file (v raw : text) (w : world) :
  config w = Regular raw ->
  utf8 raw = true ->
  utf8 v = false ->
  exists e pre rest,
    write_config_version v false w
    = (World (Regular (concat pre)) (changelog w) (events w), Raise e)
    /\ exn_cls e = UnicodeEncodeError
    /\ lines_of raw = pre ++ rest
    /\ Forall (fun l => is_version_line l = false) pre
    /\ match rest with
       | [] => True
       | l :: _ => is_version_line l = true
       end.
Proof.
  intros Hw Hraw Hv.
  destruct (existsb is_version_line (lines_of raw)) eqn:Hex.
  - destruct (first_version_line _ Hex) as [pre [l [post [E [Hpre Hl]]]]].
    destruct (unencodable_version_cuts_file_at v raw w pre post l Hw Hraw E
                Hpre Hl Hv) as [e [Hwrite He]].
    now exists e, pre, (l :: post).
  - rewrite (write_config_version_end v raw w Hw Hex).
    assert (Hbad : utf8 (version_line [] v) = false).
    { unfold version_line. rewrite !utf8_app, Hv. cbn [andb].
      now rewrite !andb_false_r. }
    unfold written.
    destruct (first_unencodable_at (lines_of raw) [] _
                (utf8_lines_of raw Hraw) Hbad) as [-> ->].
    eexists. exists (lines_of raw), []. rewrite app_nil_r.
    repeat split; [apply encode_error_class | now apply no_version_line].
Qed.

(** X26: and a version that is read back as it was written over a version
    line holds no surrogate. *)
Theorem only_encodable_versions_read_back (v raw : text) (w : world) :
  config w = Regular raw ->
  utf8 raw = true ->
  existsb is_version_line (lines_of raw) = true ->
  snd (detect_config_version (fst (write_config_version v false w))) = Ok v ->
  utf8 v = true.
Proof.
  intros Hw Hraw Hex Hback.
  destruct (utf8 v) eqn:Hv; [reflexivity|]. exfalso.
  destruct (first_version_line _ Hex) as [pre [l [post [E [Hpre Hl]]]]].
  destruct (unencodable_version_cuts_file_at v raw w pre post l Hw Hraw E Hpre
              Hl Hv) as [e [Hwrite _]].
  rewrite Hwrite in Hback. cbn [fst] in Hback.
  rewrite (detect_config_version_regular (concat pre)) in Hback
    by reflexivity.
  rewrite (lines_of_prefix raw pre (l :: post) E) in Hback.
  pose proof (scan_version_skip pre [] Hpre) as H0. rewrite app_nil_r in H0.
  cbn [snd] in Hback. rewrite H0 in Hback. cbn [scan_version] in Hback.
  inversion Hback as [Hnil]. now rewrite <- Hnil in Hv.
Qed.

Lemma lstrip_v_repeat (k : nat) (s : text) :
  Str.lstrip_chars (u "v") (repeat 118%N k ++ s)
  = Str.lstrip_chars (u "v") s.
Proof.
  induction k as [|k IH]; [reflexivity|].
  unfold Str.lstrip_chars in *. cbn [repeat app Str.lstrip_by].
  change (Str.mem (u "v") 118%N) with true. cbv iota. exact IH.
Qed.

(** X21: [strip_v] removes every v at the start of a tag, not just one:
    what is left is the rest, when that has no white space at its ends. *)
Theorem strip_v_removes_every_v (k : nat) (s : text) :
  match s with
  | [] => True
  | c :: _ =>
      c <> 118%N /\ Str.isspace c = false /\ Str.isspace (last s c) = false
  end ->
  strip_v (repeat 118%N k ++ s) = s.
Proof.
  intros Hs. unfold strip_v. rewrite lstrip_v_repeat.
  unfold Str.lstrip_chars, Str.strip.
  destruct s as [|c s]; [reflexivity|]. destruct Hs as [Hv [Hc Hl]].
  cbn [Str.lstrip_by]. unfold Str.mem. change (u "v") with [118%N].
  cbn [existsb]. apply N.eqb_neq in Hv. rewrite Hv. cbn [orb].
  apply strip_by_id. split; assumption.
Qed.

(** ** Examples *)

Lemma last_write_wins_example :
  config (fst (write_config_version (u "1.2") false
                 (fst (write_config_version (u "1.1") false
                         (config_only TWO_VERSIONS)))))
  = config (fst (write_config_version (u "1.2") false
                   (config_only TWO_VERSIONS))).
Proof.
  apply (last_write_wins (u "1.1") (u "1.2") TWO_VERSIONS
           (config_only TWO_VERSIONS)).
  - reflexivity.
  - reflexivity.
  - left. reflexivity.
  - reflexivity.
  - reflexivity.
Defined.

Lemma detect_reads_only_example :
  snd (detect_config_version (config_only (u "name: x" ++ [LF]))) = Ok []
  /\ snd (detect_config_version (World Directory Absent []))
     = Raise (is_a_directory CONFIG_PATH)
  /\ snd (detect_config_version (World NOT_UTF8 Absent []))
     = Raise (Exn UnicodeDecodeError BAD_BYTE)
  /\ snd (detect_config_version (World HALF_UTF8 Absent []))
     = Ok (u "1.0").
Proof.
  split; [|split; [|split]].
  - apply (detect_reads_only (config_only (u "name: x" ++ [LF]))).
    + right. now eexists.
    + reflexivity.
  - apply (detect_reads_only (World Directory Absent [])). reflexivity.
  - apply (proj2 (proj2 (proj2 (detect_reads_only
                                  (World NOT_UTF8 Absent []))))
             [] BAD_BYTE eq_refl).
    reflexivity.
  - apply (proj2 (proj2 (proj2 (detect_reads_only
                                  (World HALF_UTF8 Absent []))))
             [u "version: 1.0" ++ [LF]] BAD_BYTE eq_refl).
    discriminate.
Defined.

Lemma detect_reads_quoted_value_example :
  detect_config_version (config_only QUOTED)
  = (config_only QUOTED, Ok (u "1.2")).
Proof.
  apply (detect_reads_quoted_value (config_only QUOTED) QUOTED
           [u "name: x" ++ [LF]] [] (u "  ") (u "  ") [DQUOTE] (u "1.2")
           (u "  " ++ [LF])).
  - reflexivity.
  - reflexivity.
  - repeat constructor.
  - repeat constructor.
  - repeat constructor.
  - repeat constructor.
  - right. left. reflexivity.
  - reflexivity.
  - discriminate.
Defined.

Lemma bare_key_written_not_read_example :
  detect_config_version (config_only BARE_KEY)
  = (config_only BARE_KEY, Ok (u "0.2"))
  /\ write_config_version (u "1.0") false (config_only BARE_KEY)
     = (World (Regular (u "version: 1.0" ++ [LF] ++ u "version: 0.2" ++ [LF]))
          Absent [updated_message (u "1.0")], Ok tt).
Proof.
  destruct (bare_key_written_not_read (u "1.0") BARE_KEY
              (config_only BARE_KEY) [] [u "version: 0.2" ++ [LF]] [] [LF])
    as [H1 H2].
  - reflexivity.
  - reflexivity.
  - constructor.
  - constructor.
  - right. reflexivity.
  - split; [exact H1|]. apply H2; reflexivity.
Defined.

Lemma auto_version_first_of_day_example :
  snd (auto_version int_of_digits no_release NO_FILES)
  = Ok (u "2024.01.01.1")
  /\ snd (auto_version int_of_digits no_release (config_only ONE_VERSION))
     = Ok (u "2024.01.01.1").
Proof.
  split.
  - apply (auto_version_first_of_day int_of_digits no_release NO_FILES).
    reflexivity.
  - apply (auto_version_first_of_day int_of_digits no_release
             (config_only ONE_VERSION)) with (cur := u "1.0");
      reflexivity.
Defined.

Lemma auto_version_increments_example :
  snd (auto_version int_of_digits no_release
         (config_only (u "version: 2024.01.01.9" ++ [LF])))
  = Ok (u "2024.01.01.10")
  /\ exn_cls_of
       (snd (auto_version int_of_digits no_release
               (config_only (u "version: 2024.01.01."
                             ++ Str.of_Z LAST_NUMBER ++ [LF]))))
     = Some ValueError.
Proof.
  split.
  - apply (auto_version_increments int_of_digits no_release
             (config_only (u "version: 2024.01.01.9" ++ [LF])) 9);
      [reflexivity | reflexivity |].
    apply Z.ltb_lt. vm_compute. reflexivity.
  - apply (auto_version_increments int_of_digits no_release
             (config_only (u "version: 2024.01.01."
                           ++ Str.of_Z LAST_NUMBER ++ [LF]))
             LAST_NUMBER).
    + vm_compute. reflexivity.
    + vm_compute. reflexivity.
    + apply Z.leb_le. vm_compute. reflexivity.
Defined.

Lemma second_release_of_day_example :
  snd (auto_version int_of_digits no_release
         (fst (write_config_version (u "2024.01.01.1") false
                 (config_only ONE_VERSION))))
  = Ok (u "2024.01.01.2").
Proof.
  apply (second_release_of_day int_of_digits no_release
           (config_only ONE_VERSION) ONE_VERSION 1);
    reflexivity.
Defined.

Lemma fetch_latest_release_effect_example :
  fetch_latest_release first_release OWNER REPO NO_FILES
  = (log (EvHttpGet (release_url OWNER REPO)) NO_FILES,
     Ok (Some (u "v1.2.3"), Some (PStr (u "notes"))))
  /\ fetch_latest_release no_release OWNER REPO NO_FILES
     = (log (EvPrint (u "WARN: fetch latest release failed: "
                      ++ exn_str NOT_FOUND))
          (log (EvHttpGet (release_url OWNER REPO)) NO_FILES),
        Ok (None, None)).
Proof.
  split.
  - apply (proj1 (fetch_latest_release_effect first_release OWNER REPO
                    NO_FILES)
             [(u "tag_name", PStr (u "1.2.3")); (u "body", PStr (u "notes"))]
             49%N (u ".2.3"));
      reflexivity.
  - apply (proj2 (proj2 (fetch_latest_release_effect no_release OWNER REPO
                           NO_FILES)) NOT_FOUND).
    reflexivity.
Defined.

Lemma release_tag_resolution_example :
  exists n,
    resolve int_of_digits first_release (Args None [] false false false)
      NO_FILES
    = (log (EvHttpGet (release_url OWNER REPO)) NO_FILES,
       Ok (u "1.2.3", u "v1.2.3", n)).
Proof.
  apply (release_tag_resolution int_of_digits first_release
           (Args None [] false false false) NO_FILES
           [(u "tag_name", PStr (u "1.2.3")); (u "body", PStr (u "notes"))]
           (u "1.2.3") (u "1.2.3")).
  - reflexivity.
  - reflexivity.
  - reflexivity.
  - left. reflexivity.
  - repeat split; discriminate.
Defined.

Lemma notes_override_example :
  snd (resolve int_of_digits first_release
         (Args None (u "mine") false false false) NO_FILES)
  = Ok (u "1.2.3", u "v1.2.3", PStr (u "mine"))
  /\ PStr (u "mine")
     = PStr (notes (Args None (u "mine") false false false)).
Proof.
  split; [reflexivity|].
  apply (notes_override int_of_digits first_release
           (Args None (u "mine") false false false) NO_FILES
           (u "1.2.3") (u "v1.2.3") (PStr (u "mine"))).
  - discriminate.
  - reflexivity.
Defined.

Lemma dry_run_changes_nothing_example :
  untouched (config_only ONE_VERSION)
    (fst (main int_of_digits first_release
            (Args (Some (u "1.1")) [] false false true)
            (config_only ONE_VERSION))).
Proof.
  apply (dry_run_changes_nothing int_of_digits first_release
           (Args (Some (u "1.1")) [] false false true)
           (config_only ONE_VERSION)).
  reflexivity.
Defined.

Lemma git_add_commit_effect_example :
  git_add_commit first_release [u "config.yaml"] (u "m") false NO_FILES
  = (ran [u "git"; u "commit"; u "-m"; u "m"]
       (ran [u "git"; u "add"; u "config.yaml"] NO_FILES), Ok tt)
  /\ git_add_commit no_staging [u "config.yaml"] (u "m") false NO_FILES
     = (ran [u "git"; u "add"; u "config.yaml"] NO_FILES,
        Raise (Exn CalledProcessError
                 (u "Command '['git', 'add', 'config.yaml']' returned "
                  ++ u "non-zero exit status 128."))).
Proof.
  split.
  - apply (proj1 (git_add_commit_effect first_release [u "config.yaml"]
                    (u "m") NO_FILES) 1%Z);
      reflexivity.
  - apply (proj2 (git_add_commit_effect no_staging [u "config.yaml"]
                    (u "m") NO_FILES) 128%Z);
      [reflexivity | discriminate].
Defined.

Lemma git_force_tag_and_push_effect_example :
  git_force_tag_and_push first_release (u "v1") true false NO_FILES
  = (ran [u "git"; u "push"; u "origin"; u "v1"]
       (ran [u "git"; u "push"]
          (ran [u "git"; u "tag"; u "v1"]
             (ran [u "git"; u "push"; u "origin"; u ":refs/tags/v1"]
                (ran [u "git"; u "tag"; u "-d"; u "v1"] NO_FILES)))), Ok tt)
  /\ git_force_tag_and_push no_tag (u "v1") true false NO_FILES
     = (ran [u "git"; u "tag"; u "v1"]
          (ran [u "git"; u "push"; u "origin"; u ":refs/tags/v1"]
             (ran [u "git"; u "tag"; u "-d"; u "v1"] NO_FILES)),
        Raise (Exn CalledProcessError
                 (u "Command '['git', 'tag', 'v1']' returned non-zero "
                  ++ u "exit status 128."))).
Proof.
  split.
  - apply (proj1 (git_force_tag_and_push_effect first_release (u "v1")
                    NO_FILES 1 1 eq_refl eq_refl));
      reflexivity.
  - apply (proj1 (proj2 (git_force_tag_and_push_effect no_tag (u "v1")
                           NO_FILES 128 0 eq_refl eq_refl)) 128%Z);
      [reflexivity | discriminate].
Defined.

Lemma write_changelog_replaces_example :
  write_changelog (PStr [LF]) false (World Absent (Regular (u "old")) [])
  = (World Absent (Regular [LF]) [EvPrint (u "INFO: CHANGELOG.md updated")],
     Ok tt)
  /\ (write_changelog (PStr (u "a" ++ LONE_SURROGATE)) false
        (World Absent (Regular (u "old")) [])
      = (World Absent (Regular []) [],
         Raise (encode_error (u "a" ++ LONE_SURROGATE)))
      /\ exn_cls (encode_error (u "a" ++ LONE_SURROGATE))
         = UnicodeEncodeError)
  /\ exn_str (encode_error (u "a" ++ LONE_SURROGATE))
     = u "'utf-8' codec can't encode character '" ++ [BACKSLASH]
       ++ u "udcff' in position 1: surrogates not allowed".
Proof.
  split; [|split].
  - apply (proj1 (write_changelog_replaces [LF]
                    (World Absent (Regular (u "old")) [])
                    ltac:(discriminate))).
    reflexivity.
  - apply (proj2 (write_changelog_replaces (u "a" ++ LONE_SURROGATE)
                    (World Absent (Regular (u "old")) [])
                    ltac:(discriminate))).
    reflexivity.
  - reflexivity.
Defined.

Lemma write_changelog_not_text_example :
  changelog (fst (write_changelog (PInt 5) false
                    (World Absent (Regular (u "old")) [])))
  = Regular []
  /\ exn_cls_of (snd (write_changelog (PInt 5) false
                        (World Absent (Regular (u "old")) [])))
     = Some TypeError.
Proof.
  apply (write_changelog_not_text (PInt 5)
           (World Absent (Regular (u "old")) []));
    [reflexivity | discriminate | discriminate].
Defined.

Lemma no_push_stays_local_example :
  runs_only local_command (config_only ONE_VERSION)
    (fst (main int_of_digits first_release
            (Args (Some (u "1.1")) [] false true false)
            (config_only ONE_VERSION))).
Proof.
  apply (no_push_stays_local int_of_digits first_release
           (Args (Some (u "1.1")) [] false true false)
           (config_only ONE_VERSION)).
  reflexivity.
Defined.

Lemma latest_only_makes_no_tag_example :
  runs_only branch_command (config_only ONE_VERSION)
    (fst (main int_of_digits first_release
            (Args None [] true false false) (config_only ONE_VERSION))).
Proof.
  apply (latest_only_makes_no_tag int_of_digits first_release
           (Args None [] true false false) (config_only ONE_VERSION)).
  reflexivity.
Defined.


Lemma tagged_release_trace_example :
  snd (main int_of_digits first_release
         (Args (Some (u "1.1")) [] false false false)
         (config_only ONE_VERSION))
  = Ok tt
  /\ commands
       (fst (main int_of_digits first_release
               (Args (Some (u "1.1")) [] false false false)
               (config_only ONE_VERSION)))
     = commands (config_only ONE_VERSION) ++ tagged_release_commands (u "1.1")
  /\ config
       (fst (main int_of_digits first_release
               (Args (Some (u "1.1")) [] false false false)
               (config_only ONE_VERSION)))
     = config (fst (write_config_version (u "1.1") false
                      (config_only ONE_VERSION)))
  /\ changelog
       (fst (main int_of_digits first_release
               (Args (Some (u "1.1")) [] false false false)
               (config_only ONE_VERSION)))
     = Regular (manual_notes (Args (Some (u "1.1")) [] false false false)
                  (u "1.1")).
Proof.
  apply (tagged_release_trace int_of_digits first_release
           (Args (Some (u "1.1")) [] false false false) (u "1.1")
           ONE_VERSION (config_only ONE_VERSION) 1 1 1);
    try reflexivity; discriminate.
Defined.

Lemma appended_version_reads_back_example :
  snd (detect_config_version
         (fst (write_config_version (u "1.0") false
                 (config_only (u "name: x" ++ [LF])))))
  = Ok (u "1.0").
Proof.
  apply (appended_version_reads_back (u "1.0") (u "name: x" ++ [LF])
           (config_only (u "name: x" ++ [LF]))).
  - reflexivity.
  - reflexivity.
  - reflexivity.
  - constructor; [|constructor]. exists (u "name: x"). split; [reflexivity|].
    cbn. intuition discriminate.
  - reflexivity.
  - reflexivity.
Defined.

Lemma unencodable_version_cuts_file_example :
  write_config_version LONE_SURROGATE false (config_only TWO_VERSIONS)
  = (World (Regular (u "name: x" ++ [LF])) Absent [],
     Raise (encode_error (u "  version: " ++ LONE_SURROGATE ++ [LF])))
  /\ exists e pre rest,
       write_config_version LONE_SURROGATE false (config_only TWO_VERSIONS)
       = (World (Regular (concat pre)) Absent [], Raise e)
       /\ exn_cls e = UnicodeEncodeError
       /\ lines_of TWO_VERSIONS = pre ++ rest
       /\ Forall (fun l => is_version_line l = false) pre
       /\ match rest with
          | [] => True
          | l :: _ => is_version_line l = true
          end.
Proof.
  split; [reflexivity|].
  apply (unencodable_version_cuts_file LONE_SURROGATE TWO_VERSIONS
           (config_only TWO_VERSIONS)); reflexivity.
Defined.

Lemma only_encodable_versions_read_back_example :
  utf8 (u "1.1") = true.
Proof.
  apply (only_encodable_versions_read_back (u "1.1") ONE_VERSION
           (config_only ONE_VERSION)); reflexivity.
Defined.

Lemma strip_v_removes_every_v_example :
  strip_v (u "vv1.0") = u "1.0".
Proof.
  apply (strip_v_removes_every_v 2 (u "1.0")).
  repeat split; discriminate.
Defined.

Lemma write_appends_after_final_newline_example :
  exists w',
    write_config_version (u "1.0") false (config_only (u "name: x" ++ [LF]))
    = (w', Ok tt)
    /\ config_lines w'
       = lines_of (u "name: x" ++ [LF]) ++ [u "version: " ++ u "1.0" ++ [LF]].
Proof.
  apply (write_appends_after_final_newline (u "1.0")
           (config_only (u "name: x" ++ [LF])) (u "name: x" ++ [LF])).
  - reflexivity.
  - reflexivity.
  - reflexivity.
  - constructor; [|constructor]. exists (u "name: x"). split; [reflexivity|].
    cbn. intuition discriminate.
  - reflexivity.
  - reflexivity.
Defined.

Lemma only_plain_versions_read_back_example :
  plain_version (u "1.1") = true.
Proof.
  apply (only_plain_versions_read_back (u "1.1") (config_only ONE_VERSION)
           ONE_VERSION); reflexivity.
Defined.

Lemma appended_line_needs_final_newline_example :
  Forall terminated (lines_of (u "name: x" ++ [LF])).
Proof.
  apply (appended_line_needs_final_newline (u "1.0")
           (config_only (u "name: x" ++ [LF])) (u "name: x" ++ [LF]));
    reflexivity.
Defined.
